(** * Portfolio: the markdown pipeline of the blog page and the content API

    A shallow embedding of
    - the blog post page of the client (the second file of
      [src/unnamed/part_000]): [ADMONITION_ICONS], [preprocessAdmonitions]
      and the [code] renderer handed to marked;
    - the server ([src/unnamed/part_001]): the Express route table,
      [authMiddleware], the upload filter and the handlers over the
      Mongoose models of [src/models.js];
    - the admin page of the client (the first file of
      [src/unnamed/part_000]): the header of its requests, the
      pipe-separated fields of its forms and [handleReorder];
    - the public pages of the client ([src/client/src/pages/Creatives.js],
      [src/client/src/App.js]): the filters of the galleries and of the
      blog list, the sections of the home page and [getTechIcon].

    JavaScript strings of the client are sequences of UTF-16 code units
    ([list Z]); the server side, whose string operations only look at ASCII
    bytes, uses [string]. What the repository calls and does not define
    (highlight.js, jsonwebtoken, bcrypt, Cloudinary, the casts and the
    validators of Mongoose) is taken as a parameter; the queries of
    Mongoose are modelled on a collection held as a list of documents. *)

From Stdlib Require Import ZArith List String Ascii Bool Lia.
From Stdlib Require OrderedTypeEx.
From stdpp Require Import base option list gmap strings sorting.
Import ListNotations.

Local Open Scope Z_scope.

(* ================================================================= *)
(** ** JavaScript strings as UTF-16 code units *)

Module JS.

Definition jsstring := list Z.

Definition unit_of_ascii (a : ascii) : Z := Z.of_N (N_of_ascii a).

(** An ASCII literal as a JavaScript string. *)
Fixpoint u (s : string) : jsstring :=
  match s with
  | EmptyString => []
  | String a r => unit_of_ascii a :: u r
  end.

(** The double quote, U+0022. *)
Definition dq : jsstring := [34].

Definition in_range (lo hi c : Z) : bool := (lo <=? c) && (c <=? hi).

(** LineTerminator of ECMAScript: LF, CR, LS, PS. *)
Definition isLineTerminator (c : Z) : bool :=
  (c =? 10) || (c =? 13) || (c =? 8232) || (c =? 8233).

(** [\s]: WhiteSpace and LineTerminator. *)
Definition isWhiteSpace (c : Z) : bool :=
  in_range 9 13 c || (c =? 32) || (c =? 160) || (c =? 5760)
  || in_range 8192 8202 c || (c =? 8232) || (c =? 8233) || (c =? 8239)
  || (c =? 8287) || (c =? 12288) || (c =? 65279).

(** [\w]: [A-Za-z0-9_]. *)
Definition isWordChar (c : Z) : bool :=
  in_range 97 122 c || in_range 65 90 c || in_range 48 57 c || (c =? 95).

(** [.] without the s flag. *)
Definition isDot (c : Z) : bool := negb (isLineTerminator c).

(** [[\s\S]]. *)
Definition isAny (c : Z) : bool := isWhiteSpace c || negb (isWhiteSpace c).

Definition isChar (d c : Z) : bool := c =? d.

(** [toLowerCase] and [toUpperCase] on the code units that [\w] admits;
    the preprocessor applies them to a [\w+] capture only. *)
Definition lowerUnit (c : Z) : Z := if in_range 65 90 c then c + 32 else c.
Definition upperUnit (c : Z) : Z := if in_range 97 122 c then c - 32 else c.
Definition toLowerCase (s : jsstring) : jsstring := map lowerUnit s.
Definition toUpperCase (s : jsstring) : jsstring := map upperUnit s.

Fixpoint eqb (s t : jsstring) : bool :=
  match s, t with
  | [], [] => true
  | a :: s', b :: t' => (a =? b) && eqb s' t'
  | _, _ => false
  end.

(** [Array.prototype.includes] on an array of strings. *)
Definition includes (l : list jsstring) (s : jsstring) : bool :=
  existsb (eqb s) l.

Fixpoint trimStart (s : jsstring) : jsstring :=
  match s with
  | c :: r => if isWhiteSpace c then trimStart r else s
  | [] => []
  end.

Definition trimEnd (s : jsstring) : jsstring := rev (trimStart (rev s)).

(** [String.prototype.trim]. *)
Definition trim (s : jsstring) : jsstring := trimEnd (trimStart s).

(** [s.charAt(0)] and [s.slice(1)]. *)
Definition charAt0 (s : jsstring) : jsstring := firstn 1 s.
Definition slice1 (s : jsstring) : jsstring := skipn 1 s.

(** [s.replace(/c/g, r)] for a one-character pattern. *)
Definition replaceChar (c : Z) (r : jsstring) (s : jsstring) : jsstring :=
  flat_map (fun x => if x =? c then r else [x]) s.

End JS.

(* ================================================================= *)
(** ** Backtracking regular expressions

    The fragment of ECMAScript regular expressions that the admonition
    pattern uses, with the priorities of the language: the left alternative
    first, a greedy quantifier longest first, a lazy one shortest first.
    Quantifiers range over a one-character atom, which is all the pattern
    needs. [Bol] and [Eol] are [^] and [$] under the [m] flag. *)

Module Regex.
Import JS.

Inductive regex : Type :=
| Empty
| Class (p : Z -> bool)
| Seq (r1 r2 : regex)
| Alt (r1 r2 : regex)
| Star (greedy : bool) (p : Z -> bool)
| Group (n : nat) (r : regex)
| Bol
| Eol.

Definition Lit (c : Z) : regex := Class (isChar c).
Definition Plus (p : Z -> bool) : regex := Seq (Class p) (Star true p).
Definition Opt (r : regex) : regex := Alt r Empty.

Fixpoint Str (s : jsstring) : regex :=
  match s with
  | [] => Empty
  | c :: r => Seq (Lit c) (Str r)
  end.

(** Capture groups, most recent first. *)
Definition captures := list (nat * jsstring).

Definition no_captures : captures := [].

Definition set_capture (n : nat) (s : jsstring) (c : captures) : captures :=
  (n, s) :: c.

(** The value of group [n], [None] for [undefined]. *)
Fixpoint get_capture (c : captures) (n : nat) : option jsstring :=
  match c with
  | [] => None
  | (i, s) :: r => if Nat.eqb i n then Some s else get_capture r n
  end.

(** A position in the subject: the code units before it, nearest first,
    and the code units from it on. *)
Record mstate : Type := MState {
  before : jsstring;
  after : jsstring;
  caps : captures
}.

Definition at_bol (st : mstate) : bool :=
  match before st with
  | [] => true
  | c :: _ => isLineTerminator c
  end.

Definition at_eol (st : mstate) : bool :=
  match after st with
  | [] => true
  | c :: _ => isLineTerminator c
  end.

(** The text consumed between two positions of one subject. *)
Definition consumed (st st' : mstate) : jsstring :=
  firstn (length (before st') - length (before st)) (after st).

Fixpoint star_greedy {R : Type} (p : Z -> bool) (bef aft : jsstring)
    (k : jsstring -> jsstring -> option R) : option R :=
  match aft with
  | c :: t =>
      if p c then
        match star_greedy p (c :: bef) t k with
        | Some r => Some r
        | None => k bef aft
        end
      else k bef aft
  | [] => k bef aft
  end.

Fixpoint star_lazy {R : Type} (p : Z -> bool) (bef aft : jsstring)
    (k : jsstring -> jsstring -> option R) : option R :=
  match k bef aft with
  | Some r => Some r
  | None =>
      match aft with
      | c :: t => if p c then star_lazy p (c :: bef) t k else None
      | [] => None
      end
  end.

(** The matcher, in continuation-passing style: [m r st k] tries the ways
    [r] can match at [st] in priority order and returns the first for which
    the continuation succeeds. *)
Fixpoint m {R : Type} (r : regex) (st : mstate) (k : mstate -> option R)
    : option R :=
  match r with
  | Empty => k st
  | Class p =>
      match after st with
      | c :: t => if p c then k (MState (c :: before st) t (caps st)) else None
      | [] => None
      end
  | Seq r1 r2 => m r1 st (fun st1 => m r2 st1 k)
  | Alt r1 r2 =>
      match m r1 st k with
      | Some x => Some x
      | None => m r2 st k
      end
  | Star greedy p =>
      let k' := fun b a => k (MState b a (caps st)) in
      if greedy then star_greedy p (before st) (after st) k'
      else star_lazy p (before st) (after st) k'
  | Group n r1 =>
      m r1 st (fun st1 =>
        k (MState (before st1) (after st1)
             (set_capture n (consumed st st1) (caps st1))))
  | Bol => if at_bol st then k st else None
  | Eol => if at_eol st then k st else None
  end.

(** One attempt of [RegExp.prototype.exec] at a position. *)
Definition exec_at (r : regex) (bef aft : jsstring) : option mstate :=
  m r (MState bef aft no_captures) Some.

(** A piece of the subject as [String.prototype.replace] with a global
    pattern sees it: a code unit outside every match, or a match. *)
Inductive segment : Type :=
| Plain (c : Z)
| Hit (whole : jsstring) (groups : captures).

(** The scan of [replace] with the [g] flag: the pattern is tried at each
    position from the end of the previous match on; [skip] counts the
    code units still inside the previous match. After an empty match the
    scan moves on by one code unit. *)
Fixpoint scan (r : regex) (skip : nat) (bef aft : jsstring) {struct aft}
    : list segment :=
  match skip with
  | S n =>
      match aft with
      | c :: t => scan r n (c :: bef) t
      | [] => []
      end
  | O =>
      match exec_at r bef aft with
      | Some st' =>
          let n := (length (before st') - length bef)%nat in
          Hit (firstn n aft) (caps st') ::
          match aft with
          | c :: t =>
              match n with
              | O => Plain c :: scan r O (c :: bef) t
              | S n' => scan r n' (c :: bef) t
              end
          | [] => []
          end
      | None =>
          match aft with
          | c :: t => Plain c :: scan r O (c :: bef) t
          | [] => []
          end
      end
  end.

Definition segments (r : regex) (s : jsstring) : list segment :=
  scan r O [] s.

(** The source text of a segment. *)
Definition segment_text (sg : segment) : jsstring :=
  match sg with
  | Plain c => [c]
  | Hit whole _ => whole
  end.

(** *** The declarative reading of a pattern

    [Matches r st st'] holds when [r] can match the text between the
    positions [st] and [st'], whatever the priorities. *)

Inductive Matches : regex -> mstate -> mstate -> Prop :=
| M_Empty st : Matches Empty st st
| M_Class p c t b cs :
    p c = true ->
    Matches (Class p) (MState b (c :: t) cs) (MState (c :: b) t cs)
| M_Seq r1 r2 st st1 st2 :
    Matches r1 st st1 -> Matches r2 st1 st2 -> Matches (Seq r1 r2) st st2
| M_AltL r1 r2 st st' : Matches r1 st st' -> Matches (Alt r1 r2) st st'
| M_AltR r1 r2 st st' : Matches r2 st st' -> Matches (Alt r1 r2) st st'
| M_Star g p w b a cs :
    Forall (fun c => p c = true) w ->
    Matches (Star g p) (MState b (w ++ a) cs) (MState (rev w ++ b) a cs)
| M_Group n r st st1 :
    Matches r st st1 ->
    Matches (Group n r) st
      (MState (before st1) (after st1)
         (set_capture n (consumed st st1) (caps st1)))
| M_Bol st : at_bol st = true -> Matches Bol st st
| M_Eol st : at_eol st = true -> Matches Eol st st.

(** [st'] lies [w] further in the same subject than [st]. *)
Definition span (st : mstate) (w : jsstring) (st' : mstate) : Prop :=
  after st = w ++ after st' /\ before st' = rev w ++ before st.

End Regex.

(* ================================================================= *)
(** ** The blog post page of the client *)

Module BlogPostPage.
Import JS Regex.

Definition ADMONITION_ICONS : list (jsstring * jsstring) :=
  [ (u "note", [8505; 65039]); (u "info", [8505; 65039]);
    (u "tip", [55357; 56481]); (u "success", [9989]);
    (u "hint", [55357; 56481]);
    (u "warning", [9888; 65039]); (u "caution", [9888; 65039]);
    (u "attention", [9888; 65039]);
    (u "danger", [55357; 57000]); (u "error", [10060]);
    (u "bug", [55357; 56347]);
    (u "example", [55357; 56541]); (u "abstract", [55357; 56523]);
    (u "question", [10067]);
    (u "quote", [55357; 56492]); (u "failure", [10071]) ].

(** [Object.keys(ADMONITION_ICONS)]. *)
Definition ADMONITION_TYPES : list jsstring := map fst ADMONITION_ICONS.

(** [ADMONITION_ICONS[key]], [None] for [undefined]. *)
Fixpoint icon_of (tbl : list (jsstring * jsstring)) (key : jsstring)
    : option jsstring :=
  match tbl with
  | [] => None
  | (k, v) :: r => if JS.eqb k key then Some v else icon_of r key
  end.

Definition delimiter : regex := Alt (Str (u ":::")) (Str (u "!!!")).

(** [/^(?::::|!!!) *(\w+)(?: +(.+))?\n([\s\S]*?)(?::::|!!!)\s*$/gm] *)
Definition admonition_regex : regex :=
  Seq Bol
 (Seq delimiter
 (Seq (Star true (isChar 32))
 (Seq (Group 1%nat (Plus isWordChar))
 (Seq (Opt (Seq (Plus (isChar 32)) (Group 2%nat (Plus isDot))))
 (Seq (Lit 10)
 (Seq (Group 3%nat (Star false isAny))
 (Seq delimiter
 (Seq (Star true isWhiteSpace)
      Eol)))))))).

(** [a || b] on a possibly undefined string. *)
Definition or_else (a : option jsstring) (b : jsstring) : jsstring :=
  match a with
  | Some (c :: r) => c :: r
  | _ => b
  end.

Definition group (g : captures) (n : nat) : jsstring :=
  match get_capture g n with Some s => s | None => [] end.

(** The callback handed to [replace]. [random n] stands for the value of
    [Math.random().toString(36).substring(2, 10)] at its [n]-th call; the
    result carries the number of calls made so far. *)
Definition admonition (random : nat -> jsstring) (n : nat)
    (whole : jsstring) (g : captures) : jsstring * nat :=
  let typeLower := toLowerCase (group g 1%nat) in
  if negb (includes ADMONITION_TYPES typeLower) then (whole, n)
  else
    let displayTitle :=
      or_else (get_capture g 2%nat) (toUpperCase (charAt0 typeLower) ++ slice1 typeLower) in
    let icon := or_else (icon_of ADMONITION_ICONS typeLower) [8505; 65039] in
    let id := random n in
    (u (String "010" "<div class=") ++ dq ++ u "admonition admonition-"
       ++ typeLower ++ dq ++ u " data-admonition=" ++ dq ++ id ++ dq
       ++ u "><p class=" ++ dq ++ u "admonition-title" ++ dq ++ u ">"
       ++ icon ++ u " " ++ displayTitle
       ++ u "</p>" ++ [10; 10] ++ trim (group g 3%nat) ++ [10; 10]
       ++ u "</div>" ++ [10],
     S n).

Fixpoint render (random : nat -> jsstring) (n : nat) (segs : list segment)
    : jsstring :=
  match segs with
  | [] => []
  | Plain c :: rest => c :: render random n rest
  | Hit whole g :: rest =>
      let '(out, n') := admonition random n whole g in
      out ++ render random n' rest
  end.

Definition preprocessAdmonitions (random : nat -> jsstring)
    (markdown : jsstring) : jsstring :=
  render random O (segments admonition_regex markdown).

(** *** The [code] renderer *)

(** highlight.js, as the renderer uses it. [None] stands for a call that
    throws. *)
Class Hljs : Type := {
  getLanguage : jsstring -> bool;
  highlight : jsstring -> jsstring -> option jsstring;
  highlightAuto : jsstring -> option jsstring
}.

(** The first argument of [code]: a token object of marked, or the source
    text of the older calling convention. *)
Inductive codeArg : Type :=
| Token (text : jsstring) (lang : option jsstring)
| Text (code : jsstring).

(** Truthiness of a possibly undefined string. *)
Definition declared (lang : option jsstring) : bool :=
  match lang with
  | Some (_ :: _) => true
  | _ => false
  end.

Definition str (lang : option jsstring) : jsstring :=
  match lang with Some l => l | None => [] end.

Definition escapeHtml (codeStr : jsstring) : jsstring :=
  replaceChar 62 (u "&gt;")
    (replaceChar 60 (u "&lt;")
       (replaceChar 38 (u "&amp;") codeStr)).

(** The value of [highlighted] after the [if]; [None] when an exception
    leaves the renderer. *)
Definition highlighted `{Hljs} (codeStr : jsstring) (lang : option jsstring)
    : option jsstring :=
  if declared lang && getLanguage (str lang) then
    match highlight codeStr (str lang) with
    | Some v => Some v
    | None => highlightAuto codeStr
    end
  else
    match highlightAuto codeStr with
    | Some v => Some v
    | None => Some (escapeHtml codeStr)
    end.

Definition langLabel (lang : option jsstring) : jsstring :=
  if declared lang then
    u "<span class=" ++ dq ++ u "code-lang-label" ++ dq ++ u ">"
      ++ str lang ++ u "</span>"
  else [].

(** The template the renderer returns. *)
Definition codeBlock (lang : option jsstring) (hl : jsstring) : jsstring :=
  u "<div class=" ++ dq ++ u "code-block-wrapper" ++ dq ++ u ">"
    ++ langLabel lang
    ++ u "<pre><code class=" ++ dq ++ u "hljs"
    ++ (if declared lang then u " language-" ++ str lang else [])
    ++ dq ++ u ">" ++ hl ++ u "</code></pre></div>".

Definition code `{Hljs} (arg : codeArg) (language : option jsstring)
    : option jsstring :=
  let codeStr := match arg with Token text _ => text | Text c => c end in
  let lang := match arg with Token _ l => l | Text _ => language end in
  match highlighted codeStr lang with
  | None => None
  | Some hl => Some (codeBlock lang hl)
  end.

(** A highlighter for the examples: it knows every language, fails on
    each of them and detects one by itself. *)
Definition failing_hljs : Hljs := {|
  getLanguage := fun _ => true;
  highlight := fun _ _ => None;
  highlightAuto := fun _ => Some (u "AUTO")
|}.

End BlogPostPage.


(* ================================================================= *)
(** ** The models and the server *)

Module Server.

Local Open Scope string_scope.

(** *** Values and documents *)

(** JavaScript values as they occur in request bodies and stored
    documents. A missing property ([undefined]) is a failed lookup. *)
#[local] Unset Elimination Schemes.
Inductive value : Type :=
| VNull
| VBool (b : bool)
| VNum (n : Z)
| VStr (s : string)
| VDate (t : Z)
| VArr (elems : list value)
| VObj (members : list (string * value)).
#[local] Set Elimination Schemes.

(** ToBoolean. *)
Definition truthy (v : option value) : bool :=
  match v with
  | None | Some VNull => false
  | Some (VBool b) => b
  | Some (VNum n) => negb (n =? 0)%Z
  | Some (VStr EmptyString) => false
  | Some _ => true
  end.

Inductive collection : Type :=
| BlogPost | Photography | Video | Experience | Project | Skill | Course
| Creative.

#[export] Instance collection_eq_dec : EqDecision collection.
Proof. solve_decision. Defined.

(** A stored document: the identifier, the two timestamps that
    [timestamps: true] maintains, and the paths the schema declares. *)
Record document : Type := Document {
  _id : string;
  createdAt : Z;
  updatedAt : Z;
  paths : gmap string value
}.

(** [doc[key]]. *)
Definition field (d : document) (key : string) : option value :=
  if String.eqb key "createdAt" then Some (VDate (createdAt d))
  else if String.eqb key "updatedAt" then Some (VDate (updatedAt d))
  else if String.eqb key "_id" then Some (VStr (_id d))
  else paths d !! key.

(** *** models.js *)

Inductive schemaType : Type := SString | SNumber | SBoolean | SDate | SArray.

(** A schema path with its type and its default. The validators
    ([required], [enum], [maxLength]) and the setters ([trim],
    [lowercase]) of a path are applied by Mongoose; they are part of the
    [validate] and [cast] parameters below. *)
Record schemaPath : Type := Path {
  p_name : string;
  p_type : schemaType;
  p_default : option value
}.

Definition blogPostSchema : list schemaPath :=
  [ Path "title" SString None;
    Path "slug" SString None;
    Path "content" SString None;
    Path "excerpt" SString None;
    Path "coverImage" SString (Some (VStr EmptyString));
    Path "tags" SArray (Some (VArr []));
    Path "published" SBoolean (Some (VBool false));
    Path "publishedAt" SDate None;
    Path "order" SNumber (Some (VNum 0)) ].

Definition photographySchema : list schemaPath :=
  [ Path "title" SString None;
    Path "description" SString (Some (VStr EmptyString));
    Path "imageUrl" SString None;
    Path "category" SString (Some (VStr "other"));
    Path "tags" SArray (Some (VArr []));
    Path "featured" SBoolean (Some (VBool false));
    Path "order" SNumber (Some (VNum 0)) ].

Definition videoSchema : list schemaPath :=
  [ Path "title" SString None;
    Path "description" SString (Some (VStr EmptyString));
    Path "youtubeId" SString None;
    Path "thumbnail" SString (Some (VStr EmptyString));
    Path "category" SString (Some (VStr "general"));
    Path "tags" SArray (Some (VArr []));
    Path "featured" SBoolean (Some (VBool false));
    Path "order" SNumber (Some (VNum 0)) ].

Definition experienceSchema : list schemaPath :=
  [ Path "title" SString None;
    Path "company" SString None;
    Path "logoUrl" SString (Some (VStr EmptyString));
    Path "location" SString (Some (VStr EmptyString));
    Path "startDate" SString None;
    Path "endDate" SString (Some (VStr "Present"));
    Path "description" SString (Some (VStr EmptyString));
    Path "achievements" SArray (Some (VArr []));
    Path "technologies" SArray (Some (VArr []));
    Path "type" SString None;
    Path "featured" SBoolean (Some (VBool false));
    Path "order" SNumber (Some (VNum 0)) ].

Definition projectSchema : list schemaPath :=
  [ Path "name" SString None;
    Path "description" SString None;
    Path "imageUrl" SString (Some (VStr EmptyString));
    Path "technologies" SArray (Some (VArr []));
    Path "githubUrl" SString (Some (VStr EmptyString));
    Path "liveUrl" SString (Some (VStr EmptyString));
    Path "highlights" SArray (Some (VArr []));
    Path "startDate" SString (Some (VStr EmptyString));
    Path "endDate" SString (Some (VStr EmptyString));
    Path "featured" SBoolean (Some (VBool false));
    Path "order" SNumber (Some (VNum 0)) ].

Definition skillSchema : list schemaPath :=
  [ Path "category" SString None;
    Path "skills" SArray (Some (VArr []));
    Path "featured" SBoolean (Some (VBool true));
    Path "order" SNumber (Some (VNum 0)) ].

Definition courseSchema : list schemaPath :=
  [ Path "name" SString None;
    Path "description" SString (Some (VStr EmptyString));
    Path "featured" SBoolean (Some (VBool true));
    Path "order" SNumber (Some (VNum 0)) ].

Definition creativeSchema : list schemaPath :=
  [ Path "title" SString None;
    Path "description" SString (Some (VStr EmptyString));
    Path "imageUrl" SString (Some (VStr EmptyString));
    Path "linkUrl" SString (Some (VStr EmptyString));
    Path "category" SString (Some (VStr EmptyString));
    Path "tags" SArray (Some (VArr []));
    Path "featured" SBoolean (Some (VBool false));
    Path "order" SNumber (Some (VNum 0)) ].

Definition schema (c : collection) : list schemaPath :=
  match c with
  | BlogPost => blogPostSchema
  | Photography => photographySchema
  | Video => videoSchema
  | Experience => experienceSchema
  | Project => projectSchema
  | Skill => skillSchema
  | Course => courseSchema
  | Creative => creativeSchema
  end.

(** *** What the server calls and does not define *)

Inductive error : Type :=
| CastError
| ValidationError
| DuplicateKey
| TypeError
| MulterError
| FileFilterError
| UpstreamError
| WriteError.                    (* MongoDB refuses an update *)

Record uploadFile : Type := UploadFile {
  fieldname : string;
  mimetype : string;
  size : Z
}.

Record uploadResult : Type := UploadResult {
  secure_url : string;
  public_id : string;
  width : Z;
  height : Z
}.

(** Mongoose casting and validation, jsonwebtoken, bcrypt, Cloudinary and
    the environment. [None] stands for a call that throws or rejects. *)
Class Externals : Type := {
  (** the SchemaType cast of a value for a path of a model *)
  cast : collection -> schemaPath -> value -> option value;
  (** the cast of an identifier to an ObjectId *)
  castObjectId : value -> option string;
  (** the cast of an update object that holds update operators ([$set],
      [$unset], [$inc], ...), dotted paths, [_id] or [__v]: what the
      update makes of a stored document at a given time, where [None]
      stands for a write that MongoDB refuses *)
  castOperators : collection -> gmap string value ->
                  option (Z -> document -> option document);
  (** [new Model(body)], with the timestamps [save] gives it, for a body
      that has a dotted key: the body, the time and the collection give
      the document *)
  constructDotted : collection -> gmap string value -> Z ->
                    list document -> option document;
  (** the validators [save] runs on a document *)
  validate : collection -> document -> bool;
  (** the identifier Mongoose gives a new document *)
  newObjectId : list document -> string;
  (** [jwt.verify(token, JWT_SECRET)] at a given time does not throw *)
  jwt_verify : string -> Z -> bool;
  (** [jwt.sign({role:'admin'}, JWT_SECRET, {expiresIn:'24h'})] *)
  jwt_sign : Z -> string;
  (** [bcrypt.compare(password, ADMIN_PASSWORD_HASH)] *)
  bcrypt_compare : option value -> option bool;
  (** both [ADMIN_PASSWORD_HASH] and [JWT_SECRET] are set *)
  auth_configured : bool;
  (** the Cloudinary upload of a buffer under a folder *)
  upload_stream : string -> uploadFile -> option uploadResult
}.

(** *** Mongoose queries over a collection *)

Inductive direction : Type := Asc | Desc.

Definition rank (v : option value) : Z :=
  match v with
  | None | Some VNull => 0
  | Some (VNum _) => 1
  | Some (VStr _) => 2
  | Some (VObj _) => 3
  | Some (VArr _) => 4
  | Some (VBool _) => 5
  | Some (VDate _) => 6
  end.

(** The comparison of two sort keys: by type first, then numbers and
    dates by value, strings by their bytes, [false] before [true]. Arrays
    and embedded documents are never sort keys in this server and compare
    equal among themselves. *)
Definition compare_values (a b : option value) : comparison :=
  match a, b with
  | Some (VNum x), Some (VNum y) => (x ?= y)%Z
  | Some (VDate x), Some (VDate y) => (x ?= y)%Z
  | Some (VStr x), Some (VStr y) => String.compare x y
  | Some (VBool x), Some (VBool y) => Bool.compare x y
  | _, _ => (rank a ?= rank b)%Z
  end.

(** The same comparison read off a key: the rank of the type, the number
    or date, the string. *)
Definition sort_key (v : option value) : Z * Z * string :=
  match v with
  | Some (VNum x) => (1, x, EmptyString)
  | Some (VStr s) => (2, 0, s)
  | Some (VBool b) => (5, Z.b2z b, EmptyString)
  | Some (VDate t) => (6, t, EmptyString)
  | _ => (rank v, 0, EmptyString)
  end%Z.

Definition compare_keys (a b : Z * Z * string) : comparison :=
  match (fst (fst a) ?= fst (fst b))%Z with
  | Eq =>
      match (snd (fst a) ?= snd (fst b))%Z with
      | Eq => String.compare (snd a) (snd b)
      | o => o
      end
  | o => o
  end.

(** [d1] may stand before [d2] under [.sort(spec)]. *)
Fixpoint sorts_before (spec : list (string * direction)) (d1 d2 : document)
    : bool :=
  match spec with
  | [] => true
  | (key, dir) :: rest =>
      match compare_values (field d1 key) (field d2 key), dir with
      | Eq, _ => sorts_before rest d1 d2
      | Lt, Asc | Gt, Desc => true
      | Gt, Asc | Lt, Desc => false
      end
  end.

Definition precedes (spec : list (string * direction)) : relation document :=
  fun d1 d2 => sorts_before spec d1 d2 = true.

#[export] Instance precedes_dec spec d1 d2 : Decision (precedes spec d1 d2).
Proof. unfold precedes. apply _. Defined.

(** [query.sort(spec)]. *)
Definition sort (spec : list (string * direction)) (docs : list document)
    : list document :=
  merge_sort (precedes spec) docs.

(** Equality of a stored value with a string or boolean of a filter. *)
Definition value_matches (stored : option value) (wanted : value) : bool :=
  match stored, wanted with
  | Some (VStr a), VStr b => String.eqb a b
  | Some (VBool a), VBool b => Bool.eqb a b
  | _, _ => false
  end.

Definition matches (flt : list (string * value)) (d : document) : bool :=
  forallb (fun '(key, v) => value_matches (field d key) v) flt.

(** [Model.find(filter)], in the order of the collection. *)
Definition find (flt : list (string * value)) (docs : list document)
    : list document :=
  List.filter (matches flt) docs.

(** [Model.findOne(filter)]. *)
Definition findOne (flt : list (string * value)) (docs : list document)
    : option document :=
  head (find flt docs).

Definition has_id (id : string) (d : document) : bool :=
  String.eqb (_id d) id.

Definition lookup_id (id : string) (docs : list document) : option document :=
  List.find (has_id id) docs.

(** [Model.findById(id)]: [inl] when the identifier does not cast. *)
Definition findById `{Externals} (id : value) (docs : list document)
    : error + option document :=
  match castObjectId id with
  | None => inl CastError
  | Some i => inr (lookup_id i docs)
  end.

Definition path_of (c : collection) (key : string) : option schemaPath :=
  List.find (fun p => String.eqb (p_name p) key) (schema c).

(** A key with a dot is a path into an array or an embedded document. *)
Fixpoint dotted (key : string) : bool :=
  match key with
  | EmptyString => false
  | String a r => Ascii.eqb a "."%char || dotted r
  end.

(** A key of an update object that names a field: not an update operator,
    not a dotted path, not [_id] and not the version key. *)
Definition field_key (key : string) : bool :=
  negb (String.prefix "$" key) && negb (dotted key)
  && negb (String.eqb key "_id") && negb (String.eqb key "__v").

Definition fields_only (update : gmap string value) : bool :=
  bool_decide (map_Forall (fun key _ => field_key key = true) update).

(** What the cast of an update does with one field: a key that is not a
    path of the schema is dropped, a value that does not cast throws. *)
Definition cast_key `{Externals} (c : collection) (key : string) (v : value)
    : option value :=
  match path_of c key with
  | Some p => cast c p v
  | None => None
  end.

Definition castable `{Externals} (c : collection) (key : string) (v : value)
    : bool :=
  match path_of c key with
  | Some p => bool_decide (is_Some (cast c p v))
  | None => true
  end.

(** The [$set] Mongoose makes of an update object that holds fields
    only. *)
Definition castFields `{Externals} (c : collection)
    (update : gmap string value) : error + gmap string value :=
  if bool_decide (map_Forall (fun key v => castable c key v = true) update)
  then inr (map_imap (cast_key c) update)
  else inl CastError.

Definition unique_paths (c : collection) : list string :=
  match c with
  | BlogPost => ["slug"]
  | _ => []
  end.

(** Another document of the collection holds the same string at a path
    with a unique index. *)
Definition duplicate_key (c : collection) (docs : list document)
    (d : document) : bool :=
  existsb (fun key =>
    existsb (fun d' =>
      negb (has_id (_id d) d') &&
      match field d key with
      | Some v => value_matches (field d' key) v
      | None => false
      end) docs) (unique_paths c).

(** The document after a [$set] of the cast paths; with [timestamps: true]
    the update also sets [updatedAt]. *)
Definition apply_update (set : gmap string value) (now : Z) (d : document)
    : document :=
  Document (_id d) (createdAt d) now (set ∪ paths d).

(** The cast of an update object: what the update makes of a stored
    document at a given time. An object of fields becomes a [$set]; update
    operators are obeyed as Mongoose and MongoDB obey them. *)
Definition castUpdate `{Externals} (c : collection)
    (update : gmap string value)
    : error + (Z -> document -> option document) :=
  if fields_only update then
    match castFields c update with
    | inl e => inl e
    | inr set => inr (fun now d => Some (apply_update set now d))
    end
  else
    match castOperators c update with
    | None => inl CastError
    | Some change => inr change
    end.

Fixpoint replace_doc (d' : document) (docs : list document)
    : list document :=
  match docs with
  | [] => []
  | d :: rest =>
      if has_id (_id d') d then d' :: rest else d :: replace_doc d' rest
  end.

(** The defaults of a schema. *)
Fixpoint defaults (ps : list schemaPath) : gmap string value :=
  match ps with
  | [] => ∅
  | p :: rest =>
      match p_default p with
      | Some v => <[p_name p := v]> (defaults rest)
      | None => defaults rest
      end
  end.

(** The Mongoose document of a stored one, which is what a query hands to
    the handler: a path the stored document lacks holds the default of
    the schema. *)
Definition hydrate (c : collection) (d : document) : document :=
  Document (_id d) (createdAt d) (updatedAt d)
    (paths d ∪ defaults (schema c)).

(** [Model.findByIdAndUpdate(id, update, { new: true })] at time [now]:
    the error, or the updated document ([None] for [null]) with the
    collection after the call. The update is cast before the collection
    is consulted; validators do not run; the identifier of a document
    never changes. *)
Definition findByIdAndUpdate `{Externals} (c : collection) (id : option value)
    (update : gmap string value) (now : Z) (docs : list document)
    : error + (option document * list document) :=
  match castUpdate c update with
  | inl e => inl e
  | inr change =>
      match id with
      | None => inr (None, docs)
      | Some idv =>
          match castObjectId idv with
          | None => inl CastError
          | Some i =>
              match lookup_id i docs with
              | None => inr (None, docs)
              | Some d =>
                  match change now d with
                  | None => inl WriteError
                  | Some r =>
                      let d' := Document (_id d) (createdAt r) (updatedAt r)
                                  (paths r) in
                      if duplicate_key c docs d' then inl DuplicateKey
                      else inr (Some (hydrate c d'), replace_doc d' docs)
                  end
              end
          end
      end
  end.

(** [Model.findByIdAndDelete(id)]. *)
Definition findByIdAndDelete `{Externals} (id : value) (docs : list document)
    : error + (option document * list document) :=
  match castObjectId id with
  | None => inl CastError
  | Some i =>
      inr (lookup_id i docs, List.filter (fun d => negb (has_id i d)) docs)
  end.

(** [new Model(body)]: the paths of the schema, cast from the body or
    filled with their defaults. A value that does not cast makes the
    later [save] reject. *)
Fixpoint construct `{Externals} (c : collection) (ps : list schemaPath)
    (body : gmap string value) : error + gmap string value :=
  match ps with
  | [] => inr ∅
  | p :: rest =>
      match construct c rest body with
      | inl e => inl e
      | inr doc =>
          match body !! p_name p with
          | Some v =>
              match cast c p v with
              | None => inl CastError
              | Some v' => inr (<[p_name p := v']> doc)
              end
          | None =>
              match p_default p with
              | Some v => inr (<[p_name p := v]> doc)
              | None => inr doc
              end
          end
      end
  end.

(** The identifier of [new Model(body)]: the [_id] of the body, cast to an
    ObjectId, or a new one. *)
Definition construct_id `{Externals} (body : gmap string value)
    (docs : list document) : error + string :=
  match body !! "_id" with
  | Some v =>
      match castObjectId v with
      | Some i => inr i
      | None => inl CastError
      end
  | None => inr (newObjectId docs)
  end.

(** The two paths that [timestamps: true] adds to a schema. *)
Definition timestampPath (name : string) : schemaPath := Path name SDate None.

(** The [createdAt] of [new Model(body)]: the date the body gives, if it
    gives one. *)
Definition construct_createdAt `{Externals} (c : collection)
    (body : gmap string value) : error + option Z :=
  match body !! "createdAt" with
  | Some v =>
      match cast c (timestampPath "createdAt") v with
      | Some (VDate t) => inr (Some t)
      | Some _ => inr None
      | None => inl CastError
      end
  | None => inr None
  end.

(** An [updatedAt] of the body has to cast as well; [save] replaces it. *)
Definition construct_updatedAt `{Externals} (c : collection)
    (body : gmap string value) : error + unit :=
  match body !! "updatedAt" with
  | Some v =>
      match cast c (timestampPath "updatedAt") v with
      | Some _ => inr tt
      | None => inl CastError
      end
  | None => inr tt
  end.

(** No key of the body is a dotted path. *)
Definition flat (body : gmap string value) : bool :=
  bool_decide (map_Forall (fun key _ => dotted key = false) body).

(** [new Model(body)] with the timestamps that [save] gives it at time
    [now]: [createdAt] is set unless the document has one, [updatedAt] is
    the [createdAt] of the new document. *)
Definition new_document `{Externals} (c : collection)
    (body : gmap string value) (now : Z) (docs : list document)
    : error + document :=
  if flat body then
    match construct c (schema c) body with
    | inl e => inl e
    | inr fields =>
        match construct_id body docs with
        | inl e => inl e
        | inr i =>
            match construct_createdAt c body with
            | inl e => inl e
            | inr t =>
                match construct_updatedAt c body with
                | inl e => inl e
                | inr _ =>
                    let created := default now t in
                    inr (Document i created created fields)
                end
            end
        end
    end
  else
    match constructDotted c body now docs with
    | Some d => inr d
    | None => inl CastError
    end.

(** [doc.save()] of a new document: the validators run, and MongoDB
    refuses an identifier or a unique key that the collection holds. *)
Definition save `{Externals} (c : collection) (d : document)
    (docs : list document) : error + (document * list document) :=
  if negb (validate c d) then inl ValidationError
  else if existsb (has_id (_id d)) docs then inl DuplicateKey
  else if duplicate_key c docs d then inl DuplicateKey
  else inr (d, (docs ++ [d])%list).


(** *** Requests and responses *)

Inductive method : Type := GET | POST | PUT | DELETE.

#[export] Instance method_eq_dec : EqDecision method.
Proof. solve_decision. Defined.

(** A request after [express.json()]: the path as its segments, the query
    string, the [Authorization] header, the parsed body, and the file part
    of a multipart body. *)
Record request : Type := Request {
  req_method : method;
  req_path : list string;
  req_query : gmap string string;
  authorization : option string;
  req_body : gmap string value;
  req_file : option uploadFile
}.

Inductive resBody : Type :=
| Message (text : string)        (* { message: text } *)
| ErrorMessage (e : error)       (* { message: error.message } *)
| StatusOK                       (* { status: 'OK' } *)
| TokenBody (token : string)     (* { token } *)
| Doc (d : document)
| Docs (ds : list document)
| Uploaded (r : uploadResult)
| CannotRoute.                   (* the answer of Express when no route matches *)

Record response : Type := Response {
  status : Z;
  body : resBody
}.

Definition store : Type := collection -> list document.

Definition set_collection (st : store) (c : collection)
    (docs : list document) : store :=
  fun c' => if decide (c' = c) then docs else st c'.

(** *** authMiddleware *)

(** [s.split(' ')]. *)
Fixpoint split_space (s : string) : list string :=
  match s with
  | EmptyString => [EmptyString]
  | String a r =>
      if Ascii.eqb a " "%char then EmptyString :: split_space r
      else
        match split_space r with
        | w :: ws => String a w :: ws
        | [] => [String a EmptyString]
        end
  end.

(** [req.headers.authorization?.split(' ')[1]]. *)
Definition bearer_token (req : request) : option string :=
  match authorization req with
  | None => None
  | Some h => nth_error (split_space h) 1
  end.

Definition nonempty (s : option string) : bool :=
  match s with
  | Some (String _ _) => true
  | _ => false
  end.

(** [None] stands for the call of [next()]. *)
Definition authMiddleware `{Externals} (now : Z) (req : request)
    : option response :=
  let token := bearer_token req in
  if negb (nonempty token) then Some (Response 401 (Message "No token"))
  else
    match token with
    | Some t =>
        if jwt_verify t now then None
        else Some (Response 401 (Message "Invalid token"))
    | None => Some (Response 401 (Message "No token"))
    end.

(** *** Upload *)

Definition fileSize : Z := 10 * 1024 * 1024.

(** [file.mimetype.startsWith('image/')]. *)
Definition fileFilter (file : uploadFile) : bool :=
  String.prefix "image/" (mimetype file).

(** [upload.single('image')]: the error handed to [next], or [req.file]. *)
Definition upload_single (req : request) : error + option uploadFile :=
  match req_file req with
  | None => inr None
  | Some f =>
      if negb (String.eqb (fieldname f) "image") then inl MulterError
      else if negb (fileFilter f) then inl FileFilterError
      else if (fileSize <? size f)%Z then inl MulterError
      else inr (Some f)
  end.

(** The error-handling middleware registered last. *)
Definition errorHandler (err : error) : response :=
  Response 500 (Message "Error!").

Definition query_or (req : request) (key dflt : string) : string :=
  match req_query req !! key with
  | Some (String a r) => String a r
  | _ => dflt
  end.

Definition upload_handler `{Externals} (req : request) : response :=
  match upload_single req with
  | inl e => errorHandler e
  | inr None => Response 400 (Message "No image file provided")
  | inr (Some f) =>
      let folder := "portfolio/" +:+ query_or req "folder" "general" in
      match upload_stream folder f with
      | Some r => Response 200 (Uploaded r)
      | None => Response 500 (ErrorMessage UpstreamError)
      end
  end.

(** *** Login *)

Definition login_handler `{Externals} (now : Z) (req : request) : response :=
  if negb auth_configured then
    Response 500 (Message "Server auth not configured")
  else
    match bcrypt_compare (req_body req !! "password") with
    | None => Response 500 (Message "Login failed")
    | Some false => Response 401 (Message "Invalid password")
    | Some true => Response 200 (TokenBody (jwt_sign now))
    end.

(** *** Blog routes *)

Definition blog_list (st : store) : response :=
  Response 200
    (Docs (sort [("publishedAt", Desc)]
             (find [("published", VBool true)] (st BlogPost)))).

Definition blog_all (st : store) : response :=
  Response 200 (Docs (sort [("createdAt", Desc)] (find [] (st BlogPost)))).

(** The filter of [GET /api/blog/:slug] is cast as a document is: the
    setter of the path ([lowercase: true]) is applied to the slug of the
    request. A filter that does not cast makes the query reject. *)
Definition slugPath : schemaPath := Path "slug" SString None.

Definition blog_by_slug `{Externals} (slug : string) (st : store)
    : response :=
  match cast BlogPost slugPath (VStr slug) with
  | None => Response 500 (ErrorMessage CastError)
  | Some s =>
      match findOne [("slug", s); ("published", VBool true)]
              (st BlogPost) with
      | None => Response 404 (Message "Not found")
      | Some post => Response 200 (Doc (hydrate BlogPost post))
      end
  end.

(** [if (post.published && !post.publishedAt) post.publishedAt = new Date()] *)
Definition stamp_new_post (now : Z) (post : gmap string value)
    : gmap string value :=
  if truthy (post !! "published") && negb (truthy (post !! "publishedAt"))
  then <["publishedAt" := VDate now]> post
  else post.

Definition stamp_new_document (now : Z) (post : document) : document :=
  Document (_id post) (createdAt post) (updatedAt post)
    (stamp_new_post now (paths post)).

Definition blog_create `{Externals} (now : Z) (req : request) (st : store)
    : response * store :=
  match new_document BlogPost (req_body req) now (st BlogPost) with
  | inl e => (Response 400 (ErrorMessage e), st)
  | inr post =>
      match save BlogPost (stamp_new_document now post) (st BlogPost) with
      | inl e => (Response 400 (ErrorMessage e), st)
      | inr (saved, docs) =>
          (Response 201 (Doc saved), set_collection st BlogPost docs)
      end
  end.

(** The body handed to [findByIdAndUpdate] by [PUT /api/blog/:id], or the
    [TypeError] of reading [was.published] when [was] is [null]. *)
Definition stamp_update (now : Z) (was : option document)
    (body : gmap string value) : error + gmap string value :=
  if truthy (body !! "published") then
    match was with
    | None => inl TypeError
    | Some w =>
        if negb (truthy (field w "published"))
           && negb (truthy (body !! "publishedAt"))
        then inr (<["publishedAt" := VDate now]> body)
        else inr body
    end
  else inr body.

Definition blog_update `{Externals} (now : Z) (id : string) (req : request)
    (st : store) : response * store :=
  match findById (VStr id) (st BlogPost) with
  | inl e => (Response 400 (ErrorMessage e), st)
  | inr was =>
      match stamp_update now was (req_body req) with
      | inl e => (Response 400 (ErrorMessage e), st)
      | inr body' =>
          match findByIdAndUpdate BlogPost (Some (VStr id)) body' now
                  (st BlogPost) with
          | inl e => (Response 400 (ErrorMessage e), st)
          | inr (None, _) => (Response 404 (Message "Not found"), st)
          | inr (Some post, docs) =>
              (Response 200 (Doc post), set_collection st BlogPost docs)
          end
      end
  end.

(** *** The routes every collection has *)

Definition delete_handler `{Externals} (c : collection) (id : string)
    (st : store) : response * store :=
  match findByIdAndDelete (VStr id) (st c) with
  | inl e => (Response 500 (ErrorMessage e), st)
  | inr (None, _) => (Response 404 (Message "Not found"), st)
  | inr (Some _, docs) =>
      (Response 200 (Message "Deleted"), set_collection st c docs)
  end.

(** [item.id] and [item.order]. *)
Fixpoint member (key : string) (ms : list (string * value)) : option value :=
  match ms with
  | [] => None
  | (k, v) :: rest => if String.eqb k key then Some v else member key rest
  end.

Definition property (item : value) (key : string) : option value :=
  match item with
  | VObj ms => member key ms
  | _ => None
  end.

Definition is_null (v : value) : bool :=
  match v with
  | VNull => true
  | _ => false
  end.

(** [{ order: item.order }]; a key whose value is [undefined] is not part
    of the update. *)
Definition order_update (item : value) : gmap string value :=
  match property item "order" with
  | Some v => {[ "order" := v ]}
  | None => ∅
  end.

(** The updates of one batch, each on the collection the previous ones
    left: the first rejection, if any, and the collection in the end. *)
Fixpoint reorder_all `{Externals} (c : collection) (now : Z)
    (items : list value) (docs : list document)
    : option error * list document :=
  match items with
  | [] => (None, docs)
  | item :: rest =>
      match findByIdAndUpdate c (property item "id") (order_update item)
              now docs with
      | inl e =>
          let '(_, docs') := reorder_all c now rest docs in
          (Some e, docs')
      | inr (_, docs1) => reorder_all c now rest docs1
      end
  end.

Definition reorder_handler `{Externals} (c : collection) (now : Z)
    (req : request) (st : store) : response * store :=
  match req_body req !! "items" with
  | Some (VArr items) =>
      if existsb is_null items then (Response 400 (ErrorMessage TypeError), st)
      else
        match reorder_all c now items (st c) with
        | (Some e, docs) =>
            (Response 400 (ErrorMessage e), set_collection st c docs)
        | (None, docs) =>
            (Response 200 (Message "Updated"), set_collection st c docs)
        end
  | _ => (Response 400 (ErrorMessage TypeError), st)
  end.

(** An item names the identifier its [id] casts to. *)
Definition named `{Externals} (item : value) (i : string) : Prop :=
  property item "id" ≫= castObjectId = Some i.

(** What one update of a reorder may do to a stored document: nothing, or
    set [order] and move [updatedAt] to [now] when the batch names it. *)
Definition reordered (now : Z) (ids : list string) (d d' : document) : Prop :=
  _id d' = _id d /\ createdAt d' = createdAt d
  /\ (forall key, key <> "order" -> paths d' !! key = paths d !! key)
  /\ (d' = d \/ (updatedAt d' = now /\ In (_id d) ids)).

(** The argument of [.sort] in [GET /api/<collection>]. *)
Definition sort_spec (c : collection) : list (string * direction) :=
  match c with
  | Experience => [("order", Asc); ("startDate", Desc)]
  | Project => [("order", Asc); ("createdAt", Desc)]
  | _ => [("order", Asc)]
  end.

(** The argument of [.find]: [req.query.type ? { type: req.query.type } : {}]
    for Experience, nothing for the others. *)
Definition list_filter (c : collection) (req : request)
    : list (string * value) :=
  match c with
  | Experience =>
      match req_query req !! "type" with
      | Some (String a r) => [("type", VStr (String a r))]
      | _ => []
      end
  | _ => []
  end.

Definition list_handler (c : collection) (req : request) (st : store)
    : response :=
  Response 200 (Docs (sort (sort_spec c) (find (list_filter c req) (st c)))).

Definition create_handler `{Externals} (c : collection) (now : Z)
    (req : request) (st : store) : response * store :=
  match new_document c (req_body req) now (st c) with
  | inl e => (Response 400 (ErrorMessage e), st)
  | inr d =>
      match save c d (st c) with
      | inl e => (Response 400 (ErrorMessage e), st)
      | inr (saved, docs) =>
          (Response 201 (Doc saved), set_collection st c docs)
      end
  end.

Definition update_handler `{Externals} (c : collection) (now : Z)
    (id : string) (req : request) (st : store) : response * store :=
  match findByIdAndUpdate c (Some (VStr id)) (req_body req) now (st c) with
  | inl e => (Response 400 (ErrorMessage e), st)
  | inr (None, _) => (Response 404 (Message "Not found"), st)
  | inr (Some d, docs) => (Response 200 (Doc d), set_collection st c docs)
  end.

(** *** The route table *)

Inductive pathSegment : Type :=
| Fixed (s : string)
| Param.

Inductive handler : Type :=
| Login | Health | Upload
| BlogList | BlogAll | BlogBySlug | BlogCreate | BlogUpdate | BlogDelete
| Reorder (c : collection) | List (c : collection) | Create (c : collection)
| Update (c : collection) | Delete (c : collection).

Record route : Type := Route {
  r_method : method;
  r_path : list pathSegment;
  r_auth : bool;                  (* [authMiddleware] stands before the handler *)
  r_handler : handler
}.

(** The five routes of a collection, reorder first. *)
Definition crud (name : string) (c : collection) : list route :=
  [ Route PUT [Fixed "api"; Fixed name; Fixed "reorder"] true (Reorder c);
    Route GET [Fixed "api"; Fixed name] false (List c);
    Route POST [Fixed "api"; Fixed name] true (Create c);
    Route PUT [Fixed "api"; Fixed name; Param] true (Update c);
    Route DELETE [Fixed "api"; Fixed name; Param] true (Delete c) ].

(** The routes in the order the server registers them. *)
Definition routes : list route :=
  ([ Route POST [Fixed "api"; Fixed "admin"; Fixed "login"] false Login;
     Route GET [Fixed "api"; Fixed "health"] false Health;
     Route POST [Fixed "api"; Fixed "upload"] true Upload;
     Route GET [Fixed "api"; Fixed "blog"] false BlogList;
     Route GET [Fixed "api"; Fixed "blog"; Fixed "all"] true BlogAll;
     Route GET [Fixed "api"; Fixed "blog"; Param] false BlogBySlug;
     Route POST [Fixed "api"; Fixed "blog"] true BlogCreate;
     Route PUT [Fixed "api"; Fixed "blog"; Param] true BlogUpdate;
     Route DELETE [Fixed "api"; Fixed "blog"; Param] true BlogDelete ]
   ++ crud "photography" Photography
   ++ crud "videos" Video
   ++ crud "experience" Experience
   ++ crud "projects" Project
   ++ crud "skills" Skill
   ++ crud "courses" Course
   ++ crud "creatives" Creative)%list.

Definition lower_ascii (a : ascii) : ascii :=
  let n := nat_of_ascii a in
  if (Nat.leb 65 n && Nat.leb n 90)%bool then ascii_of_nat (n + 32) else a.

Fixpoint lower (s : string) : string :=
  match s with
  | EmptyString => EmptyString
  | String a r => String (lower_ascii a) (lower r)
  end.

(** Express matches a literal segment without regard to case and lets a
    parameter stand for one non-empty segment; with strict routing off,
    as it is here, one slash may follow the last segment, which leaves an
    empty segment at the end of the path. The result is the value of the
    parameter of the route, if it has one. *)
Fixpoint match_path (pattern : list pathSegment) (path : list string)
    : option (option string) :=
  match pattern, path with
  | [], [] => Some None
  | [], [EmptyString] => Some None
  | Fixed s :: pattern', x :: path' =>
      if String.eqb (lower s) (lower x) then match_path pattern' path'
      else None
  | Param :: pattern', String a r :: path' =>
      match match_path pattern' path' with
      | Some _ => Some (Some (String a r))
      | None => None
      end
  | _, _ => None
  end.

Definition matching (req : request) (r : route) : option (route * option string) :=
  if decide (r_method r = req_method req) then
    match match_path (r_path r) (req_path req) with
    | Some param => Some (r, param)
    | None => None
    end
  else None.

(** The first route that matches the request. *)
Fixpoint lookup_route (rs : list route) (req : request)
    : option (route * option string) :=
  match rs with
  | [] => None
  | r :: rest =>
      match matching req r with
      | Some x => Some x
      | None => lookup_route rest req
      end
  end.

Definition param_or_empty (p : option string) : string :=
  match p with
  | Some s => s
  | None => EmptyString
  end.

Definition run `{Externals} (h : handler) (param : option string) (now : Z)
    (req : request) (st : store) : response * store :=
  let id := param_or_empty param in
  match h with
  | Login => (login_handler now req, st)
  | Health => (Response 200 StatusOK, st)
  | Upload => (upload_handler req, st)
  | BlogList => (blog_list st, st)
  | BlogAll => (blog_all st, st)
  | BlogBySlug => (blog_by_slug id st, st)
  | BlogCreate => blog_create now req st
  | BlogUpdate => blog_update now id req st
  | BlogDelete => delete_handler BlogPost id st
  | Reorder c => reorder_handler c now req st
  | List c => (list_handler c req st, st)
  | Create c => create_handler c now req st
  | Update c => update_handler c now id req st
  | Delete c => delete_handler c id st
  end.

(** The server: one request at time [now] against a store. The rate
    limiters, CORS and helmet stand before the routes and are left out;
    so are failures of the database connection, which the handlers answer
    with 500. *)
Definition app `{Externals} (now : Z) (req : request) (st : store)
    : response * store :=
  match lookup_route routes req with
  | None => (Response 404 CannotRoute, st)
  | Some (r, param) =>
      match (if r_auth r then authMiddleware now req else None) with
      | Some rejected => (rejected, st)
      | None => run (r_handler r) param now req st
      end
  end.

(** *** An instance of the parameters, for the examples

    The instance follows Mongoose on the values the examples use. An
    ObjectId is a string of 24 hexadecimal digits. Casting accepts a value
    of the type of the path, a number for a date and [null]; the setters
    of models.js trim and lower-case. Validation checks [required], [enum]
    and [maxLength] as models.js declares them. The update operators
    are [$set] and [$unset], and no body has a dotted key; the only valid
    token is ["good"]. *)
Definition hex_digit (a : ascii) : bool :=
  let n := nat_of_ascii a in
  (Nat.leb 48 n && Nat.leb n 57) || (Nat.leb 65 n && Nat.leb n 70)
  || (Nat.leb 97 n && Nat.leb n 102).

Definition sample_castObjectId (v : value) : option string :=
  match v with
  | VStr s =>
      if Nat.eqb (String.length s) 24
         && forallb hex_digit (list_ascii_of_string s)
      then Some (lower s)
      else None
  | _ => None
  end.

Definition blank (a : ascii) : bool :=
  let n := nat_of_ascii a in
  Nat.eqb n 32 || (Nat.leb 9 n && Nat.leb n 13).

Fixpoint trim_start (s : string) : string :=
  match s with
  | EmptyString => EmptyString
  | String a r => if blank a then trim_start r else s
  end.

Definition reverse_string (s : string) : string :=
  string_of_list_ascii (List.rev (list_ascii_of_string s)).

Definition trim_ends (s : string) : string :=
  reverse_string (trim_start (reverse_string (trim_start s))).

(** [trim: true] and [lowercase: true] in models.js. *)
Definition trims (c : collection) (key : string) : bool :=
  match c with
  | BlogPost | Photography | Video | Creative =>
      String.eqb key "title" || String.eqb key "tags"
  | Skill => String.eqb key "category"
  | Course => String.eqb key "name"
  | _ => false
  end.

Definition lowercases (c : collection) (key : string) : bool :=
  match c with
  | BlogPost => String.eqb key "slug"
  | _ => false
  end.

Definition sample_setters (c : collection) (key s : string) : string :=
  let s1 := if trims c key then trim_ends s else s in
  if lowercases c key then lower s1 else s1.

Definition sample_cast (c : collection) (p : schemaPath) (v : value)
    : option value :=
  match p_type p, v with
  | SString, VStr s => Some (VStr (sample_setters c (p_name p) s))
  | SNumber, VNum _ | SBoolean, VBool _ | SDate, VDate _ => Some v
  | SDate, VNum n => Some (VDate n)
  | SArray, VArr elems =>
      Some (VArr (map (fun e =>
                         match e with
                         | VStr s => VStr (sample_setters c (p_name p) s)
                         | _ => e
                         end) elems))
  | (SString | SNumber | SBoolean | SDate), VNull => Some VNull
  | _, _ => None
  end.

(** [required: true] in models.js. *)
Definition required (c : collection) : list string :=
  match c with
  | BlogPost => ["title"; "slug"; "content"; "excerpt"]
  | Photography => ["title"; "imageUrl"]
  | Video => ["title"; "youtubeId"]
  | Experience => ["title"; "company"; "startDate"; "type"]
  | Project => ["name"; "description"]
  | Skill => ["category"]
  | Course => ["name"]
  | Creative => ["title"]
  end.

Definition filled (v : option value) : bool :=
  match v with
  | None | Some VNull | Some (VStr EmptyString) => false
  | Some _ => true
  end.

(** [enum] in models.js. *)
Definition enum (c : collection) : list (string * list string) :=
  match c with
  | Photography =>
      [("category", ["portrait"; "landscape"; "street"; "event"; "other"])]
  | Experience => [("type", ["work"; "education"; "volunteer"])]
  | _ => []
  end.

Definition allowed (values : list string) (v : option value) : bool :=
  match v with
  | None => true
  | Some (VStr s) => existsb (String.eqb s) values
  | Some _ => false
  end.

(** [maxLength] in models.js. *)
Definition short_enough (c : collection) (d : document) : bool :=
  match c, paths d !! "excerpt" with
  | BlogPost, Some (VStr s) => Nat.leb (String.length s) 200
  | _, _ => true
  end.

(** The entries of [skills] have a required [name]. *)
Definition entries_named (c : collection) (d : document) : bool :=
  match c, paths d !! "skills" with
  | Skill, Some (VArr elems) =>
      forallb (fun e => filled (property e "name")) elems
  | _, _ => true
  end.

Definition sample_validate (c : collection) (d : document) : bool :=
  forallb (fun key => filled (paths d !! key)) (required c)
  && forallb (fun '(key, values) => allowed values (paths d !! key)) (enum c)
  && short_enough c d && entries_named c d.

Definition hex_of (n : nat) : ascii :=
  nth (n mod 16) (list_ascii_of_string "0123456789abcdef") "0"%char.

(** An identifier that tells the documents created one after another
    apart. *)
Definition sample_newObjectId (docs : list document) : string :=
  let n := length docs in
  "65f0000000000000000000"
  +:+ String (hex_of (n / 16)) (String (hex_of n) EmptyString).

(** The instance without update operators, which casts the fields under
    the operators of the instance below. *)
Definition sample_fields : Externals := {|
  cast := sample_cast;
  castObjectId := sample_castObjectId;
  castOperators := fun _ _ => None;
  constructDotted := fun _ _ _ _ => None;
  validate := sample_validate;
  newObjectId := sample_newObjectId;
  jwt_verify := fun t _ => String.eqb t "good";
  jwt_sign := fun _ => "good";
  bcrypt_compare := fun v =>
    match v with
    | Some (VStr p) => Some (String.eqb p "secret")
    | _ => None
    end;
  auth_configured := true;
  upload_stream := fun folder f => Some (UploadResult folder "pid" 1 1)
|}.

(** The fields under an operator, if the operator is there. *)
Definition operator_fields (v : option value) : option (gmap string value) :=
  match v with
  | None => Some ∅
  | Some (VObj members) =>
      let fields : gmap string value := list_to_map members in
      if fields_only fields then Some fields else None
  | Some _ => None
  end.

Definition known_key (key : string) : bool :=
  field_key key || String.eqb key "_id" || String.eqb key "__v"
  || String.eqb key "$set" || String.eqb key "$unset".

(** Fields at the top of an update object join those under [$set]; the
    paths under [$unset] are removed, and MongoDB refuses to set and
    unset one path; an [_id] has to be the one of the document. *)
Definition sample_castOperators (c : collection) (update : gmap string value)
    : option (Z -> document -> option document) :=
  if negb (bool_decide (map_Forall (fun key _ => known_key key = true) update))
  then None
  else
    match operator_fields (update !! "$set"),
          operator_fields (update !! "$unset"),
          match update !! "_id" with
          | Some v => option_map Some (sample_castObjectId v)
          | None => Some None
          end with
    | Some under_set, Some under_unset, Some id =>
        let top : gmap string value :=
          filter (fun kv => field_key kv.1 = true) update in
        match @castFields sample_fields c (top ∪ under_set) with
        | inl _ => None
        | inr set =>
            Some (fun now d =>
              if bool_decide (map_Forall (fun key _ => under_unset !! key = None)
                                set)
                 && match id with
                    | Some i => String.eqb i (_id d)
                    | None => true
                    end
              then
                Some (Document (_id d) (createdAt d) now
                        (set ∪ filter (fun kv => under_unset !! kv.1 = None)
                                 (paths d)))
              else None)
        end
    | _, _, _ => None
    end.

Definition sample : Externals := {|
  cast := sample_cast;
  castObjectId := sample_castObjectId;
  castOperators := sample_castOperators;
  constructDotted := fun _ _ _ _ => None;
  validate := sample_validate;
  newObjectId := sample_newObjectId;
  jwt_verify := fun t _ => String.eqb t "good";
  jwt_sign := fun _ => "good";
  bcrypt_compare := fun v =>
    match v with
    | Some (VStr p) => Some (String.eqb p "secret")
    | _ => None
    end;
  auth_configured := true;
  upload_stream := fun folder f => Some (UploadResult folder "pid" 1 1)
|}.

Definition empty_store : store := fun _ => [].



(** A stored photograph with every path of its schema. *)
Definition sample_photo (id : string) (order : Z) : document :=
  Document id 1 1
    (list_to_map
       [ ("title", VStr "Dawn"); ("description", VStr EmptyString);
         ("imageUrl", VStr "https://img.example/dawn.jpg");
         ("category", VStr "other"); ("tags", VArr []);
         ("featured", VBool false); ("order", VNum order) ]).

(** A stored group of skills and a stored course, with every path of
    their schemas. *)
Definition sample_skill (id category : string) : document :=
  Document id 1 1
    (list_to_map
       [ ("category", VStr category); ("skills", VArr []);
         ("featured", VBool true); ("order", VNum 0) ]).


Definition sample_course (id name : string) : document :=
  Document id 1 1
    (list_to_map
       [ ("name", VStr name); ("description", VStr EmptyString);
         ("featured", VBool true); ("order", VNum 0) ]).


End Server.

(* ================================================================= *)
(** ** More of the JavaScript string methods the client calls *)

Module JSText.
Import JS.

(** [s.startsWith(p)]. *)
Fixpoint startsWith (p s : jsstring) : bool :=
  match p, s with
  | [], _ => true
  | a :: p', b :: s' => (a =? b) && startsWith p' s'
  | _ :: _, [] => false
  end.

(** [s.includes(p)] on strings: [p] occurs somewhere in [s]. *)
Fixpoint occurs (p s : jsstring) : bool :=
  startsWith p s ||
  match s with
  | [] => false
  | _ :: r => occurs p r
  end.

(** Truthiness of a string. *)
Definition nonEmpty (s : jsstring) : bool :=
  match s with
  | [] => false
  | _ :: _ => true
  end.

(** What the three replacements of the fallback of the [code] renderer
    make of one code unit of the source. *)
Definition entity (c : Z) : jsstring :=
  if c =? 38 then u "&amp;"
  else if c =? 60 then u "&lt;"
  else if c =? 62 then u "&gt;"
  else [c].

End JSText.

(* ================================================================= *)
(** ** The admin page of the client: the header of its requests *)

Module AdminAuth.
Import Server.
Local Open Scope string_scope.

(** [`Bearer ${localStorage.getItem('adminToken')}`]: a missing item is
    [null], which the template prints as [null]. *)
Definition getAuthHeaders (adminToken : option string) : string :=
  "Bearer " +:+ match adminToken with Some t => t | None => "null" end.

(** A word: a string that [split(' ')] leaves whole. *)
Fixpoint spaceless (s : string) : bool :=
  match s with
  | EmptyString => true
  | String a r => negb (Ascii.eqb a " ") && spaceless r
  end.

End AdminAuth.

(* ================================================================= *)
(** ** The admin page of the client: the forms *)

Module AdminForms.
Import JS JSText.

(** [const DELIMITER = '|'] *)
Definition DELIMITER : Z := 124.

(** [s.split(d)] for a one-character separator. *)
Fixpoint split (d : Z) (s : jsstring) : list jsstring :=
  match s with
  | [] => [[]]
  | c :: r =>
      if c =? d then [] :: split d r
      else
        match split d r with
        | w :: ws => (c :: w) :: ws
        | [] => [[c]]
        end
  end.

(** [a.join(sep)]. *)
Fixpoint join (sep : jsstring) (a : list jsstring) : jsstring :=
  match a with
  | [] => []
  | w :: rest =>
      match rest with
      | [] => w
      | _ :: _ => w ++ sep ++ join sep rest
      end
  end.

(** The value of one of the fields [technologies], [achievements],
    [highlights] and [tags] in the form data: the text of the input, the
    array of a stored item, or nothing. *)
Inductive arrayField : Type :=
| Typed (text : jsstring)
| Stored (items : list jsstring)
| Unset.

(** [handleSubmit] on such a field:
    [if (typeof v === 'string') v = v.split(DELIMITER).map(item => item.trim()).filter(Boolean)]. *)
Definition handleSubmit_field (v : arrayField) : arrayField :=
  match v with
  | Typed text =>
      Stored (List.filter nonEmpty (map trim (split DELIMITER text)))
  | _ => v
  end.

(** [handleEdit] on such a field:
    [if (Array.isArray(v)) v = v.join(' | ')]. *)
Definition handleEdit_field (v : arrayField) : arrayField :=
  match v with
  | Stored items => Typed (join (u " | ") items)
  | _ => v
  end.

(** One entry of the [skills] array of a skill group. *)
Record skillEntry : Type := SkillEntry {
  skill_name : jsstring;
  skill_featured : bool
}.

Inductive skillsField : Type :=
| TypedSkills (text : jsstring)
| StoredSkills (skills : list skillEntry)
| UnsetSkills.

(** [handleSubmit] on the [skills] field of the skills form:
    [.split(DELIMITER).map(skill => ({ name: skill.trim(), featured: true })).filter(skill => skill.name)]. *)
Definition handleSubmit_skills (v : skillsField) : skillsField :=
  match v with
  | TypedSkills text =>
      StoredSkills
        (List.filter (fun skill => nonEmpty (skill_name skill))
           (map (fun skill => SkillEntry (trim skill) true)
              (split DELIMITER text)))
  | _ => v
  end.

(** [handleEdit] on it: [skills.map(s => s.name).join(' | ')]. *)
Definition handleEdit_skills (v : skillsField) : skillsField :=
  match v with
  | StoredSkills skills => TypedSkills (join (u " | ") (map skill_name skills))
  | _ => v
  end.

(** An entry that needs no cleaning: not empty, without white space at
    either end, without the delimiter. *)
Definition clean (item : jsstring) : bool :=
  nonEmpty item && JS.eqb (trim item) item
  && forallb (fun c => negb (c =? DELIMITER)) item.

End AdminForms.

(* ================================================================= *)
(** ** The admin page of the client: reordering *)

Module AdminReorder.
Import Server AdminAuth.
Local Open Scope string_scope.
Local Open Scope Z_scope.

(** The values the tab states take: they are set from the literals of
    the tab buttons only. *)
Inductive tab : Type := home | blog | creatives.
Inductive homeTab : Type := experience | projects | courses | skills.
Inductive creativesTab : Type := photo | video | others.

(** The endpoint [fetchHomeItems] reads the list from. *)
Definition fetchHomeItems_endpoint (homeSubTab : homeTab) : string :=
  match homeSubTab with
  | projects => "projects"
  | skills => "skills"
  | courses => "courses"
  | experience => "experience"
  end.

(** The endpoint [fetchCreativesItems] reads the list from. *)
Definition fetchCreativesItems_endpoint (creativesSubTab : creativesTab)
    : string :=
  match creativesSubTab with
  | video => "videos"
  | others => "creatives"
  | photo => "photography"
  end.

Definition getCreativesEndpoint (creativesSubTab : creativesTab) : string :=
  match creativesSubTab with
  | photo => "photography"
  | video => "videos"
  | others => "creatives"
  end.

(** The endpoint [handleReorder] writes to. *)
Definition reorderEndpoint (activeTab : tab) (homeSubTab : homeTab)
    (creativesSubTab : creativesTab) : string :=
  match activeTab with
  | home =>
      match homeSubTab with
      | projects => "projects"
      | skills => "skills"
      | courses => "courses"
      | experience => "experience"
      end
  | creatives => getCreativesEndpoint creativesSubTab
  | blog => "experience"
  end.

Inductive arrow : Type := up | down.

(** [items.findIndex(item => item._id === itemId)]. *)
Fixpoint findIndex (itemId : string) (items : list document) : Z :=
  match items with
  | [] => -1
  | item :: rest =>
      if has_id itemId item then 0
      else
        let i := findIndex itemId rest in
        if i <? 0 then -1 else i + 1
  end.

(** [a[i]], [None] for [undefined]. *)
Definition at_index (a : list document) (i : Z) : option document :=
  if i <? 0 then None else a !! Z.to_nat i.

(** [allItemsCopy.map((item, index) => ({ id: item._id, order: index }))] *)
Definition updates_of (allItemsCopy : list document) : list value :=
  imap (fun index item =>
          VObj [("id", VStr (_id item)); ("order", VNum (Z.of_nat index))])
       allItemsCopy.

(** The same for a part of the list whose first item has the index [n]. *)
Definition updates_from (n : nat) (part : list document) : list value :=
  imap (fun index item =>
          VObj [("id", VStr (_id item));
                ("order", VNum (Z.of_nat (n + index)))])
       part.

(** What a call of [handleReorder] does: it returns before any request,
    it throws while building the updates, or it sends the updates; in
    the last case [allItemsCopy] becomes the list of the page once the
    server has answered. *)
Inductive reorderOutcome : Type :=
| NoRequest
| Throws
| Sent (allItemsCopy : list document) (updates : list value).

Definition handleReorder (items filteredItems : list document)
    (itemId : string) (direction : arrow) : reorderOutcome :=
  let currentIndex := findIndex itemId filteredItems in
  if currentIndex =? -1 then NoRequest
  else
    let itemIndexInAll := findIndex itemId items in
    let swapIndex :=
      match direction with
      | up => itemIndexInAll - 1
      | down => itemIndexInAll + 1
      end in
    if (swapIndex <? 0) || (Z.of_nat (length items) <=? swapIndex)
    then NoRequest
    else
      match at_index items itemIndexInAll, at_index items swapIndex with
      | Some item, Some neighbour =>
          let allItemsCopy :=
            <[Z.to_nat swapIndex := item]>
              (<[Z.to_nat itemIndexInAll := neighbour]> items) in
          Sent allItemsCopy (updates_of allItemsCopy)
      | _, _ => Throws
      end.

(** [axios.put(`${API_URL}/api/${endpoint}/reorder`, { items: updates }, getAuthHeaders())] *)
Definition reorderRequest (endpoint : string) (adminToken : option string)
    (updates : list value) : request :=
  Request PUT ["api"; endpoint; "reorder"] ∅
    (Some (getAuthHeaders adminToken)) {[ "items" := VArr updates ]} None.

End AdminReorder.

(* ================================================================= *)
(** ** The public pages of the client: galleries, blog list, home

    [String.prototype.toLowerCase] on text of any script is taken as a
    parameter, [lowerCase]. *)

Module PublicPages.
Import JS JSText.

(** [[...new Set(a)]]: the elements in the order of their first
    occurrence. *)
Fixpoint unique (a : list jsstring) : list jsstring :=
  match a with
  | [] => []
  | x :: r => x :: List.filter (fun y => negb (JS.eqb x y)) (unique r)
  end.

(** *** Creatives.js: one gallery. The photographs, the videos and the
    other works have the same code over their own state. *)

(** An item of a gallery as the API returns it for the schemas of
    [models.js]. *)
Record item : Type := Item {
  title : jsstring;
  description : jsstring;
  category : jsstring;
  tags : list jsstring;
  featured : bool
}.

(** [setPhotos(photoRes.data.filter(p => p.featured))] *)
Definition fetchAllData (data : list item) : list item :=
  List.filter featured data.

Definition matchesSearch (lowerCase : jsstring -> jsstring)
    (searchTerm : jsstring) (it : item) : bool :=
  if negb (nonEmpty searchTerm) then true
  else
    let term := lowerCase searchTerm in
    occurs term (lowerCase (title it))
    || occurs term (lowerCase (description it))
    || occurs term (lowerCase (category it))
    || existsb (fun t => occurs term (lowerCase t)) (tags it).

Definition photoCategories (photos : list item) : list jsstring :=
  unique (List.filter nonEmpty (map category photos)).

Definition photoTags (photoCategoryFilter : jsstring) (photos : list item)
    : list jsstring :=
  let scoped :=
    if negb (JS.eqb photoCategoryFilter (u "all"))
    then List.filter (fun p => JS.eqb (category p) photoCategoryFilter) photos
    else photos in
  List.filter nonEmpty (unique (flat_map tags scoped)).

Definition filteredPhotos (lowerCase : jsstring -> jsstring)
    (searchTerm photoCategoryFilter photoTagFilter : jsstring)
    (photos : list item) : list item :=
  List.filter
    (fun p => JS.eqb photoTagFilter (u "all")
              || includes (tags p) photoTagFilter)
    (List.filter
       (fun p => JS.eqb photoCategoryFilter (u "all")
                 || JS.eqb (category p) photoCategoryFilter)
       (List.filter (matchesSearch lowerCase searchTerm) photos)).

(** *** The blog list page *)

Record post : Type := Post {
  post_title : jsstring;
  post_excerpt : jsstring;
  post_tags : list jsstring
}.

(** [[...new Set(response.data.flatMap(post => post.tags || []))]] *)
Definition allTags (posts : list post) : list jsstring :=
  unique (flat_map post_tags posts).

Definition filteredPosts (lowerCase : jsstring -> jsstring)
    (searchTerm selectedTag : jsstring) (posts : list post) : list post :=
  List.filter
    (fun p =>
       let matchesSearch :=
         occurs (lowerCase searchTerm) (lowerCase (post_title p))
         || occurs (lowerCase searchTerm) (lowerCase (post_excerpt p)) in
       let matchesTag :=
         negb (nonEmpty selectedTag) || includes (post_tags p) selectedTag in
       matchesSearch && matchesTag)
    posts.

(** *** The home page *)

(** [/[.\s]/]. *)
Definition isDotOrSpace (c : Z) : bool := (c =? 46) || isWhiteSpace c.

(** [tech.toLowerCase().replace(/[.\s]/g, '')]. *)
Definition iconName (lowerCase : jsstring -> jsstring) (tech : jsstring)
    : jsstring :=
  List.filter (fun c => negb (isDotOrSpace c)) (lowerCase tech).

Definition getTechIcon (lowerCase : jsstring -> jsstring) (tech : jsstring)
    : jsstring :=
  if JS.eqb tech (u "C#") then u "/assets/icons/csharp.svg"
  else u "/assets/icons/" ++ iconName lowerCase tech ++ u ".svg".

(** An experience as the API returns it, by the two fields the home page
    reads to sort it into its sections. *)
Record experienceEntry : Type := ExperienceEntry {
  exp_type : jsstring;
  exp_featured : bool
}.

(** [allExperiences.filter(exp => exp.type === kind && exp.featured)],
    with [kind] one of ['work'], ['education'] and ['volunteer']. *)
Definition homeSection (kind : jsstring) (allExperiences : list experienceEntry)
    : list experienceEntry :=
  List.filter (fun exp => JS.eqb (exp_type exp) kind && exp_featured exp)
    allExperiences.

Definition experiences := homeSection (u "work").
Definition education := homeSection (u "education").
Definition volunteer := homeSection (u "volunteer").

End PublicPages.

(* ================================================================= *)
(** * Properties *)

(** ** The matcher against the declarative reading *)

Section RegexFacts.
Import JS Regex.

Lemma star_greedy_sound {R : Type} (p : Z -> bool) (k : jsstring -> jsstring -> option R) :
  forall aft bef res,
    star_greedy p bef aft k = Some res ->
    exists w a, aft = w ++ a /\ Forall (fun c => p c = true) w
                /\ k (rev w ++ bef) a = Some res.
Proof.
  induction aft as [|c t IH]; intros bef res H; simpl in H.
  - exists [], []. auto.
  - destruct (p c) eqn:Hp.
    + destruct (star_greedy p (c :: bef) t k) eqn:Hrec.
      * inversion H; subst. destruct (IH _ _ Hrec) as (w & a & -> & Hw & Hk).
        exists (c :: w), a. split; [reflexivity|]. split; [constructor; auto|].
        simpl. rewrite <- app_assoc. exact Hk.
      * exists [], (c :: t). auto.
    + exists [], (c :: t). auto.
Qed.

Lemma star_lazy_sound {R : Type} (p : Z -> bool) (k : jsstring -> jsstring -> option R) :
  forall aft bef res,
    star_lazy p bef aft k = Some res ->
    exists w a, aft = w ++ a /\ Forall (fun c => p c = true) w
                /\ k (rev w ++ bef) a = Some res.
Proof.
  induction aft as [|c t IH]; intros bef res H; simpl in H.
  - destruct (k bef []) eqn:Hk; [|discriminate].
    exists [], []. inversion H; subst. auto.
  - destruct (k bef (c :: t)) eqn:Hk.
    + inversion H; subst. exists [], (c :: t). auto.
    + destruct (p c) eqn:Hp; [|discriminate].
      destruct (IH _ _ H) as (w & a & -> & Hw & Hk').
      exists (c :: w), a. split; [reflexivity|]. split; [constructor; auto|].
      simpl. rewrite <- app_assoc. exact Hk'.
Qed.

(** Whatever the matcher returns went through a position the pattern
    reaches. *)
Lemma m_sound {R : Type} (r : regex) :
  forall st (k : mstate -> option R) res,
    m r st k = Some res ->
    exists st', Matches r st st' /\ k st' = Some res.
Proof.
  induction r as [|p|r1 IH1 r2 IH2|r1 IH1 r2 IH2|g p|n r IH| |];
    intros st k res H; simpl in H.
  - exists st. split; [constructor | exact H].
  - destruct st as [b a cs]. simpl in H. destruct a as [|c t]; [discriminate|].
    destruct (p c) eqn:Hp; [|discriminate].
    eexists. split; [constructor; exact Hp | exact H].
  - destruct (IH1 _ _ _ H) as (st1 & M1 & H1).
    destruct (IH2 _ _ _ H1) as (st2 & M2 & H2).
    exists st2. split; [econstructor; eauto | exact H2].
  - destruct (m r1 st k) eqn:H1.
    + inversion H; subst. destruct (IH1 _ _ _ H1) as (st' & M1 & Hk).
      exists st'. split; [apply M_AltL; exact M1 | exact Hk].
    + destruct (IH2 _ _ _ H) as (st' & M2 & Hk).
      exists st'. split; [apply M_AltR; exact M2 | exact Hk].
  - destruct st as [b a cs]. simpl in H.
    assert (exists w a', a = w ++ a' /\ Forall (fun c => p c = true) w
              /\ k (MState (rev w ++ b) a' cs) = Some res) as (w & a' & -> & Hw & Hk).
    { destruct g; [apply star_greedy_sound in H | apply star_lazy_sound in H];
        exact H. }
    eexists. split; [apply M_Star; exact Hw | exact Hk].
  - destruct (IH _ _ _ H) as (st1 & M1 & Hk).
    eexists. split; [apply M_Group; exact M1 | exact Hk].
  - destruct (at_bol st) eqn:Hb; [|discriminate].
    exists st. split; [constructor; exact Hb | exact H].
  - destruct (at_eol st) eqn:Hb; [|discriminate].
    exists st. split; [constructor; exact Hb | exact H].
Qed.

Lemma span_refl st : span st [] st.
Proof. split; reflexivity. Qed.

Lemma span_trans st1 w1 st2 w2 st3 :
  span st1 w1 st2 -> span st2 w2 st3 -> span st1 (w1 ++ w2) st3.
Proof.
  intros [A1 B1] [A2 B2]. split.
  - rewrite A1, A2. apply app_assoc.
  - rewrite B2, B1, rev_app_distr, <- app_assoc. reflexivity.
Qed.

(** A match consumes a piece of the subject and nothing else moves. *)
Lemma Matches_span r st st' :
  Matches r st st' -> exists w, span st w st'.
Proof.
  induction 1 as [st|p c t b cs Hp|r1 r2 st st1 st2 _ [w1 S1] _ [w2 S2]
                 |r1 r2 st st' _ IH|r1 r2 st st' _ IH|g p w b a cs Hw
                 |n r st st1 _ [w S]|st Hb|st Hb].
  - exists []. apply span_refl.
  - exists [c]. split; reflexivity.
  - exists (w1 ++ w2). eapply span_trans; eauto.
  - exact IH.
  - exact IH.
  - exists w. split; reflexivity.
  - exists w. exact S.
  - exists []. apply span_refl.
  - exists []. apply span_refl.
Qed.

Lemma span_consumed st w st' : span st w st' -> consumed st st' = w.
Proof.
  intros [A B]. unfold consumed. rewrite A, B.
  rewrite length_app, length_rev.
  replace (length w + length (before st) - length (before st))%nat
    with (length w) by lia.
  apply take_app_length.
Qed.


Lemma exec_at_Matches r bef aft st' :
  exec_at r bef aft = Some st' ->
  Matches r (MState bef aft no_captures) st'.
Proof.
  intros H. apply m_sound in H. destruct H as (st1 & M1 & E).
  inversion E; subst. exact M1.
Qed.

Lemma exec_at_span r bef aft st' :
  exec_at r bef aft = Some st' ->
  exists w, aft = w ++ after st' /\ before st' = rev w ++ bef
            /\ consumed (MState bef aft no_captures) st' = w.
Proof.
  intros H. apply exec_at_Matches in H.
  destruct (Matches_span _ _ _ H) as [w S].
  exists w. destruct S as [A B]. simpl in A, B.
  split; [exact A|]. split; [exact B|].
  apply span_consumed. split; assumption.
Qed.

(** The segments of a scan are the subject, cut in pieces. *)
Lemma scan_text r :
  forall aft skip bef,
    (skip <= length aft)%nat ->
    concat (map segment_text (scan r skip bef aft)) = skipn skip aft.
Proof.
  induction aft as [|c t IH]; intros skip bef Hs.
  - simpl in Hs. assert (skip = O) by lia. subst. simpl.
    destruct (exec_at r bef []) as [st'|]; [|reflexivity].
    simpl. rewrite firstn_nil. reflexivity.
  - destruct skip as [|n].
    + simpl. destruct (exec_at r bef (c :: t)) as [st'|] eqn:E.
      * destruct (exec_at_span _ _ _ _ E) as (w & A & B & _).
        rewrite B, length_app, length_rev.
        replace (length w + length bef - length bef)%nat with (length w) by lia.
        destruct w as [|c' w'].
        -- simpl. rewrite IH by lia. reflexivity.
        -- simpl in A. injection A as Hc Ht. subst c'.
           simpl. rewrite IH.
           ++ f_equal. apply firstn_skipn.
           ++ rewrite Ht, length_app. lia.
      * simpl. rewrite IH by lia. reflexivity.
    + simpl. apply IH. simpl in Hs. lia.
Qed.

Lemma segments_text r s : concat (map segment_text (segments r s)) = s.
Proof. unfold segments. rewrite scan_text; [reflexivity | lia]. Qed.

(** Every match of a scan is an [exec] that succeeded at a position of
    the subject. *)
Lemma scan_hit r whole g :
  forall aft skip bef,
    In (Hit whole g) (scan r skip bef aft) ->
    exists bef' aft' st',
      rev bef' ++ aft' = rev bef ++ aft
      /\ exec_at r bef' aft' = Some st'
      /\ whole = consumed (MState bef' aft' no_captures) st'
      /\ g = caps st'.
Proof.
  induction aft as [|c t IH]; intros skip bef Hin.
  - destruct skip; simpl in Hin; [|contradiction].
    destruct (exec_at r bef []) as [st'|] eqn:E; [|contradiction].
    destruct Hin as [Hin|[]]. inversion Hin; subst.
    exists bef, [], st'. repeat split; auto.
  - assert (Hrec : forall k, In (Hit whole g) (scan r k (c :: bef) t) ->
        exists bef' aft' st',
          rev bef' ++ aft' = rev bef ++ c :: t
          /\ exec_at r bef' aft' = Some st'
          /\ whole = consumed (MState bef' aft' no_captures) st'
          /\ g = caps st').
    { intros k Hk. destruct (IH _ _ Hk) as (b' & a' & st' & Heq & rest).
      exists b', a', st'. split; [|exact rest].
      rewrite Heq. simpl. rewrite <- app_assoc. reflexivity. }
    destruct skip as [|n]; simpl in Hin.
    + destruct (exec_at r bef (c :: t)) as [st'|] eqn:E.
      * destruct Hin as [Hin|Hin].
        -- inversion Hin; subst. exists bef, (c :: t), st'.
           repeat split; auto.
        -- destruct (length (before st') - length bef)%nat.
           ++ destruct Hin as [Hin|Hin]; [discriminate|]. eauto.
           ++ eauto.
      * destruct Hin as [Hin|Hin]; [discriminate|]. eauto.
    + eauto.
Qed.

End RegexFacts.

(** ** The admonition pattern *)

Section AdmonitionFacts.
Import JS Regex BlogPostPage.

Lemma Matches_Empty_inv st st' : Matches Empty st st' -> st' = st.
Proof. inversion 1; reflexivity. Qed.

Lemma Matches_Seq_inv r1 r2 st st' :
  Matches (Seq r1 r2) st st' ->
  exists st1, Matches r1 st st1 /\ Matches r2 st1 st'.
Proof. inversion 1; subst; eauto. Qed.

Lemma Matches_Alt_inv r1 r2 st st' :
  Matches (Alt r1 r2) st st' -> Matches r1 st st' \/ Matches r2 st st'.
Proof. inversion 1; subst; auto. Qed.

Lemma Matches_Bol_inv st st' :
  Matches Bol st st' -> st' = st /\ at_bol st = true.
Proof. inversion 1; subst; auto. Qed.

Lemma Matches_Eol_inv st st' :
  Matches Eol st st' -> st' = st /\ at_eol st = true.
Proof. inversion 1; subst; auto. Qed.

Lemma Matches_Class_inv p st st' :
  Matches (Class p) st st' ->
  exists c, p c = true /\ span st [c] st' /\ caps st' = caps st.
Proof. inversion 1; subst. exists c. repeat split; auto. Qed.

Lemma Matches_Star_inv g p st st' :
  Matches (Star g p) st st' ->
  exists w, Forall (fun c => p c = true) w /\ span st w st'
            /\ caps st' = caps st.
Proof. inversion 1; subst. exists w. repeat split; auto. Qed.

Lemma Matches_Plus_inv p st st' :
  Matches (Plus p) st st' ->
  exists w, w <> [] /\ Forall (fun c => p c = true) w /\ span st w st'
            /\ caps st' = caps st.
Proof.
  unfold Plus. intros H.
  apply Matches_Seq_inv in H as (st1 & H1 & H2).
  apply Matches_Class_inv in H1 as (c & Hc & S1 & C1).
  apply Matches_Star_inv in H2 as (w & Hw & S2 & C2).
  exists (c :: w). split; [discriminate|]. split; [constructor; auto|].
  split; [exact (span_trans _ _ _ _ _ S1 S2) | congruence].
Qed.

Lemma Matches_Lit_inv d st st' :
  Matches (Lit d) st st' -> span st [d] st' /\ caps st' = caps st.
Proof.
  unfold Lit. intros H. apply Matches_Class_inv in H as (c & Hc & S & C).
  unfold isChar in Hc. apply Z.eqb_eq in Hc. subst c. auto.
Qed.

Lemma Matches_Str_inv s :
  forall st st', Matches (Str s) st st' -> span st s st' /\ caps st' = caps st.
Proof.
  induction s as [|c s IH]; intros st st' H; simpl in H.
  - apply Matches_Empty_inv in H. subst.
    split; [apply span_refl | reflexivity].
  - apply Matches_Seq_inv in H as (st1 & H1 & H2).
    apply Matches_Lit_inv in H1 as [S1 C1].
    destruct (IH _ _ H2) as [S2 C2].
    split; [exact (span_trans _ _ _ _ _ S1 S2) | congruence].
Qed.

Lemma Matches_delimiter_inv st st' :
  Matches delimiter st st' ->
  exists d, (d = u ":::" \/ d = u "!!!") /\ span st d st'
            /\ caps st' = caps st.
Proof.
  unfold delimiter. intros H. apply Matches_Alt_inv in H as [H|H];
    apply Matches_Str_inv in H as [S C].
  - exists (u ":::"). auto.
  - exists (u "!!!"). auto.
Qed.

Lemma Matches_Group_inv n r st st' :
  Matches (Group n r) st st' ->
  exists w st1, span st w st' /\ Matches r st st1 /\ span st w st1
                /\ caps st' = set_capture n w (caps st1).
Proof.
  inversion 1 as [| | | | | |n' r' st0 st1 M| |]; subst.
  destruct (Matches_span _ _ _ M) as [w S].
  exists w, st1. split; [exact S|]. split; [exact M|]. split; [exact S|].
  simpl. rewrite (span_consumed _ _ _ S). reflexivity.
Qed.

(** A group around a one-or-more quantifier captures what it consumed. *)
Lemma Matches_Group_Plus_inv n p st st' :
  Matches (Group n (Plus p)) st st' ->
  exists w, w <> [] /\ Forall (fun c => p c = true) w /\ span st w st'
            /\ caps st' = set_capture n w (caps st).
Proof.
  intros H. apply Matches_Group_inv in H as (w & st1 & S & M & S1 & C).
  apply Matches_Plus_inv in M as (w' & Hne & Hw & S' & C').
  assert (w' = w).
  { rewrite <- (span_consumed _ _ _ S1), <- (span_consumed _ _ _ S').
    reflexivity. }
  subst w'. exists w. split; [exact Hne|]. split; [exact Hw|].
  split; [exact S|]. rewrite C, C'. reflexivity.
Qed.

Lemma Matches_Group_Star_inv n g p st st' :
  Matches (Group n (Star g p)) st st' ->
  exists w, span st w st' /\ caps st' = set_capture n w (caps st).
Proof.
  intros H. apply Matches_Group_inv in H as (w & st1 & S & M & S1 & C).
  apply Matches_Star_inv in M as (w' & _ & _ & C').
  exists w. split; [exact S | congruence].
Qed.

Lemma Forall_isChar d w :
  Forall (fun c => isChar d c = true) w -> Forall (fun c => c = d) w.
Proof.
  intros H. eapply Forall_impl; [exact H|]. intros c Hc. unfold isChar in Hc.
  apply Z.eqb_eq in Hc. exact Hc.
Qed.

(** The optional title of the pattern. *)
Lemma Matches_title_inv st st' :
  Matches (Opt (Seq (Plus (isChar 32)) (Group 2 (Plus isDot)))) st st' ->
  exists title, span st title st' /\
    ((title = [] /\ caps st' = caps st)
     \/ exists gap text,
          title = gap ++ text /\ gap <> []
          /\ Forall (fun c => c = 32) gap
          /\ text <> [] /\ Forall (fun c => isLineTerminator c = false) text
          /\ caps st' = set_capture 2 text (caps st)).
Proof.
  unfold Opt. intros H. apply Matches_Alt_inv in H as [H|H].
  - apply Matches_Seq_inv in H as (st1 & H1 & H2).
    apply Matches_Plus_inv in H1 as (gap & Hg & Hgap & Sg & Cg).
    apply Matches_Group_Plus_inv in H2 as (text & Ht & Htext & St & Ct).
    exists (gap ++ text). split; [exact (span_trans _ _ _ _ _ Sg St)|].
    right. exists gap, text.
    split; [reflexivity|]. split; [exact Hg|].
    split; [apply Forall_isChar; exact Hgap|]. split; [exact Ht|].
    split; [|rewrite Ct, Cg; reflexivity].
    eapply Forall_impl; [exact Htext|]. intros c Hc.
    unfold isDot in Hc. simpl in Hc. apply negb_true_iff in Hc. exact Hc.
  - apply Matches_Empty_inv in H. subst. exists [].
    split; [apply span_refl|]. left. auto.
Qed.

(** What a match of the admonition pattern looks like: an opening
    delimiter at the start of a line, spaces, a keyword, an optional title
    after spaces, a line feed, the body, a closing delimiter of either
    spelling, and white space up to the end of a line. *)
Lemma admonition_shape bef aft st' :
  exec_at admonition_regex bef aft = Some st' ->
  exists opening spaces keyword title body closing trailing,
    consumed (MState bef aft no_captures) st'
      = opening ++ spaces ++ keyword ++ title ++ [10] ++ body
          ++ closing ++ trailing
    /\ (opening = u ":::" \/ opening = u "!!!")
    /\ (closing = u ":::" \/ closing = u "!!!")
    /\ Forall (fun c => c = 32) spaces
    /\ keyword <> [] /\ Forall (fun c => isWordChar c = true) keyword
    /\ ((title = [] /\ get_capture (caps st') 2 = None)
        \/ exists gap text,
             title = gap ++ text /\ gap <> []
             /\ Forall (fun c => c = 32) gap
             /\ text <> [] /\ Forall (fun c => isLineTerminator c = false) text
             /\ get_capture (caps st') 2 = Some text)
    /\ Forall (fun c => isWhiteSpace c = true) trailing
    /\ get_capture (caps st') 1 = Some keyword
    /\ get_capture (caps st') 3 = Some body
    /\ at_bol (MState bef aft no_captures) = true
    /\ at_eol st' = true.
Proof.
  intros E. pose proof (exec_at_Matches _ _ _ _ E) as M.
  unfold admonition_regex in M.
  apply Matches_Seq_inv in M as (s0 & M0 & M).
  apply Matches_Bol_inv in M0 as [-> Hbol].
  apply Matches_Seq_inv in M as (s1 & M1 & M).
  apply Matches_delimiter_inv in M1 as (op & Hop & S1 & C1).
  apply Matches_Seq_inv in M as (s2 & M2 & M).
  apply Matches_Star_inv in M2 as (sp & Hsp & S2 & C2).
  apply Matches_Seq_inv in M as (s3 & M3 & M).
  apply Matches_Group_Plus_inv in M3 as (kw & Hne & Hkw & S3 & C3).
  apply Matches_Seq_inv in M as (s4 & M4 & M).
  apply Matches_title_inv in M4 as (tp & S4 & Htp).
  apply Matches_Seq_inv in M as (s5 & M5 & M).
  apply Matches_Lit_inv in M5 as [S5 C5].
  apply Matches_Seq_inv in M as (s6 & M6 & M).
  apply Matches_Group_Star_inv in M6 as (bd & S6 & C6).
  apply Matches_Seq_inv in M as (s7 & M7 & M).
  apply Matches_delimiter_inv in M7 as (cl & Hcl & S7 & C7).
  apply Matches_Seq_inv in M as (s8 & M8 & M).
  apply Matches_Star_inv in M8 as (ws & Hws & S8 & C8).
  apply Matches_Eol_inv in M as [-> Heol].
  exists op, sp, kw, tp, bd, cl, ws.
  assert (Sall : span (MState bef aft no_captures)
            (op ++ sp ++ kw ++ tp ++ [10] ++ bd ++ cl ++ ws) s8).
  { repeat (eapply span_trans; [eassumption|]). rewrite <- (app_nil_r ws).
    eapply span_trans; [eassumption | apply span_refl]. }
  assert (C3' : caps s3 = set_capture 1 kw no_captures).
  { rewrite C3, C2, C1. reflexivity. }
  assert (C8' : caps s8 = set_capture 3 bd (caps s4)).
  { rewrite C8, C7, C6, C5. reflexivity. }
  split; [apply span_consumed; exact Sall|].
  split; [exact Hop|]. split; [exact Hcl|].
  split; [apply Forall_isChar; exact Hsp|].
  split; [exact Hne|]. split; [exact Hkw|].
  split.
  { destruct Htp as [[-> Hc]|(gap & text & -> & Hg & Hgap & Ht & Htext & Hc)].
    - left. split; [reflexivity|]. rewrite C8', Hc, C3'. reflexivity.
    - right. exists gap, text.
      split; [reflexivity|]. split; [exact Hg|]. split; [exact Hgap|].
      split; [exact Ht|]. split; [exact Htext|].
      rewrite C8', Hc. reflexivity. }
  split; [exact Hws|].
  split.
  { rewrite C8'.
    destruct Htp as [[_ Hc]|(gap & text & _ & _ & _ & _ & _ & Hc)];
      rewrite Hc, C3'; reflexivity. }
  split; [rewrite C8'; reflexivity|].
  split; assumption.
Qed.

(** The output of the preprocessor is the output of the callback, block
    by block; a block whose keyword is not recognized is its own output. *)
Lemma render_blocks random :
  forall segs n,
    exists outs,
      render random n segs = concat outs
      /\ Forall2 (fun sg out =>
           match sg with
           | Plain c => out = [c]
           | Hit whole g =>
               includes ADMONITION_TYPES (toLowerCase (group g 1)) = false ->
               out = whole
           end) segs outs.
Proof.
  induction segs as [|sg segs IH]; intros n.
  - exists []. split; [reflexivity | constructor].
  - destruct sg as [c|whole g]; cbn [render].
    + destruct (IH n) as (outs & E & F).
      exists ([c] :: outs). split; [simpl; rewrite E; reflexivity|].
      constructor; [reflexivity | exact F].
    + destruct (admonition random n whole g) as [out n'] eqn:A.
      destruct (IH n') as (outs & E & F).
      exists (out :: outs). split; [simpl; rewrite E; reflexivity|].
      constructor; [|exact F].
      intros Hno. unfold admonition in A. rewrite Hno in A. cbn [negb] in A.
      congruence.
Qed.

Lemma render_unrecognized random :
  forall segs n,
    (forall whole g, In (Hit whole g) segs ->
       includes ADMONITION_TYPES (toLowerCase (group g 1)) = false) ->
    render random n segs = concat (map segment_text segs).
Proof.
  induction segs as [|sg segs IH]; intros n Hall; [reflexivity|].
  destruct sg as [c|whole g]; cbn [render map concat segment_text].
  - rewrite IH; [reflexivity|]. intros w g Hin. apply (Hall w g). right. exact Hin.
  - unfold admonition. rewrite (Hall whole g) by (left; reflexivity).
    cbn [negb]. f_equal.
    apply IH. intros w g' Hin. apply (Hall w g'). right. exact Hin.
Qed.

Lemma render_single random n whole g :
  render random n [Hit whole g] = fst (admonition random n whole g).
Proof.
  cbn [render]. destruct (admonition random n whole g) as [out n'].
  cbn [render fst]. apply app_nil_r.
Qed.

(** The scan of a text, computed. *)
Ltac compute_segments :=
  unfold preprocessAdmonitions;
  lazymatch goal with
  | |- context [segments ?r ?s] =>
      let v := eval vm_compute in (segments r s) in
      change (segments r s) with v
  end.

(** C4. The admonition preprocessor turns [:::warning Careful], a line
    [Do not do X] and a closing [:::] into a container of class
    [admonition-warning] whose title paragraph reads [Careful] and whose
    body is [Do not do X]. The keyword is compared in lower case with the
    fixed list of kinds: the callback depends on it through its lower-case
    form only, so [:::WaRnInG] gives the same container. A block whose
    keyword is not in the list is emitted as it stands, delimiters
    included, whatever happens to the other blocks of the text; a text all
    of whose blocks are of that sort, such as the [:::potato] block, comes
    out unchanged. *)
Theorem C4_admonition_roundtrip :
  (forall random,
     preprocessAdmonitions random
       (u ":::warning Careful" ++ [10] ++ u "Do not do X" ++ [10] ++ u ":::")
     = [10] ++ u "<div class=" ++ dq ++ u "admonition admonition-warning" ++ dq
       ++ u " data-admonition=" ++ dq ++ random O ++ dq
       ++ u "><p class=" ++ dq ++ u "admonition-title" ++ dq ++ u ">"
       ++ [9888; 65039] ++ u " Careful</p>" ++ [10; 10]
       ++ u "Do not do X" ++ [10; 10] ++ u "</div>" ++ [10])
  /\ (forall random,
        preprocessAdmonitions random
          (u ":::WaRnInG Careful" ++ [10] ++ u "Do not do X" ++ [10] ++ u ":::")
        = preprocessAdmonitions random
          (u ":::warning Careful" ++ [10] ++ u "Do not do X" ++ [10] ++ u ":::"))
  /\ (forall random n whole g g',
        toLowerCase (group g 1) = toLowerCase (group g' 1) ->
        get_capture g 2 = get_capture g' 2 ->
        group g 3 = group g' 3 ->
        admonition random n whole g = admonition random n whole g')
  /\ (forall random n whole g,
        includes ADMONITION_TYPES (toLowerCase (group g 1)) = false ->
        admonition random n whole g = (whole, n))
  /\ (forall random markdown,
        exists outs,
          preprocessAdmonitions random markdown = concat outs
          /\ concat (map segment_text (segments admonition_regex markdown))
             = markdown
          /\ Forall2 (fun sg out =>
               match sg with
               | Plain c => out = [c]
               | Hit whole g =>
                   includes ADMONITION_TYPES (toLowerCase (group g 1)) = false ->
                   out = whole
               end) (segments admonition_regex markdown) outs)
  /\ (forall random markdown,
        (forall whole g,
           In (Hit whole g) (segments admonition_regex markdown) ->
           includes ADMONITION_TYPES (toLowerCase (group g 1)) = false) ->
        preprocessAdmonitions random markdown = markdown)
  /\ (forall random,
        preprocessAdmonitions random
          (u ":::potato Careful" ++ [10] ++ u "Do not do X" ++ [10] ++ u ":::")
        = u ":::potato Careful" ++ [10] ++ u "Do not do X" ++ [10] ++ u ":::").
Proof.
  split.
  { intros random. compute_segments. rewrite render_single.
    vm_compute. reflexivity. }
  split.
  { intros random. compute_segments. compute_segments.
    rewrite !render_single. vm_compute. reflexivity. }
  split.
  { intros random n whole g g' H1 H2 H3. unfold admonition.
    rewrite H1, H2, H3. reflexivity. }
  split.
  { intros random n whole g Hno. unfold admonition. rewrite Hno. reflexivity. }
  split.
  { intros random markdown. unfold preprocessAdmonitions.
    destruct (render_blocks random (segments admonition_regex markdown) O)
      as (outs & E & F).
    exists outs. split; [exact E|]. split; [apply segments_text | exact F]. }
  split.
  { intros random markdown Hall. unfold preprocessAdmonitions.
    rewrite render_unrecognized by exact Hall. apply segments_text. }
  intros random. compute_segments. rewrite render_single.
  vm_compute. reflexivity.
Qed.

(** The [:::Potato] capture is not a recognized kind, so the callback
    hands the block back. *)
Lemma C4_admonition_roundtrip_witness :
  admonition (fun _ => u "id") 7 (u ":::Potato") [(1%nat, u "Potato")]
  = (u ":::Potato", 7%nat).
Proof.
  apply (proj1 (proj2 (proj2 (proj2 C4_admonition_roundtrip)))).
  reflexivity.
Defined.

Lemma at_bol_rev bef aft :
  at_bol (MState bef aft no_captures) = true ->
  rev bef = [] \/ exists p c, rev bef = p ++ [c] /\ isLineTerminator c = true.
Proof.
  unfold at_bol. simpl. destruct bef as [|c b]; intros H; [left; reflexivity|].
  right. exists (rev b), c. split; [reflexivity | exact H].
Qed.

Lemma at_eol_after st :
  at_eol st = true ->
  after st = [] \/ exists c q, after st = c :: q /\ isLineTerminator c = true.
Proof.
  unfold at_eol. destruct (after st) as [|c q]; intros H; [left; reflexivity|].
  right. exists c, q. split; [reflexivity | exact H].
Qed.

Lemma recognized_hit_dec (segs : list Regex.segment) :
  (forall whole g, In (Hit whole g) segs ->
     includes ADMONITION_TYPES (toLowerCase (group g 1)) = false)
  \/ exists whole g, In (Hit whole g) segs
       /\ includes ADMONITION_TYPES (toLowerCase (group g 1)) = true.
Proof.
  induction segs as [|sg segs [IH|(w & g & Hin & Hr)]].
  - left. intros w g [].
  - destruct sg as [c|whole g].
    + left. intros w g [Hin|Hin]; [discriminate | eauto].
    + destruct (includes ADMONITION_TYPES (toLowerCase (group g 1))) eqn:E.
      * right. exists whole, g. split; [left; reflexivity | exact E].
      * left. intros w g' [Hin|Hin]; [|eauto]. inversion Hin; subst. exact E.
  - right. exists w, g. split; [right; exact Hin | exact Hr].
Qed.

(** *** The matcher on a well-formed block *)

Lemma m_Str_run {R : Type} s :
  forall b a cs (k : mstate -> option R),
    m (Str s) (MState b (s ++ a) cs) k = k (MState (rev s ++ b) a cs).
Proof.
  induction s as [|c s IH]; intros b a cs k; [reflexivity|].
  cbn [Str m List.app after before caps]. unfold Lit. cbn [m after before caps].
  unfold isChar at 1. rewrite Z.eqb_refl. rewrite IH.
  cbn [rev]. rewrite <- app_assoc. reflexivity.
Qed.

Lemma m_delimiter_hit {R : Type} d b a cs (k : mstate -> option R) res :
  d = u ":::" \/ d = u "!!!" ->
  k (MState (rev d ++ b) a cs) = Some res ->
  m delimiter (MState b (d ++ a) cs) k = Some res.
Proof.
  intros [-> | ->] Hk; unfold delimiter; cbn [m].
  - rewrite m_Str_run, Hk. reflexivity.
  - replace (m (Str (u ":::")) (MState b (u "!!!" ++ a) cs) k) with (@None R)
      by reflexivity.
    rewrite m_Str_run. exact Hk.
Qed.

Lemma m_delimiter_miss {R : Type} b a cs (k : mstate -> option R) :
  match a with
  | [] => True
  | c :: _ => c <> 58 /\ c <> 33
  end ->
  m delimiter (MState b a cs) k = None.
Proof.
  intros Ha. unfold delimiter.
  change (Str (u ":::")) with (Seq (Lit 58) (Str (u "::"))).
  change (Str (u "!!!")) with (Seq (Lit 33) (Str (u "!!"))).
  unfold Lit. cbn [m after]. destruct a as [|c a]; [reflexivity|].
  destruct Ha as [H1 H2]. unfold isChar.
  apply Z.eqb_neq in H1. apply Z.eqb_neq in H2. rewrite H1, H2. reflexivity.
Qed.

(** A greedy quantifier takes a whole run when the continuation accepts
    the position after it. *)
Lemma star_greedy_run {R : Type} p w :
  forall b a (k : jsstring -> jsstring -> option R) res,
    Forall (fun c => p c = true) w ->
    match a with
    | [] => True
    | c :: _ => p c = false
    end ->
    k (rev w ++ b) a = Some res ->
    star_greedy p b (w ++ a) k = Some res.
Proof.
  induction w as [|c w IH]; intros b a k res Hw Ha Hk.
  - simpl in *. destruct a as [|c a]; [exact Hk|].
    simpl. rewrite Ha. exact Hk.
  - inversion Hw; subst. simpl. rewrite H1.
    rewrite (IH (c :: b) a k res); auto.
    simpl in Hk. rewrite <- app_assoc in Hk. exact Hk.
Qed.

(** A lazy quantifier stops at the first position the continuation
    accepts. *)
Lemma star_lazy_run {R : Type} p w :
  forall b a (k : jsstring -> jsstring -> option R) res,
    Forall (fun c => p c = true) w ->
    (forall w1 c w2, w = w1 ++ c :: w2 ->
       k (rev w1 ++ b) (c :: w2 ++ a) = None) ->
    k (rev w ++ b) a = Some res ->
    star_lazy p b (w ++ a) k = Some res.
Proof.
  induction w as [|c w IH]; intros b a k res Hw Hnone Hk.
  - simpl in *. destruct a; simpl; rewrite Hk; reflexivity.
  - inversion Hw; subst. cbn [List.app star_lazy].
    pose proof (Hnone [] c w eq_refl) as H0. simpl in H0. rewrite H0, H1.
    apply IH; auto.
    + intros w1 c' w2 ->. specialize (Hnone (c :: w1) c' w2 eq_refl).
      simpl in Hnone. rewrite <- app_assoc in Hnone. exact Hnone.
    + simpl in Hk. rewrite <- app_assoc in Hk. exact Hk.
Qed.

Lemma m_Plus_run {R : Type} p w b a cs (k : mstate -> option R) res :
  w <> [] -> Forall (fun c => p c = true) w ->
  match a with
  | [] => True
  | c :: _ => p c = false
  end ->
  k (MState (rev w ++ b) a cs) = Some res ->
  m (Plus p) (MState b (w ++ a) cs) k = Some res.
Proof.
  intros Hne Hw Ha Hk. destruct w as [|c w]; [congruence|].
  inversion Hw; subst. unfold Plus. cbn [m after before caps List.app].
  rewrite H1. cbn [m after before caps].
  apply star_greedy_run; auto.
  simpl in Hk. rewrite <- app_assoc in Hk. exact Hk.
Qed.

Lemma consumed_run b w a cs cs' :
  consumed (MState b (w ++ a) cs) (MState (rev w ++ b) a cs') = w.
Proof. apply span_consumed. split; reflexivity. Qed.

Lemma m_Group_Plus_run {R : Type} n p w b a cs (k : mstate -> option R) res :
  w <> [] -> Forall (fun c => p c = true) w ->
  match a with
  | [] => True
  | c :: _ => p c = false
  end ->
  k (MState (rev w ++ b) a (set_capture n w cs)) = Some res ->
  m (Group n (Plus p)) (MState b (w ++ a) cs) k = Some res.
Proof.
  intros Hne Hw Ha Hk. cbn [m].
  apply m_Plus_run; auto.
  cbn [before after caps]. rewrite consumed_run. exact Hk.
Qed.

Lemma m_Seq {R : Type} r1 r2 st (k : mstate -> option R) :
  m (Seq r1 r2) st k = m r1 st (fun st1 => m r2 st1 k).
Proof. reflexivity. Qed.

Lemma m_Bol {R : Type} st (k : mstate -> option R) :
  at_bol st = true -> m Bol st k = k st.
Proof. intros E. cbn [m]. rewrite E. reflexivity. Qed.

Lemma m_Eol {R : Type} st (k : mstate -> option R) :
  at_eol st = true -> m Eol st k = k st.
Proof. intros E. cbn [m]. rewrite E. reflexivity. Qed.

Lemma m_Lit_run {R : Type} c b a cs (k : mstate -> option R) :
  m (Lit c) (MState b (c :: a) cs) k = k (MState (c :: b) a cs).
Proof.
  unfold Lit. cbn [m after before caps]. unfold isChar. rewrite Z.eqb_refl.
  reflexivity.
Qed.

Lemma m_Star_greedy_run {R : Type} p w b a cs (k : mstate -> option R) res :
  Forall (fun c => p c = true) w ->
  match a with
  | [] => True
  | c :: _ => p c = false
  end ->
  k (MState (rev w ++ b) a cs) = Some res ->
  m (Star true p) (MState b (w ++ a) cs) k = Some res.
Proof.
  intros Hw Ha Hk. cbn [m after before caps].
  apply star_greedy_run; assumption.
Qed.

Lemma m_Group_lazy_run {R : Type} n p w b a cs (k : mstate -> option R) res :
  Forall (fun c => p c = true) w ->
  (forall w1 c w2 cs', w = w1 ++ c :: w2 ->
     k (MState (rev w1 ++ b) (c :: w2 ++ a) cs') = None) ->
  k (MState (rev w ++ b) a (set_capture n w cs)) = Some res ->
  m (Group n (Star false p)) (MState b (w ++ a) cs) k = Some res.
Proof.
  intros Hw Hnone Hk. cbn [m after before caps].
  apply star_lazy_run.
  - exact Hw.
  - intros w1 c w2 E. apply Hnone. exact E.
  - rewrite consumed_run. exact Hk.
Qed.

Lemma m_Opt_take {R : Type} r st (k : mstate -> option R) res :
  m r st k = Some res -> m (Opt r) st k = Some res.
Proof. intros E. unfold Opt. cbn [m]. rewrite E. reflexivity. Qed.

Lemma m_Opt_skip {R : Type} r st (k : mstate -> option R) :
  m r st k = None -> m (Opt r) st k = k st.
Proof. intros E. unfold Opt. cbn [m]. rewrite E. reflexivity. Qed.

Lemma word_not_space c : isWordChar c = true -> isChar 32 c = false.
Proof.
  unfold isWordChar, isChar, in_range. intros Hc. apply Z.eqb_neq. intros ->.
  discriminate Hc.
Qed.

Lemma isAny_true c : isAny c = true.
Proof. unfold isAny. apply orb_negb_r. Qed.

(** From the line feed that ends the opening line to the end of the
    text. *)
Lemma m_body_run b cs body closing :
  closing = u ":::" \/ closing = u "!!!" ->
  Forall (fun c => c <> 58 /\ c <> 33) body ->
  m (Seq (Lit 10)
       (Seq (Group 3 (Star false isAny))
          (Seq delimiter (Seq (Star true isWhiteSpace) Eol))))
    (MState b ([10] ++ body ++ closing) cs) Some
  = Some (MState (rev closing ++ rev body ++ 10 :: b) []
            (set_capture 3 body cs)).
Proof.
  intros Hcl Hbody. rewrite m_Seq. cbn [List.app]. rewrite m_Lit_run.
  rewrite m_Seq. apply m_Group_lazy_run.
  - eapply Forall_impl; [exact Hbody|]. intros c _. apply isAny_true.
  - intros w1 c w2 cs' E. rewrite m_Seq. apply m_delimiter_miss.
    subst body. apply Forall_app in Hbody as [_ Hc].
    inversion Hc; subst. assumption.
  - rewrite m_Seq. rewrite <- (app_nil_r closing) at 1.
    apply m_delimiter_hit; [exact Hcl|].
    rewrite m_Seq.
    apply (m_Star_greedy_run isWhiteSpace [] _ [] _ _ _ (Forall_nil_2 _) I).
    cbn [rev List.app]. rewrite m_Eol by reflexivity. reflexivity.
Qed.

(** The match of a block that is the whole text. *)
Lemma exec_at_block opening spaces keyword title body closing :
  opening = u ":::" \/ opening = u "!!!" ->
  closing = u ":::" \/ closing = u "!!!" ->
  Forall (fun c => c = 32) spaces ->
  keyword <> [] -> Forall (fun c => isWordChar c = true) keyword ->
  match title with
  | None => True
  | Some (gap, text) =>
      gap <> [] /\ Forall (fun c => c = 32) gap
      /\ Forall (fun c => isLineTerminator c = false) text
      /\ exists c text', text = c :: text' /\ c <> 32
  end ->
  Forall (fun c => c <> 58 /\ c <> 33) body ->
  let whole :=
    opening ++ spaces ++ keyword
      ++ match title with Some (gap, text) => gap ++ text | None => [] end
      ++ [10] ++ body ++ closing in
  exec_at admonition_regex [] whole
  = Some (MState (rev whole) []
            (set_capture 3 body
               (match title with
                | Some (_, text) => set_capture 2 text
                | None => fun cs => cs
                end (set_capture 1 keyword no_captures)))).
Proof.
  intros Hop Hcl Hsp Hne Hkw Htitle Hbody whole. subst whole.
  unfold exec_at, admonition_regex.
  rewrite m_Seq, m_Bol by reflexivity.
  rewrite m_Seq. apply m_delimiter_hit; [exact Hop|].
  rewrite m_Seq. apply m_Star_greedy_run.
  { eapply Forall_impl; [exact Hsp|]. intros c ->. reflexivity. }
  { destruct keyword as [|c kw]; [congruence|]. inversion Hkw; subst.
    apply word_not_space. assumption. }
  rewrite m_Seq. apply m_Group_Plus_run; [exact Hne | exact Hkw | |].
  { destruct title as [[gap text]|]; [|reflexivity].
    destruct Htitle as (Hg & Hgap & _). destruct gap as [|c gap]; [congruence|].
    inversion Hgap; subst. reflexivity. }
  rewrite m_Seq.
  destruct title as [[gap text]|].
  - destruct Htitle as (Hg & Hgap & Htext & c & text' & -> & Hc).
    apply m_Opt_take. rewrite m_Seq. rewrite <- app_assoc.
    apply m_Plus_run; [exact Hg | | |].
    { eapply Forall_impl; [exact Hgap|]. intros x ->. reflexivity. }
    { cbn [List.app]. unfold isChar. apply Z.eqb_neq. exact Hc. }
    apply m_Group_Plus_run; [discriminate | | reflexivity |].
    { eapply Forall_impl; [exact Htext|]. intros x Hx. unfold isDot.
      rewrite Hx. reflexivity. }
    rewrite m_body_run by assumption. f_equal. f_equal.
    repeat first [ rewrite rev_app_distr | rewrite <- app_assoc
                 | rewrite app_nil_r | progress cbn [rev List.app] ].
    reflexivity.
  - rewrite m_Opt_skip by reflexivity.
    cbn [List.app]. rewrite (m_body_run _ _ body closing) by assumption.
    f_equal. f_equal.
    repeat first [ rewrite rev_app_distr | rewrite <- app_assoc
                 | rewrite app_nil_r | progress cbn [rev List.app] ].
    reflexivity.
Qed.

Lemma exec_at_end bef : exec_at admonition_regex bef [] = None.
Proof.
  unfold exec_at, admonition_regex. rewrite m_Seq.
  destruct (at_bol (MState bef [] no_captures)) eqn:Hb.
  - rewrite m_Bol by exact Hb. rewrite m_Seq. apply m_delimiter_miss. exact I.
  - cbn [m]. rewrite Hb. reflexivity.
Qed.

Lemma scan_skip_all r :
  forall t bef,
    exec_at r (rev t ++ bef) [] = None -> scan r (length t) bef t = [].
Proof.
  induction t as [|c t IH]; intros bef E.
  - simpl in *. rewrite E. reflexivity.
  - cbn [length scan]. apply IH. cbn [rev] in E.
    rewrite <- app_assoc in E. exact E.
Qed.

(** The scan of a block that is the whole text finds that block and
    nothing else. *)
Lemma segments_block opening spaces keyword title body closing :
  opening = u ":::" \/ opening = u "!!!" ->
  closing = u ":::" \/ closing = u "!!!" ->
  Forall (fun c => c = 32) spaces ->
  keyword <> [] -> Forall (fun c => isWordChar c = true) keyword ->
  match title with
  | None => True
  | Some (gap, text) =>
      gap <> [] /\ Forall (fun c => c = 32) gap
      /\ Forall (fun c => isLineTerminator c = false) text
      /\ exists c text', text = c :: text' /\ c <> 32
  end ->
  Forall (fun c => c <> 58 /\ c <> 33) body ->
  let whole :=
    opening ++ spaces ++ keyword
      ++ match title with Some (gap, text) => gap ++ text | None => [] end
      ++ [10] ++ body ++ closing in
  segments admonition_regex whole
  = [Hit whole
       (set_capture 3 body
          (match title with
           | Some (_, text) => set_capture 2 text
           | None => fun cs => cs
           end (set_capture 1 keyword no_captures)))].
Proof.
  intros Hop Hcl Hsp Hne Hkw Htitle Hbody whole.
  pose proof (exec_at_block opening spaces keyword title body closing
                Hop Hcl Hsp Hne Hkw Htitle Hbody) as E.
  cbv zeta in E. fold whole in E.
  assert (Hw : exists c t, whole = c :: t).
  { subst whole. destruct Hop as [-> | ->]; eexists _, _; reflexivity. }
  destruct Hw as (c & t & Hw). rewrite Hw in E |- *.
  unfold segments. cbn [scan]. rewrite E. cbn [before caps length].
  rewrite length_rev. cbn [length]. rewrite Nat.sub_0_r.
  cbn [firstn]. rewrite firstn_all.
  rewrite scan_skip_all; [reflexivity | apply exec_at_end].
Qed.

(** The claim C5 as stated fails: a block opened by [:::] and closed by
    [!!!] is rewritten, and so is one whose closing delimiter stands at
    the end of the last line of the body. *)
Lemma C5_counterexample :
  preprocessAdmonitions (fun _ => u "id")
    (u ":::note" ++ [10] ++ u "body" ++ [10] ++ u "!!!")
  <> u ":::note" ++ [10] ++ u "body" ++ [10] ++ u "!!!"
  /\ preprocessAdmonitions (fun _ => u "id")
       (u ":::note" ++ [10] ++ u "body:::")
     <> u ":::note" ++ [10] ++ u "body:::".
Proof.
  split; intros H; vm_compute in H; discriminate H.
Qed.

(** C5 (amended). A region the preprocessor hands to its callback starts
    at the start of a line and ends at the end of a line, and reads: an
    opening [:::] or [!!!], spaces, a keyword of word characters, an
    optional title after spaces, a line feed, a body, a closing [:::] or
    [!!!] of either spelling whatever the opening one, and white space.
    The closing delimiter need not start its line. The text changes only
    where such a region has a recognized keyword. A text that is one block
    with a recognized keyword and a body free of [:] and [!] is rewritten
    into a container that depends on the keyword, the title and the body,
    and not on which spelling opens or closes the block. *)
Theorem C5_rewritten_regions :
  (forall markdown whole g,
     In (Hit whole g) (segments admonition_regex markdown) ->
     (exists preceding following,
        markdown = preceding ++ whole ++ following
        /\ (preceding = []
            \/ exists p c, preceding = p ++ [c] /\ isLineTerminator c = true)
        /\ (following = []
            \/ exists c q, following = c :: q /\ isLineTerminator c = true))
     /\ exists opening spaces keyword title body closing trailing,
          whole = opening ++ spaces ++ keyword ++ title ++ [10] ++ body
                    ++ closing ++ trailing
          /\ (opening = u ":::" \/ opening = u "!!!")
          /\ (closing = u ":::" \/ closing = u "!!!")
          /\ Forall (fun c => c = 32) spaces
          /\ keyword <> [] /\ Forall (fun c => isWordChar c = true) keyword
          /\ ((title = [] /\ get_capture g 2 = None)
              \/ exists gap text,
                   title = gap ++ text /\ gap <> []
                   /\ Forall (fun c => c = 32) gap
                   /\ text <> []
                   /\ Forall (fun c => isLineTerminator c = false) text
                   /\ get_capture g 2 = Some text)
          /\ Forall (fun c => isWhiteSpace c = true) trailing
          /\ get_capture g 1 = Some keyword
          /\ get_capture g 3 = Some body)
  /\ (forall random markdown,
        preprocessAdmonitions random markdown <> markdown ->
        exists whole g,
          In (Hit whole g) (segments admonition_regex markdown)
          /\ includes ADMONITION_TYPES (toLowerCase (group g 1)) = true)
  /\ (forall random opening closing spaces keyword title body,
        opening = u ":::" \/ opening = u "!!!" ->
        closing = u ":::" \/ closing = u "!!!" ->
        Forall (fun c => c = 32) spaces ->
        keyword <> [] -> Forall (fun c => isWordChar c = true) keyword ->
        includes ADMONITION_TYPES (toLowerCase keyword) = true ->
        match title with
        | None => True
        | Some (gap, text) =>
            gap <> [] /\ Forall (fun c => c = 32) gap
            /\ Forall (fun c => isLineTerminator c = false) text
            /\ exists c text', text = c :: text' /\ c <> 32
        end ->
        Forall (fun c => c <> 58 /\ c <> 33) body ->
        preprocessAdmonitions random
          (opening ++ spaces ++ keyword
             ++ match title with Some (gap, text) => gap ++ text | None => [] end
             ++ [10] ++ body ++ closing)
        = [10] ++ u "<div class=" ++ dq ++ u "admonition admonition-"
          ++ toLowerCase keyword ++ dq
          ++ u " data-admonition=" ++ dq ++ random O ++ dq
          ++ u "><p class=" ++ dq ++ u "admonition-title" ++ dq ++ u ">"
          ++ or_else (icon_of ADMONITION_ICONS (toLowerCase keyword))
               [8505; 65039]
          ++ u " "
          ++ match title with
             | Some (_, text) => text
             | None =>
                 toUpperCase (charAt0 (toLowerCase keyword))
                   ++ slice1 (toLowerCase keyword)
             end
          ++ u "</p>" ++ [10; 10] ++ trim body ++ [10; 10]
          ++ u "</div>" ++ [10]).
Proof.
  split.
  { intros markdown whole g Hin. unfold segments in Hin.
    apply scan_hit in Hin as (bef & aft & st' & Heq & E & -> & ->).
    simpl in Heq.
    destruct (exec_at_span _ _ _ _ E) as (w & A & B & Hw).
    destruct (admonition_shape _ _ _ E)
      as (op & sp & kw & tp & bd & cl & ws & Hc & Hop & Hcl & Hsp & Hne & Hkw
          & Htp & Hws & G1 & G3 & Hbol & Heol).
    split.
    - exists (rev bef), (after st'). rewrite Hw.
      split; [rewrite <- Heq, A; reflexivity|].
      split; [apply at_bol_rev with (aft := aft); exact Hbol|].
      apply at_eol_after. exact Heol.
    - exists op, sp, kw, tp, bd, cl, ws.
      split; [exact Hc|]. split; [exact Hop|]. split; [exact Hcl|].
      split; [exact Hsp|]. split; [exact Hne|]. split; [exact Hkw|].
      split; [exact Htp|]. split; [exact Hws|]. split; assumption. }
  split.
  { intros random markdown Hne.
    destruct (recognized_hit_dec (segments admonition_regex markdown))
      as [Hall|Hex]; [|exact Hex].
    exfalso. apply Hne. unfold preprocessAdmonitions.
    rewrite render_unrecognized by exact Hall. apply segments_text. }
  intros random opening closing spaces keyword title body
    Hop Hcl Hsp Hne Hkw Hrec Htitle Hbody.
  unfold preprocessAdmonitions.
  rewrite (segments_block opening spaces keyword title body closing)
    by assumption.
  rewrite render_single. unfold admonition.
  destruct title as [[gap text]|].
  - destruct Htitle as (_ & _ & _ & c & text' & -> & _).
    cbn [group get_capture set_capture Nat.eqb]. rewrite Hrec. reflexivity.
  - cbn [group get_capture set_capture Nat.eqb]. rewrite Hrec. reflexivity.
Qed.

Lemma C5_rewritten_regions_witness :
  exists around : jsstring * jsstring,
    u ":::note" ++ [10] ++ u "body:::"
    = fst around ++ (u ":::note" ++ [10] ++ u "body:::") ++ snd around.
Proof.
  destruct (proj1 C5_rewritten_regions
              (u ":::note" ++ [10] ++ u "body:::")
              (u ":::note" ++ [10] ++ u "body:::")
              [(3%nat, u "body"); (1%nat, u "note")])
    as [(p & f & E & _) _].
  - vm_compute. left. reflexivity.
  - exists (p, f). exact E.
Defined.

End AdmonitionFacts.

(** ** The code renderer *)

Section CodeFacts.
Import JS BlogPostPage.

Lemma replaceChar_free c r s :
  Forall (fun x => x <> c) r -> Forall (fun x => x <> c) (replaceChar c r s).
Proof.
  intros Hr. unfold replaceChar. induction s as [|x s IH]; simpl.
  - constructor.
  - apply Forall_app. split; [|exact IH].
    destruct (x =? c) eqn:E; [exact Hr|].
    constructor; [|constructor]. apply Z.eqb_neq. exact E.
Qed.

Lemma replaceChar_keeps_free c d r s :
  Forall (fun x => x <> d) r -> Forall (fun x => x <> d) s ->
  Forall (fun x => x <> d) (replaceChar c r s).
Proof.
  intros Hr Hs. unfold replaceChar. induction Hs as [|x s Hx Hs IH]; simpl.
  - constructor.
  - apply Forall_app. split; [|exact IH].
    destruct (x =? c); [exact Hr|]. constructor; [exact Hx | constructor].
Qed.

(** The escaped text holds no angle bracket. *)
Lemma escapeHtml_no_bracket codeStr :
  Forall (fun c => c <> 60 /\ c <> 62) (escapeHtml codeStr).
Proof.
  unfold escapeHtml. apply Forall_and. split.
  - apply replaceChar_keeps_free.
    + vm_compute. repeat constructor; discriminate.
    + apply replaceChar_free. vm_compute. repeat constructor; discriminate.
  - apply replaceChar_free. vm_compute. repeat constructor; discriminate.
Qed.

(** The claim C10 as stated fails: with a declared and recognized
    language whose highlighter throws, the block holds the output of the
    automatic detection, not the escaped source. *)
Lemma C10_counterexample :
  @highlight failing_hljs (u "<b>") (u "js") = None
  /\ @code failing_hljs (Token (u "<b>") (Some (u "js"))) None
     = Some (codeBlock (Some (u "js")) (u "AUTO"))
  /\ codeBlock (Some (u "js")) (u "AUTO")
     <> codeBlock (Some (u "js")) (escapeHtml (u "<b>")).
Proof.
  split; [reflexivity|]. split; [reflexivity|].
  intros H. vm_compute in H. discriminate H.
Qed.

Context `{Hljs}.

(** C10 (amended). With a declared and recognized language the block holds
    the output of that language's highlighter and, when that highlighter
    throws, the output of the automatic detection. Without a declared and
    recognized language the block holds the output of the automatic
    detection and, when the detection throws, the source with [&], [<]
    and [>] escaped, which holds no angle bracket. The label is there
    exactly when a language was declared. *)
Theorem C10_code_block :
  (forall codeStr lang v,
     declared lang = true -> getLanguage (str lang) = true ->
     highlight codeStr (str lang) = Some v ->
     code (Token codeStr lang) None = Some (codeBlock lang v))
  /\ (forall codeStr lang v,
        declared lang = true -> getLanguage (str lang) = true ->
        highlight codeStr (str lang) = None ->
        highlightAuto codeStr = Some v ->
        code (Token codeStr lang) None = Some (codeBlock lang v))
  /\ (forall codeStr lang v,
        declared lang && getLanguage (str lang) = false ->
        highlightAuto codeStr = Some v ->
        code (Token codeStr lang) None = Some (codeBlock lang v))
  /\ (forall codeStr lang,
        declared lang && getLanguage (str lang) = false ->
        highlightAuto codeStr = None ->
        code (Token codeStr lang) None
        = Some (codeBlock lang (escapeHtml codeStr))
        /\ Forall (fun c => c <> 60 /\ c <> 62) (escapeHtml codeStr))
  /\ (forall codeStr language,
        code (Text codeStr) language = code (Token codeStr language) None)
  /\ (forall lang hl,
        codeBlock lang hl
        = u "<div class=" ++ dq ++ u "code-block-wrapper" ++ dq ++ u ">"
          ++ langLabel lang
          ++ u "<pre><code class=" ++ dq ++ u "hljs"
          ++ (if declared lang then u " language-" ++ str lang else [])
          ++ dq ++ u ">" ++ hl ++ u "</code></pre></div>")
  /\ (forall lang,
        (declared lang = true ->
         langLabel lang
         = u "<span class=" ++ dq ++ u "code-lang-label" ++ dq ++ u ">"
           ++ str lang ++ u "</span>")
        /\ (declared lang = false -> langLabel lang = [])
        /\ (langLabel lang <> [] <-> declared lang = true)).
Proof.
  split.
  { intros codeStr lang v Hd Hg Hh. unfold code, highlighted.
    rewrite Hd, Hg, Hh. reflexivity. }
  split.
  { intros codeStr lang v Hd Hg Hh Ha. unfold code, highlighted.
    rewrite Hd, Hg, Hh, Ha. reflexivity. }
  split.
  { intros codeStr lang v Hn Ha. unfold code, highlighted.
    rewrite Hn, Ha. reflexivity. }
  split.
  { intros codeStr lang Hn Ha. split; [|apply escapeHtml_no_bracket].
    unfold code, highlighted. rewrite Hn, Ha. reflexivity. }
  split; [reflexivity|].
  split; [reflexivity|].
  intros lang. unfold langLabel.
  destruct (declared lang); split; try split; try split;
    intros; try reflexivity; try discriminate; try congruence.
Qed.

(** When the highlighter of the declared language and the automatic
    detection both throw, the exception leaves the renderer. *)
Lemma code_both_throw codeStr lang :
  declared lang = true -> getLanguage (str lang) = true ->
  highlight codeStr (str lang) = None -> highlightAuto codeStr = None ->
  code (Token codeStr lang) None = None.
Proof.
  intros Hd Hg Hh Ha. unfold code, highlighted. rewrite Hd, Hg, Hh, Ha.
  reflexivity.
Qed.

End CodeFacts.

(** With a highlighter that knows no language and detects none the block
    of a source holding markup carries the escaped source. *)
Lemma C10_code_block_witness :
  @BlogPostPage.code
    {| BlogPostPage.getLanguage := fun _ => false;
       BlogPostPage.highlight := fun _ _ => None;
       BlogPostPage.highlightAuto := fun _ => None |}
    (BlogPostPage.Token (JS.u "<b>") None) None
  = Some (BlogPostPage.codeBlock None (JS.u "&lt;b&gt;")).
Proof.
  exact (proj1 (proj1 (proj2 (proj2 (proj2
           (@C10_code_block
              {| BlogPostPage.getLanguage := fun _ => false;
                 BlogPostPage.highlight := fun _ _ => None;
                 BlogPostPage.highlightAuto := fun _ => None |}))))
                  (JS.u "<b>") None eq_refl eq_refl)).
Defined.

(** ** The route table and the authentication middleware *)

Section RoutingFacts.
Import Server.
Local Open Scope string_scope.
Context `{Externals}.

Lemma lookup_route_In rs req r param :
  lookup_route rs req = Some (r, param) -> In r rs.
Proof.
  induction rs as [|r0 rs IH]; simpl; [discriminate|].
  unfold matching. destruct (decide (r_method r0 = req_method req)).
  - destruct (match_path (r_path r0) (req_path req)).
    + intros E. inversion E; subst. left. reflexivity.
    + intros E. right. exact (IH E).
  - intros E. right. exact (IH E).
Qed.

(** Every route that is not a [GET] and not the login has the middleware
    before its handler. *)
Lemma write_routes_protected r :
  In r routes -> r_method r <> GET -> r_handler r <> Login -> r_auth r = true.
Proof.
  intros Hin Hm Hh.
  assert (All : forallb (fun r =>
            match r_method r, r_handler r with
            | GET, _ => true
            | _, Login => true
            | _, _ => r_auth r
            end) routes = true) by reflexivity.
  rewrite forallb_forall in All. specialize (All r Hin).
  destruct (r_method r), (r_handler r); try congruence.
Qed.

(** The answer to a request whose route has the middleware, when the
    middleware does not call [next]. *)
Lemma app_rejected now req st r param rejected :
  lookup_route routes req = Some (r, param) ->
  r_auth r = true ->
  authMiddleware now req = Some rejected ->
  app now req st = (rejected, st).
Proof.
  intros Hr Ha Hm. unfold app. rewrite Hr, Ha, Hm. reflexivity.
Qed.

End RoutingFacts.

(** The claim C6 as stated fails: a request without a token and a request
    with a token that does not verify get different bodies. *)
Lemma C6_counterexample :
  let missing := Server.Request Server.POST ["api"; "blog"]%string ∅ None ∅ None in
  let invalid :=
    Server.Request Server.POST ["api"; "blog"]%string ∅
      (Some "Bearer expired"%string) ∅ None in
  fst (@Server.app Server.sample 0 missing Server.empty_store)
    = Server.Response 401 (Server.Message "No token")
  /\ fst (@Server.app Server.sample 0 invalid Server.empty_store)
     = Server.Response 401 (Server.Message "Invalid token")
  /\ Server.body (fst (@Server.app Server.sample 0 missing Server.empty_store))
     <> Server.body (fst (@Server.app Server.sample 0 invalid Server.empty_store)).
Proof.
  split; [reflexivity|]. split; [reflexivity|].
  intros E. vm_compute in E. discriminate E.
Qed.

Section AuthFacts.
Import Server.
Local Open Scope string_scope.
Context `{Externals}.

(** C6 (amended). Every route of the table that is not a [GET] and not
    the login stands behind [authMiddleware]. A request to such a route is
    answered 401 and leaves the store as it is when no token can be read
    from the [Authorization] header (no header, or nothing after the first
    space), with the body [No token], and when the token does not verify
    (malformed, expired or signed with another key alike), with the body
    [Invalid token]. *)
Theorem C6_unauthorized_writes :
  forall now req st r param,
    lookup_route routes req = Some (r, param) ->
    r_method r <> GET -> r_handler r <> Login ->
    In r routes /\ r_auth r = true
    /\ (nonempty (bearer_token req) = false ->
        app now req st = (Response 401 (Message "No token"), st))
    /\ (forall token,
          bearer_token req = Some token -> nonempty (Some token) = true ->
          jwt_verify token now = false ->
          app now req st = (Response 401 (Message "Invalid token"), st))
    /\ (authMiddleware now req <> None ->
        status (fst (app now req st)) = 401 /\ snd (app now req st) = st).
Proof.
  intros now req st r param Hr Hm Hh.
  pose proof (lookup_route_In _ _ _ _ Hr) as Hin.
  pose proof (write_routes_protected r Hin Hm Hh) as Ha.
  split; [exact Hin|]. split; [exact Ha|].
  split.
  { intros Hno. eapply app_rejected; eauto.
    unfold authMiddleware. rewrite Hno. reflexivity. }
  split.
  { intros token Ht Hne Hv. eapply app_rejected; eauto.
    unfold authMiddleware. rewrite Ht, Hne. simpl. rewrite Hv. reflexivity. }
  intros Hrej. destruct (authMiddleware now req) as [rej|] eqn:E; [|congruence].
  rewrite (app_rejected now req st r param rej Hr Ha E). simpl.
  split; [|reflexivity].
  unfold authMiddleware in E.
  destruct (negb (nonempty (bearer_token req))); [inversion E; reflexivity|].
  destruct (bearer_token req) as [t|]; [|inversion E; reflexivity].
  destruct (jwt_verify t now); [discriminate | inversion E; reflexivity].
Qed.

End AuthFacts.

Lemma C6_unauthorized_writes_witness :
  @Server.app Server.sample 0
    (Server.Request Server.DELETE ["api"; "skills"; "s1"]%string ∅
       (Some "Bearer"%string) ∅ None)
    Server.empty_store
  = (Server.Response 401 (Server.Message "No token"), Server.empty_store).
Proof.
  refine (proj1 (proj2 (proj2
    (@C6_unauthorized_writes Server.sample 0
       (Server.Request Server.DELETE ["api"; "skills"; "s1"]%string ∅
          (Some "Bearer"%string) ∅ None)
       Server.empty_store
       (Server.Route Server.DELETE
          [Server.Fixed "api"; Server.Fixed "skills"; Server.Param] true
          (Server.Delete Server.Skill))
       (Some "s1"%string) _ _ _))) _).
  - reflexivity.
  - discriminate.
  - discriminate.
  - reflexivity.
Defined.

(** ** Upload *)

(** The claim C9 as stated fails: an authenticated upload of a text file
    is answered 500 by the error-handling middleware, not 400. *)
Lemma C9_counterexample :
  let req :=
    Server.Request Server.POST ["api"; "upload"]%string ∅
      (Some "Bearer good"%string) ∅
      (Some (Server.UploadFile "image" "text/plain" 10)) in
  Server.fileFilter (Server.UploadFile "image" "text/plain" 10) = false
  /\ fst (@Server.app Server.sample 0 req Server.empty_store)
     = Server.Response 500 (Server.Message "Error!")
  /\ Server.status (fst (@Server.app Server.sample 0 req Server.empty_store))
     <> 400.
Proof.
  split; [reflexivity|]. split; [reflexivity|].
  intros E. vm_compute in E. discriminate E.
Qed.

Section UploadFacts.
Import Server.
Local Open Scope string_scope.
Context `{Externals}.

Lemma app_upload now req st :
  req_method req = POST -> req_path req = ["api"; "upload"] ->
  authMiddleware now req = None ->
  app now req st = (upload_handler req, st).
Proof.
  intros Hm Hp Ha. unfold app.
  destruct req as [m p q a b f]. simpl in Hm, Hp. subst m p.
  cbn. unfold matching. cbn. rewrite Ha. reflexivity.
Qed.

(** C9 (amended). An authenticated upload whose file has a content type
    that does not start with [image/] is rejected by the filter and
    answered with the status 500 and the body [Error!] of the
    error-handling middleware; so is a file of more than 10 MB. An upload
    answered 200 carried a file of the field [image], of an image type
    and of at most 10 MB. *)
Theorem C9_upload_rejections :
  forall now req st,
    req_method req = POST -> req_path req = ["api"; "upload"] ->
    authMiddleware now req = None ->
    (forall f, req_file req = Some f -> fileFilter f = false ->
       app now req st = (Response 500 (Message "Error!"), st))
    /\ (forall f, req_file req = Some f -> (fileSize < size f)%Z ->
          app now req st = (Response 500 (Message "Error!"), st))
    /\ (status (fst (app now req st)) = 200 ->
        exists f, req_file req = Some f /\ fieldname f = "image"
                  /\ fileFilter f = true /\ (size f <= fileSize)%Z).
Proof.
  intros now req st Hm Hp Ha. rewrite (app_upload now req st Hm Hp Ha).
  unfold upload_handler, upload_single.
  split.
  { intros f Hf Hno. rewrite Hf, Hno.
    destruct (negb (fieldname f =? "image")); reflexivity. }
  split.
  { intros f Hf Hbig. rewrite Hf. apply Z.ltb_lt in Hbig. rewrite Hbig.
    destruct (negb (fieldname f =? "image")); [reflexivity|].
    destruct (negb (fileFilter f)); reflexivity. }
  destruct (req_file req) as [f|]; [|simpl; discriminate].
  destruct (fieldname f =? "image") eqn:Hn; simpl; [|discriminate].
  destruct (fileFilter f) eqn:Hf; simpl; [|discriminate].
  destruct (fileSize <? size f)%Z eqn:Hs; simpl; [discriminate|].
  intros _. exists f. split; [reflexivity|].
  split; [apply String.eqb_eq; exact Hn|]. split; [exact Hf|].
  apply Z.ltb_ge. exact Hs.
Qed.

End UploadFacts.

Lemma C9_upload_rejections_witness :
  @Server.app Server.sample 0
    (Server.Request Server.POST ["api"; "upload"]%string ∅
       (Some "Bearer good"%string) ∅
       (Some (Server.UploadFile "image" "application/pdf" 10)))
    Server.empty_store
  = (Server.Response 500 (Server.Message "Error!"), Server.empty_store).
Proof.
  refine (proj1
    (@C9_upload_rejections Server.sample 0
       (Server.Request Server.POST ["api"; "upload"]%string ∅
          (Some "Bearer good"%string) ∅
          (Some (Server.UploadFile "image" "application/pdf" 10)))
       Server.empty_store _ _ _)
    (Server.UploadFile "image" "application/pdf" 10) _ _);
    reflexivity.
Defined.

(** ** Blog posts by slug *)


Section SlugFacts.
Import Server.
Local Open Scope string_scope.
Context `{Externals}.



Lemma lookup_route_skip r rs req :
  matching req r = None -> lookup_route (r :: rs) req = lookup_route rs req.
Proof. intros E. simpl. rewrite E. reflexivity. Qed.

Lemma lookup_route_hit r rs req x :
  matching req r = Some x -> lookup_route (r :: rs) req = Some x.
Proof. intros E. simpl. rewrite E. reflexivity. Qed.



(** The paths of a hydrated document: the stored value, or the default
    of the schema. *)
Lemma hydrate_lookup c d key :
  paths (hydrate c d) !! key
  = match paths d !! key with
    | Some v => Some v
    | None => defaults (schema c) !! key
    end.
Proof.
  unfold hydrate. cbn [paths]. rewrite lookup_union.
  destruct (paths d !! key) as [v|], (defaults (schema c) !! key);
    reflexivity.
Qed.



End SlugFacts.


(** ** Routes *)

Section RouteFacts.
Import Server.
Local Open Scope string_scope.
Context `{Externals}.

Lemma lookup_route_method rs req r param :
  lookup_route rs req = Some (r, param) -> r_method r = req_method req.
Proof.
  induction rs as [|r0 rs IH]; simpl; [discriminate|].
  unfold matching. destruct (decide (r_method r0 = req_method req)) as [E|E].
  - destruct (match_path (r_path r0) (req_path req)).
    + intros X. inversion X; subst. exact E.
    + exact IH.
  - exact IH.
Qed.

(** A request that passes the middleware is answered by the handler of
    the first route that matches it. *)
Lemma app_run now req st r param :
  lookup_route routes req = Some (r, param) ->
  authMiddleware now req = None ->
  app now req st = run (r_handler r) param now req st.
Proof.
  intros Hr Ha. unfold app. rewrite Hr, Ha. destruct (r_auth r); reflexivity.
Qed.

(** A literal last segment that differs from the one of the request. *)
Lemma matching_last_fixed m m' a b a' b' s x q au bd f auth h :
  String.eqb (lower s) (lower x) = false ->
  matching (Request m [a; b; x] q au bd f)
    (Route m' [Fixed a'; Fixed b'; Fixed s] auth h) = None.
Proof.
  intros E. unfold matching. cbn [r_method req_method r_path req_path].
  destruct (decide (m' = m)); [|reflexivity].
  cbn [match_path].
  destruct (String.eqb (lower a') (lower a)); [|reflexivity].
  destruct (String.eqb (lower b') (lower b)); [|reflexivity].
  rewrite E. reflexivity.
Qed.

Lemma matching_last_fixed_hit m a b s x q au bd f auth h :
  lower x = lower s ->
  matching (Request m [a; b; x] q au bd f)
    (Route m [Fixed a; Fixed b; Fixed s] auth h)
  = Some (Route m [Fixed a; Fixed b; Fixed s] auth h, None).
Proof.
  intros E. unfold matching. cbn [r_method req_method r_path req_path].
  destruct (decide (m = m)); [|congruence].
  cbn [match_path]. rewrite E, !String.eqb_refl. reflexivity.
Qed.

Lemma lookup_login q au bd f :
  lookup_route routes (Request POST ["api"; "admin"; "login"] q au bd f)
  = Some (Route POST [Fixed "api"; Fixed "admin"; Fixed "login"] false Login,
          None).
Proof. reflexivity. Qed.

Lemma lookup_delete name c id q au bd f :
  In (name, c)
     [("blog", BlogPost); ("photography", Photography); ("videos", Video);
      ("experience", Experience); ("projects", Project);
      ("skills", Skill); ("courses", Course); ("creatives", Creative)] ->
  id <> EmptyString ->
  exists r,
    lookup_route routes (Request DELETE ["api"; name; id] q au bd f)
    = Some (r, Some id)
    /\ run (r_handler r) (Some id) = run (Delete c) (Some id).
Proof.
  intros Hin Hid. destruct id as [|a s]; [congruence|].
  simpl in Hin.
  repeat (destruct Hin as [Hin|Hin];
          [inversion Hin; subst; eexists; split; reflexivity|]).
  destruct Hin.
Qed.

Lemma lookup_create name c q au bd f :
  In (name, c)
     [("photography", Photography); ("videos", Video);
      ("experience", Experience); ("projects", Project);
      ("skills", Skill); ("courses", Course); ("creatives", Creative)] ->
  lookup_route routes (Request POST ["api"; name] q au bd f)
  = Some (Route POST [Fixed "api"; Fixed name] true (Create c), None).
Proof.
  intros Hin. simpl in Hin.
  repeat (destruct Hin as [Hin|Hin]; [inversion Hin; subst; reflexivity|]).
  destruct Hin.
Qed.

Lemma lookup_reorder name c x q au bd f :
  In (name, c)
     [("photography", Photography); ("videos", Video);
      ("experience", Experience); ("projects", Project);
      ("skills", Skill); ("courses", Course); ("creatives", Creative)] ->
  lower x = "reorder" ->
  lookup_route routes (Request PUT ["api"; name; x] q au bd f)
  = Some (Route PUT [Fixed "api"; Fixed name; Fixed "reorder"] true (Reorder c),
          None).
Proof.
  intros Hin Hx.
  simpl in Hin.
  repeat (destruct Hin as [Hin|Hin];
    [inversion Hin; subst; unfold routes, crud; cbn [List.app];
     repeat (rewrite lookup_route_skip by reflexivity);
     apply lookup_route_hit; apply matching_last_fixed_hit; exact Hx |]).
  destruct Hin.
Qed.

Lemma lookup_update name c id q au bd f :
  In (name, c)
     [("photography", Photography); ("videos", Video);
      ("experience", Experience); ("projects", Project);
      ("skills", Skill); ("courses", Course); ("creatives", Creative)] ->
  id <> EmptyString -> lower id <> "reorder" ->
  lookup_route routes (Request PUT ["api"; name; id] q au bd f)
  = Some (Route PUT [Fixed "api"; Fixed name; Param] true (Update c), Some id).
Proof.
  intros Hin Hid Hre.
  assert (E : String.eqb (lower "reorder") (lower id) = false).
  { apply String.eqb_neq. change (lower "reorder") with "reorder". congruence. }
  destruct id as [|a s]; [congruence|].
  simpl in Hin.
  repeat (destruct Hin as [Hin|Hin];
    [inversion Hin; subst; unfold routes, crud; cbn [List.app];
     repeat (rewrite lookup_route_skip by reflexivity);
     rewrite lookup_route_skip by (apply matching_last_fixed; exact E);
     repeat (rewrite lookup_route_skip by reflexivity);
     apply lookup_route_hit; reflexivity |]).
  destruct Hin.
Qed.

Lemma lookup_blog_put x q au bd f :
  x <> EmptyString ->
  lookup_route routes (Request PUT ["api"; "blog"; x] q au bd f)
  = Some (Route PUT [Fixed "api"; Fixed "blog"; Param] true BlogUpdate, Some x).
Proof. intros Hx. destruct x; [congruence | reflexivity]. Qed.

Lemma lookup_blog_post q au bd f :
  lookup_route routes (Request POST ["api"; "blog"] q au bd f)
  = Some (Route POST [Fixed "api"; Fixed "blog"] true BlogCreate, None).
Proof. reflexivity. Qed.

End RouteFacts.

(** ** Updates by identifier *)

Section UpdateFacts.
Import Server.
Local Open Scope string_scope.
Context `{Externals}.

Lemma castFields_lookup c update set key :
  castFields c update = inr set ->
  set !! key = update !! key ≫= cast_key c key.
Proof.
  unfold castFields. case_bool_decide; [|discriminate].
  intros E. inversion E; subst. apply map_lookup_imap.
Qed.

(** An update object that holds fields only is cast to a [$set]. *)
Lemma findByIdAndUpdate_fields c id update now docs :
  fields_only update = true ->
  findByIdAndUpdate c id update now docs
  = match castFields c update with
    | inl e => inl e
    | inr set =>
        match id with
        | None => inr (None, docs)
        | Some idv =>
            match castObjectId idv with
            | None => inl CastError
            | Some i =>
                match lookup_id i docs with
                | None => inr (None, docs)
                | Some d =>
                    if duplicate_key c docs (apply_update set now d)
                    then inl DuplicateKey
                    else inr (Some (hydrate c (apply_update set now d)),
                              replace_doc (apply_update set now d) docs)
                end
            end
        end
    end.
Proof.
  intros F. unfold findByIdAndUpdate, castUpdate. rewrite F.
  destruct (castFields c update) as [e|set]; [reflexivity|].
  destruct id as [idv|]; [|reflexivity].
  destruct (castObjectId idv) as [i|]; [|reflexivity].
  destruct (lookup_id i docs) as [d|]; reflexivity.
Qed.




Lemma construct_dom c ps body doc key v :
  construct c ps body = inr doc -> doc !! key = Some v ->
  exists p, In p ps /\ p_name p = key.
Proof.
  revert doc. induction ps as [|p ps IH]; intros doc E Hl; simpl in E.
  - inversion E; subst. rewrite lookup_empty in Hl. discriminate.
  - destruct (construct c ps body) as [e|doc0]; [discriminate|].
    assert (Hrest : doc0 !! key = Some v -> exists p0, In p0 (p :: ps) /\ p_name p0 = key).
    { intros Hv. destruct (IH doc0 eq_refl Hv) as (p0 & Hin & Hn).
      exists p0. split; [right; exact Hin | exact Hn]. }
    destruct (decide (p_name p = key)) as [Heq|Hne].
    { exists p. split; [left; reflexivity | exact Heq]. }
    destruct (body !! p_name p) as [w|].
    + destruct (cast c p w); [|discriminate]. inversion E; subst.
      rewrite lookup_insert_ne in Hl by exact Hne. auto.
    + destruct (p_default p); inversion E; subst;
        [rewrite lookup_insert_ne in Hl by exact Hne|]; auto.
Qed.

Lemma construct_lookup c ps body doc p :
  NoDup (map p_name ps) ->
  construct c ps body = inr doc -> In p ps ->
  doc !! p_name p
  = match body !! p_name p with
    | Some v => cast c p v
    | None => p_default p
    end.
Proof.
  revert doc. induction ps as [|p0 ps IH]; intros doc Hnd E Hin; [destruct Hin|].
  simpl in E. inversion Hnd as [|? ? Hfresh Hnd']; subst.
  destruct (construct c ps body) as [e|doc0] eqn:E0; [discriminate|].
  destruct Hin as [->|Hin].
  - assert (Hnone : doc0 !! p_name p = None).
    { destruct (doc0 !! p_name p) as [v|] eqn:Hv; [|reflexivity].
      destruct (construct_dom _ _ _ _ _ _ E0 Hv) as (p' & Hin' & Hn').
      exfalso. apply Hfresh. rewrite <- Hn'.
      apply list_elem_of_In, in_map. exact Hin'. }
    destruct (body !! p_name p) as [w|].
    + destruct (cast c p w) as [w'|]; [|discriminate]. inversion E; subst.
      apply lookup_insert_eq.
    + destruct (p_default p) as [w|]; inversion E; subst;
        [apply lookup_insert_eq | exact Hnone].
  - assert (Hne : p_name p0 <> p_name p).
    { intros Heq. apply Hfresh. rewrite Heq.
      apply list_elem_of_In, in_map. exact Hin. }
    specialize (IH doc0 Hnd' eq_refl Hin).
    destruct (body !! p_name p0) as [w|].
    + destruct (cast c p0 w); [|discriminate]. inversion E; subst.
      rewrite lookup_insert_ne by exact Hne. exact IH.
    + destruct (p_default p0); inversion E; subst;
        [rewrite lookup_insert_ne by exact Hne|]; exact IH.
Qed.

Lemma schema_NoDup c : NoDup (map p_name (schema c)).
Proof.
  destruct c;
    apply (bool_decide_unpack _); vm_compute; reflexivity.
Qed.

Lemma path_of_None c key p :
  path_of c key = None -> In p (schema c) -> p_name p <> key.
Proof.
  unfold path_of. intros E Hin Hn.
  pose proof (find_none _ _ E p Hin) as Hf. simpl in Hf.
  apply String.eqb_neq in Hf. congruence.
Qed.

(** The defaults of a schema, path by path. *)
Lemma defaults_None ps key :
  (forall p, In p ps -> p_name p <> key) -> defaults ps !! key = None.
Proof.
  induction ps as [|p ps IH]; intros Hno; simpl; [apply lookup_empty|].
  assert (IH' : defaults ps !! key = None).
  { apply IH. intros q Hq. apply Hno. right. exact Hq. }
  destruct (p_default p); [|exact IH'].
  rewrite lookup_insert_ne; [exact IH'|].
  apply Hno. left. reflexivity.
Qed.

Lemma defaults_lookup ps p :
  NoDup (map p_name ps) -> In p ps -> defaults ps !! p_name p = p_default p.
Proof.
  induction ps as [|p0 ps IH]; intros Hnd Hin; [destruct Hin|].
  inversion Hnd as [|? ? Hfresh Hnd']; subst. simpl.
  destruct Hin as [->|Hin].
  - destruct (p_default p) as [v|]; [apply lookup_insert_eq|].
    apply defaults_None. intros q Hq Hn. apply Hfresh. rewrite <- Hn.
    apply list_elem_of_In, in_map. exact Hq.
  - assert (Hne : p_name p0 <> p_name p).
    { intros Heq. apply Hfresh. rewrite Heq.
      apply list_elem_of_In, in_map. exact Hin. }
    destruct (p_default p0); [rewrite lookup_insert_ne by exact Hne|];
      apply IH; assumption.
Qed.

Lemma has_id_eq id d : has_id id d = true <-> _id d = id.
Proof. unfold has_id. apply String.eqb_eq. Qed.

Lemma lookup_id_Some i docs d :
  lookup_id i docs = Some d -> In d docs /\ _id d = i.
Proof.
  unfold lookup_id. intros E. apply find_some in E as [Hin Hid].
  split; [exact Hin | apply has_id_eq; exact Hid].
Qed.

Lemma Forall2_diag (R : document -> document -> Prop) docs :
  (forall d, R d d) -> Forall2 R docs docs.
Proof. intros Hrefl. induction docs; constructor; auto. Qed.

(** [replace_doc] puts the new document where [lookup_id] found the old
    one and leaves the rest of the collection alone. *)
Lemma replace_doc_Forall2 (R : document -> document -> Prop) d d' docs :
  (forall x, R x x) ->
  lookup_id (_id d') docs = Some d -> R d d' ->
  Forall2 R docs (replace_doc d' docs).
Proof.
  intros Hrefl. unfold lookup_id.
  induction docs as [|a docs IH]; intros Hl HR; simpl in *; [constructor|].
  destruct (has_id (_id d') a) eqn:E.
  - inversion Hl; subst. constructor; [exact HR|].
    apply Forall2_diag. exact Hrefl.
  - constructor; [apply Hrefl | apply IH; assumption].
Qed.

Lemma lookup_id_replace d d' docs :
  lookup_id (_id d') docs = Some d ->
  lookup_id (_id d') (replace_doc d' docs) = Some d'.
Proof.
  unfold lookup_id. induction docs as [|a docs IH]; simpl; [discriminate|].
  destruct (has_id (_id d') a) eqn:E.
  - intros _. simpl. unfold has_id. rewrite String.eqb_refl. reflexivity.
  - intros Hl. simpl. rewrite E. exact (IH Hl).
Qed.

Lemma set_collection_same st c docs : set_collection st c docs c = docs.
Proof. unfold set_collection. destruct (decide (c = c)); congruence. Qed.

Lemma set_collection_other st c docs c' :
  c' <> c -> set_collection st c docs c' = st c'.
Proof. intros Hne. unfold set_collection. destruct (decide (c' = c)); congruence. Qed.

Lemma no_unique_index c docs d :
  c <> BlogPost -> duplicate_key c docs d = false.
Proof. intros Hc. destruct c; try reflexivity. congruence. Qed.






End UpdateFacts.



(** ** The publication date of blog posts *)


Section PublishFacts.
Import Server.
Local Open Scope string_scope.
Context `{Externals}.






End PublishFacts.


(** ** Reordering *)

(** The claim C8 as stated fails: the update of a reorder also moves
    [updatedAt] to the time of the request. *)
Lemma C8_counterexample :
  let photo := Server.sample_photo "65f000000000000000000001" 0 in
  let st := Server.set_collection Server.empty_store Server.Photography [photo] in
  let req :=
    Server.Request Server.PUT ["api"; "photography"; "reorder"]%string ∅
      (Some "Bearer good"%string)
      {[ "items"%string :=
           Server.VArr [Server.VObj [("id"%string, Server.VStr "65f000000000000000000001");
                                     ("order"%string, Server.VNum 5)]] ]}
      None in
  fst (@Server.app Server.sample 9 req st)
    = Server.Response 200 (Server.Message "Updated")
  /\ map Server.updatedAt (st Server.Photography) = [1]
  /\ map Server.updatedAt (snd (@Server.app Server.sample 9 req st) Server.Photography)
     = [9].
Proof.
  split; [|split]; vm_compute; reflexivity.
Qed.

Section ReorderFacts.
Import Server.
Local Open Scope string_scope.
Context `{Externals}.

Lemma reordered_refl now ids d : reordered now ids d d.
Proof. repeat split; auto. Qed.

Lemma reordered_trans now ids d1 d2 d3 :
  reordered now ids d1 d2 -> reordered now ids d2 d3 -> reordered now ids d1 d3.
Proof.
  intros (I1 & C1 & P1 & U1) (I2 & C2 & P2 & U2).
  split; [congruence|]. split; [congruence|].
  split; [intros k Hk; rewrite P2, P1; auto|].
  destruct U2 as [->|[U2 N2]]; [exact U1|].
  right. split; [exact U2|]. rewrite <- I1. exact N2.
Qed.

Lemma order_update_lookup item key :
  key <> "order" -> order_update item !! key = None.
Proof.
  intros Hk. unfold order_update.
  destruct (property item "order"); [|apply lookup_empty].
  apply lookup_singleton_ne. congruence.
Qed.

(** The update of a reorder holds at most the field [order]. *)
Lemma order_update_fields item : fields_only (order_update item) = true.
Proof.
  unfold order_update, fields_only.
  destruct (property item "order"); apply bool_decide_eq_true_2;
    [apply map_Forall_singleton; reflexivity | apply map_Forall_empty].
Qed.

(** One update of a reorder, on every document of the collection. *)
Lemma reorder_step c now item ids docs r docs' :
  (forall i, named item i -> In i ids) ->
  findByIdAndUpdate c (property item "id") (order_update item) now docs
    = inr (r, docs') ->
  Forall2 (reordered now ids) docs docs'.
Proof.
  intros Hids. rewrite findByIdAndUpdate_fields by apply order_update_fields.
  destruct (castFields c (order_update item)) as [e|set] eqn:Hc;
    [discriminate|].
  assert (Hrefl : Forall2 (reordered now ids) docs docs).
  { apply Forall2_diag. intros. apply reordered_refl. }
  destruct (property item "id") as [idv|] eqn:Hp;
    [|intros E; inversion E; subst; exact Hrefl].
  destruct (castObjectId idv) as [i|] eqn:Hi; [|discriminate].
  destruct (lookup_id i docs) as [d|] eqn:Hl;
    [|intros E; inversion E; subst; exact Hrefl].
  destruct (duplicate_key c docs (apply_update set now d)); [discriminate|].
  intros E. inversion E; subst. clear E.
  pose proof (lookup_id_Some _ _ _ Hl) as [Hin Hid].
  apply replace_doc_Forall2 with (d := d);
    [intros; apply reordered_refl | simpl; rewrite Hid; exact Hl|].
  unfold reordered. simpl.
  split; [reflexivity|]. split; [reflexivity|].
  split.
  { intros key Hk. apply lookup_union_r.
    rewrite (castFields_lookup _ _ _ key Hc), order_update_lookup by exact Hk.
    reflexivity. }
  right. split; [reflexivity|].
  apply Hids. unfold named. rewrite Hp. simpl. congruence.
Qed.

Lemma Forall2_reordered_trans now ids l1 l2 l3 :
  Forall2 (reordered now ids) l1 l2 -> Forall2 (reordered now ids) l2 l3 ->
  Forall2 (reordered now ids) l1 l3.
Proof.
  intros F1. revert l3. induction F1 as [|a b l1 l2 Hab _ IH]; intros l3 F2.
  - inversion F2; subst. constructor.
  - inversion F2; subst. constructor; [|apply IH; assumption].
    eapply reordered_trans; eassumption.
Qed.

(** A whole batch, on every document of the collection. *)
Lemma reorder_all_frame c now ids :
  forall items docs,
    (forall item i, In item items -> named item i -> In i ids) ->
    Forall2 (reordered now ids) docs (snd (reorder_all c now items docs)).
Proof.
  induction items as [|item items IH]; intros docs Hids; simpl.
  - apply Forall2_diag. intros. apply reordered_refl.
  - assert (Hrest : forall item' i, In item' items -> named item' i -> In i ids).
    { intros item' i Hin. apply Hids. right. exact Hin. }
    destruct (findByIdAndUpdate c (property item "id") (order_update item)
                now docs) as [e|[r docs1]] eqn:E.
    + specialize (IH docs Hrest).
      destruct (reorder_all c now items docs) as [e' docs']. exact IH.
    + eapply Forall2_reordered_trans; [|apply IH; exact Hrest].
      eapply reorder_step; [|exact E].
      intros i. apply Hids. left. reflexivity.
Qed.

(** A rejected update costs the batch its answer and nothing else. *)
Lemma reorder_all_rejected c now bad e :
  forall l1 l2 docs,
    (forall docs', findByIdAndUpdate c (property bad "id") (order_update bad)
                     now docs' = inl e) ->
    fst (reorder_all c now (l1 ++ bad :: l2) docs) <> None
    /\ snd (reorder_all c now (l1 ++ bad :: l2) docs)
       = snd (reorder_all c now (l1 ++ l2) docs).
Proof.
  induction l1 as [|item l1 IH]; intros l2 docs Hbad; simpl.
  - rewrite Hbad. destruct (reorder_all c now l2 docs) as [e' docs'].
    split; [discriminate | reflexivity].
  - destruct (findByIdAndUpdate c (property item "id") (order_update item)
                now docs) as [e1|[r docs1]].
    + destruct (IH l2 docs Hbad) as [_ IH2].
      destruct (reorder_all c now (l1 ++ bad :: l2) docs) as [e' d'].
      destruct (reorder_all c now (l1 ++ l2) docs) as [e'' d''].
      split; [discriminate | exact IH2].
    + apply IH. exact Hbad.
Qed.

Lemma reorder_all_app c now :
  forall l1 l2 docs,
    snd (reorder_all c now (l1 ++ l2) docs)
    = snd (reorder_all c now l2 (snd (reorder_all c now l1 docs))).
Proof.
  induction l1 as [|item l1 IH]; intros l2 docs; simpl; [reflexivity|].
  destruct (findByIdAndUpdate c (property item "id") (order_update item)
              now docs) as [e|[r docs1]].
  - specialize (IH l2 docs).
    destruct (reorder_all c now (l1 ++ l2) docs) as [e1 d1].
    destruct (reorder_all c now l1 docs) as [e2 d2]. exact IH.
  - apply IH.
Qed.

Lemma lookup_id_Forall2 (R : document -> document -> Prop) i docs docs' d :
  (forall x y, R x y -> _id y = _id x) ->
  Forall2 R docs docs' ->
  lookup_id i docs = Some d ->
  exists d', lookup_id i docs' = Some d' /\ R d d'.
Proof.
  intros Hid F. unfold lookup_id.
  induction F as [|x y l l' Hxy _ IH]; simpl; [discriminate|].
  unfold has_id at 1 3. rewrite (Hid _ _ Hxy).
  destruct (String.eqb (_id x) i).
  - intros E. inversion E; subst. exists y. auto.
  - exact IH.
Qed.

Lemma order_path c :
  path_of c "order" = Some (Path "order" SNumber (Some (VNum 0))).
Proof. destruct c; reflexivity. Qed.

Lemma castFields_order c item v :
  property item "order" = Some v ->
  castFields c (order_update item)
  = match cast c (Path "order" SNumber (Some (VNum 0))) v with
    | Some v' => inr {[ "order" := v' ]}
    | None => inl CastError
    end.
Proof.
  intros Hv. unfold castFields, order_update. rewrite Hv.
  destruct (cast c (Path "order" SNumber (Some (VNum 0))) v) as [v'|] eqn:Hc.
  - rewrite bool_decide_eq_true_2.
    + f_equal. apply map_eq. intros k.
      rewrite map_lookup_imap. destruct (decide (k = "order")) as [->|Hk].
      * rewrite !lookup_singleton_eq. simpl. unfold cast_key.
        rewrite order_path. exact Hc.
      * rewrite !lookup_singleton_ne by congruence. reflexivity.
    + apply map_Forall_singleton. unfold castable. rewrite order_path, Hc.
      apply bool_decide_eq_true_2. eauto.
  - rewrite bool_decide_eq_false_2; [reflexivity|].
    intros HF. apply map_Forall_singleton in HF. unfold castable in HF.
    rewrite order_path, Hc in HF. apply bool_decide_eq_true_1 in HF.
    destruct HF as [x Hx]. discriminate.
Qed.

(** The identifiers the items of a list name. *)
Lemma named_ids (items : list value) :
  exists ids, forall i,
    In i ids <-> exists item, In item items /\ named item i.
Proof.
  induction items as [|item items [ids Hids]].
  - exists []. intros i. split; [intros [] | intros (x & [] & _)].
  - unfold named in *.
    destruct (property item "id" ≫= castObjectId) as [j|] eqn:E.
    + exists (j :: ids). intros i. split.
      * intros [<-|Hin].
        -- exists item. split; [left; reflexivity | exact E].
        -- apply Hids in Hin as (x & Hx & Hn). exists x. split; [right|]; auto.
      * intros (x & [<-|Hx] & Hn).
        -- left. congruence.
        -- right. apply Hids. eauto.
    + exists ids. intros i. split.
      * intros Hin. apply Hids in Hin as (x & Hx & Hn).
        exists x. split; [right|]; auto.
      * intros (x & [<-|Hx] & Hn).
        -- congruence.
        -- apply Hids. eauto.
Qed.

(** The last accepted assignment to an identifier decides the order of
    its document. *)
Lemma reorder_all_applied c now l1 item l2 docs idv i v v' d :
  c <> BlogPost ->
  property item "id" = Some idv -> castObjectId idv = Some i ->
  property item "order" = Some v ->
  cast c (Path "order" SNumber (Some (VNum 0))) v = Some v' ->
  (forall item', In item' l2 -> ~ named item' i) ->
  lookup_id i docs = Some d ->
  exists d',
    lookup_id i (snd (reorder_all c now (l1 ++ item :: l2) docs)) = Some d'
    /\ paths d' !! "order" = Some v' /\ updatedAt d' = now.
Proof.
  intros Hc Hp Hi Hv Hcast Hlater Hl.
  rewrite reorder_all_app.
  destruct (named_ids l1) as [ids1 Hids1].
  pose proof (reorder_all_frame c now ids1 l1 docs) as F1.
  destruct (lookup_id_Forall2 _ i _ _ d
              (fun x y (R : reordered now ids1 x y) => proj1 R)
              (F1 (fun item0 j Hin Hn => proj2 (Hids1 j) (ex_intro _ item0 (conj Hin Hn))))
              Hl) as (d1 & Hl1 & _).
  set (docs1 := snd (reorder_all c now l1 docs)) in *.
  simpl. rewrite findByIdAndUpdate_fields by apply order_update_fields.
  rewrite (castFields_order c item v Hv), Hcast, Hp, Hi, Hl1.
  rewrite no_unique_index by exact Hc.
  set (d1' := apply_update {[ "order" := v' ]} now d1).
  assert (Hid1 : _id d1' = i).
  { simpl. apply lookup_id_Some in Hl1. tauto. }
  assert (Hl1' : lookup_id i (replace_doc d1' docs1) = Some d1').
  { rewrite <- Hid1. apply lookup_id_replace with (d := d1).
    rewrite Hid1. exact Hl1. }
  destruct (named_ids l2) as [ids2 Hids2].
  pose proof (reorder_all_frame c now ids2 l2 (replace_doc d1' docs1)) as F2.
  destruct (lookup_id_Forall2 _ i _ _ d1'
              (fun x y (R : reordered now ids2 x y) => proj1 R)
              (F2 (fun item0 j Hin Hn => proj2 (Hids2 j) (ex_intro _ item0 (conj Hin Hn))))
              Hl1') as (d2 & Hl2 & R2).
  exists d2. split; [exact Hl2|].
  destruct R2 as (_ & _ & _ & [->|[_ Hin]]).
  - split; [|reflexivity]. simpl. apply lookup_union_Some_l.
    apply lookup_singleton_eq.
  - exfalso. rewrite Hid1 in Hin. apply Hids2 in Hin as (x & Hx & Hn).
    exact (Hlater x Hx Hn).
Qed.

(** C8 (amended). A reorder batch leaves every other collection alone and
    keeps the documents of its collection in place. Each document keeps
    its identifier, its creation time and every path other than [order];
    a document is either untouched or has [updatedAt] moved to the time of
    the request, and it is untouched when no item of the batch names it.
    The last item that names a stored document and whose order casts
    decides the order of that document. The answer is 200 [Updated] or a
    400; an item whose order or whose identifier does not cast makes the
    answer a 400 while the collection ends as the batch without that item
    leaves it: nothing is rolled back. *)
Theorem C8_reorder_batch :
  forall c now req st items resp st',
    req_body req !! "items" = Some (VArr items) ->
    reorder_handler c now req st = (resp, st') ->
    (forall c', c' <> c -> st' c' = st c')
    /\ Forall2 (fun d d' =>
         _id d' = _id d /\ createdAt d' = createdAt d
         /\ (forall key, key <> "order" -> paths d' !! key = paths d !! key)
         /\ (d' = d \/ updatedAt d' = now)
         /\ ((forall item, In item items -> ~ named item (_id d)) -> d' = d))
         (st c) (st' c)
    /\ (resp = Response 200 (Message "Updated") \/ status resp = 400)
    /\ (c <> BlogPost -> existsb is_null items = false ->
        forall l1 item l2 idv i v v' d,
          items = (l1 ++ item :: l2)%list ->
          property item "id" = Some idv -> castObjectId idv = Some i ->
          property item "order" = Some v ->
          cast c (Path "order" SNumber (Some (VNum 0))) v = Some v' ->
          (forall item', In item' l2 -> ~ named item' i) ->
          lookup_id i (st c) = Some d ->
          exists d',
            lookup_id i (st' c) = Some d'
            /\ paths d' !! "order" = Some v' /\ updatedAt d' = now)
    /\ (existsb is_null items = false ->
        forall l1 bad l2,
          items = (l1 ++ bad :: l2)%list ->
          (exists v, property bad "order" = Some v
                     /\ cast c (Path "order" SNumber (Some (VNum 0))) v = None)
          \/ (exists idv, property bad "id" = Some idv
                          /\ castObjectId idv = None) ->
          status resp = 400
          /\ st' c
             = snd (reorder_handler c now
                      (Request (req_method req) (req_path req) (req_query req)
                         (authorization req)
                         (<["items" := VArr (l1 ++ l2)]> (req_body req))
                         (req_file req)) st) c).
Proof.
  intros c now req st items resp st' Hitems E.
  unfold reorder_handler in E. rewrite Hitems in E.
  assert (Hset : forall docs, set_collection st c docs c = docs).
  { intros docs. unfold set_collection.
    destruct (decide (c = c)); [reflexivity | congruence]. }
  assert (Hother : forall docs c', c' <> c -> set_collection st c docs c' = st c').
  { intros docs c' Hc'. unfold set_collection.
    destruct (decide (c' = c)); [congruence | reflexivity]. }
  destruct (existsb is_null items) eqn:Hnull.
  { inversion E; subst resp st'. clear E.
    split; [reflexivity|]. split.
    { apply Forall2_diag. intros d. repeat split; auto. }
    split; [right; reflexivity|]. split; intros; discriminate. }
  destruct (named_ids items) as [ids Hids].
  pose proof (reorder_all_frame c now ids items (st c)
                (fun item j Hin Hn =>
                   proj2 (Hids j) (ex_intro _ item (conj Hin Hn)))) as F.
  assert (Hst : st' c = snd (reorder_all c now items (st c))
                /\ (forall c', c' <> c -> st' c' = st c')
                /\ (resp = Response 200 (Message "Updated")
                    \/ status resp = 400)
                /\ (fst (reorder_all c now items (st c)) <> None ->
                    status resp = 400)).
  { destruct (reorder_all c now items (st c)) as [[e|] docs];
      inversion E; subst resp st'; simpl.
    - split; [apply Hset|]. split; [intros; apply Hother; assumption|].
      split; [right; reflexivity | reflexivity].
    - split; [apply Hset|]. split; [intros; apply Hother; assumption|].
      split; [left; reflexivity | congruence]. }
  destruct Hst as (Hc & Ho & Hr & H400).
  split; [exact Ho|]. split.
  { rewrite Hc. eapply Forall2_impl; [exact F|].
    intros d d' (I & C & P & U). split; [exact I|]. split; [exact C|].
    split; [exact P|]. split.
    - destruct U as [->|[U _]]; auto.
    - intros Hnot. destruct U as [->|[_ Hin]]; [reflexivity|].
      apply Hids in Hin as (item & Hin & Hn). exfalso. exact (Hnot item Hin Hn). }
  split; [exact Hr|]. split.
  { intros HcB _ l1 item l2 idv i v v' d -> Hp Hi Hv Hcast Hlater Hl.
    rewrite Hc. eapply reorder_all_applied; eassumption. }
  intros _ l1 bad l2 -> Hrejected.
  assert (Hbad : forall docs',
            findByIdAndUpdate c (property bad "id") (order_update bad) now docs'
            = inl CastError).
  { intros docs'.
    rewrite findByIdAndUpdate_fields by apply order_update_fields.
    destruct Hrejected as [(v & Hv & Hcast)|(idv & Hp & Hcast)].
    - rewrite (castFields_order c bad v Hv), Hcast. reflexivity.
    - rewrite Hp, Hcast. unfold castFields. case_bool_decide; reflexivity. }
  destruct (reorder_all_rejected c now bad CastError l1 l2 (st c) Hbad)
    as [Hfst Hsnd].
  split; [apply H400; exact Hfst|].
  rewrite Hc, Hsnd. unfold reorder_handler. cbn [req_body].
  rewrite lookup_insert_eq.
  assert (Hnull' : existsb is_null (l1 ++ l2) = false).
  { rewrite existsb_app in Hnull |- *. simpl in Hnull.
    apply orb_false_iff in Hnull as [H1 H2].
    apply orb_false_iff in H2 as [_ H2]. rewrite H1, H2. reflexivity. }
  rewrite Hnull'.
  destruct (reorder_all c now (l1 ++ l2) (st c)) as [[e|] docs]; simpl;
    rewrite Hset; reflexivity.
Qed.

End ReorderFacts.

Lemma C8_reorder_batch_witness :
  let photo := Server.sample_photo "65f000000000000000000001" 0 in
  let st := Server.set_collection Server.empty_store Server.Photography [photo] in
  let good :=
    Server.VObj [("id"%string, Server.VStr "65f000000000000000000001"); ("order"%string, Server.VNum 5)] in
  let bad :=
    Server.VObj [("id"%string, Server.VStr "65f000000000000000000002");
                 ("order"%string, Server.VStr "first")] in
  let req :=
    Server.Request Server.PUT ["api"; "photography"; "reorder"]%string ∅
      (Some "Bearer good"%string)
      {[ "items"%string := Server.VArr [good; bad] ]} None in
  Server.status
    (fst (@Server.reorder_handler Server.sample Server.Photography 9 req st))
  = 400
  /\ exists d',
       Server.lookup_id "65f000000000000000000001"
         (snd (@Server.reorder_handler Server.sample Server.Photography 9 req st)
            Server.Photography) = Some d'
       /\ Server.paths d' !! "order"%string = Some (Server.VNum 5)
       /\ Server.updatedAt d' = 9.
Proof.
  intros photo st good bad req.
  destruct (@C8_reorder_batch Server.sample Server.Photography 9 req st
              [good; bad]
              (fst (@Server.reorder_handler Server.sample Server.Photography 9 req st))
              (snd (@Server.reorder_handler Server.sample Server.Photography 9 req st)))
    as (_ & _ & _ & Happlied & Hpartial).
  - vm_compute. reflexivity.
  - apply surjective_pairing.
  - split.
    + apply (Hpartial eq_refl [good] bad []); [reflexivity|].
      left. exists (Server.VStr "first"). split; reflexivity.
    + apply (Happlied ltac:(discriminate) eq_refl [] good [bad]
               (Server.VStr "65f000000000000000000001") "65f000000000000000000001"%string (Server.VNum 5) (Server.VNum 5)
               photo); try reflexivity.
      intros item' [<-|[]] Hn. vm_compute in Hn. discriminate Hn.
Defined.

(** ** Listing *)


Section SortFacts.
Import Server.
Local Open Scope string_scope.

Lemma compare_values_keys a b :
  compare_values a b = compare_keys (sort_key a) (sort_key b).
Proof.
  destruct a as [[|x|x|x|x|x|x]|], b as [[|y|y|y|y|y|y]|];
    try reflexivity; unfold compare_values, compare_keys; simpl.
  - destruct x, y; reflexivity.
  - destruct (x ?= y)%Z; reflexivity.
  - destruct (x ?= y)%Z; reflexivity.
Qed.

Lemma compare_keys_Eq a b : compare_keys a b = Eq -> a = b.
Proof.
  destruct a as [[r1 n1] s1], b as [[r2 n2] s2]. unfold compare_keys. simpl.
  destruct (r1 ?= r2)%Z eqn:Hr; try discriminate.
  destruct (n1 ?= n2)%Z eqn:Hn; try discriminate.
  intros Hs. apply Z.compare_eq in Hr. apply Z.compare_eq in Hn.
  apply String.compare_eq_iff in Hs. congruence.
Qed.

Lemma string_compare_Lt_trans s1 s2 s3 :
  String.compare s1 s2 = Lt -> String.compare s2 s3 = Lt ->
  String.compare s1 s3 = Lt.
Proof.
  intros H1 H2.
  apply OrderedTypeEx.String_as_OT.cmp_lt in H1.
  apply OrderedTypeEx.String_as_OT.cmp_lt in H2.
  apply OrderedTypeEx.String_as_OT.cmp_lt.
  eapply OrderedTypeEx.String_as_OT.lt_trans; eassumption.
Qed.

Lemma compare_keys_Lt_trans a b c :
  compare_keys a b = Lt -> compare_keys b c = Lt -> compare_keys a c = Lt.
Proof.
  destruct a as [[r1 n1] s1], b as [[r2 n2] s2], c as [[r3 n3] s3].
  unfold compare_keys. simpl.
  destruct (Z.compare_spec r1 r2), (Z.compare_spec r2 r3); try discriminate;
    subst;
    try (intros _ _; destruct (Z.compare_spec r1 r3); try lia; reflexivity);
    try (intros H1 _; destruct (Z.compare_spec r1 r3); try lia; exact H1);
    try (intros _ H2; destruct (Z.compare_spec r2 r3); try lia; exact H2).
  rewrite Z.compare_refl.
  destruct (Z.compare_spec n1 n2), (Z.compare_spec n2 n3); try discriminate;
    subst;
    try (intros _ _; destruct (Z.compare_spec n1 n3); try lia; reflexivity);
    try (intros H1 _; destruct (Z.compare_spec n1 n3); try lia; exact H1);
    try (intros _ H2; destruct (Z.compare_spec n2 n3); try lia; exact H2).
  rewrite Z.compare_refl. apply string_compare_Lt_trans.
Qed.

Lemma compare_keys_antisym a b :
  compare_keys b a = CompOpp (compare_keys a b).
Proof.
  destruct a as [[r1 n1] s1], b as [[r2 n2] s2]. unfold compare_keys. simpl.
  rewrite (Z.compare_antisym r1 r2), (Z.compare_antisym n1 n2),
    (String.compare_antisym s2 s1).
  destruct (r1 ?= r2)%Z; simpl; try reflexivity.
  destruct (n1 ?= n2)%Z; simpl; reflexivity.
Qed.

Lemma compare_values_antisym a b :
  compare_values b a = CompOpp (compare_values a b).
Proof. rewrite !compare_values_keys. apply compare_keys_antisym. Qed.

Lemma compare_values_Eq_l a b c :
  compare_values a b = Eq -> compare_values a c = compare_values b c.
Proof.
  rewrite !compare_values_keys. intros E. apply compare_keys_Eq in E.
  rewrite E. reflexivity.
Qed.

Lemma compare_values_Eq_r a b c :
  compare_values b c = Eq -> compare_values a c = compare_values a b.
Proof.
  rewrite !compare_values_keys. intros E. apply compare_keys_Eq in E.
  rewrite E. reflexivity.
Qed.

Lemma compare_values_Lt_trans a b c :
  compare_values a b = Lt -> compare_values b c = Lt ->
  compare_values a c = Lt.
Proof. rewrite !compare_values_keys. apply compare_keys_Lt_trans. Qed.

Lemma compare_values_Gt_trans a b c :
  compare_values a b = Gt -> compare_values b c = Gt ->
  compare_values a c = Gt.
Proof.
  intros H1 H2.
  rewrite (compare_values_antisym c a).
  rewrite (compare_values_Lt_trans c b a); [reflexivity| |].
  - rewrite (compare_values_antisym b c), H2. reflexivity.
  - rewrite (compare_values_antisym a b), H1. reflexivity.
Qed.

#[export] Instance precedes_total spec : Total (precedes spec).
Proof.
  intros d1 d2. unfold precedes. induction spec as [|[key dir] spec IH]; simpl.
  - left. reflexivity.
  - rewrite (compare_values_antisym (field d1 key) (field d2 key)).
    destruct (compare_values (field d1 key) (field d2 key)), dir; simpl; auto.
Qed.

#[export] Instance precedes_trans spec : Transitive (precedes spec).
Proof.
  intros d1 d2 d3. unfold precedes.
  induction spec as [|[key dir] spec IH]; simpl; [reflexivity|].
  destruct (compare_values (field d1 key) (field d2 key)) eqn:E12.
  - rewrite (compare_values_Eq_l _ _ (field d3 key) E12).
    destruct (compare_values (field d2 key) (field d3 key)); auto.
  - destruct (compare_values (field d2 key) (field d3 key)) eqn:E23.
    + rewrite (compare_values_Eq_r (field d1 key) _ _ E23), E12. auto.
    + rewrite (compare_values_Lt_trans _ _ _ E12 E23). auto.
    + destruct dir; discriminate.
  - destruct (compare_values (field d2 key) (field d3 key)) eqn:E23.
    + rewrite (compare_values_Eq_r (field d1 key) _ _ E23), E12. auto.
    + destruct dir; discriminate.
    + rewrite (compare_values_Gt_trans _ _ _ E12 E23). auto.
Qed.

(** [sort] puts the documents it is given in an order in which every
    document may stand before every later one. *)
Lemma sort_sorted spec docs :
  StronglySorted (precedes spec) (sort spec docs) /\ sort spec docs ≡ₚ docs.
Proof.
  split.
  - apply StronglySorted_merge_sort; apply _.
  - apply merge_sort_Permutation.
Qed.

End SortFacts.

Section ListFacts.
Import Server.
Local Open Scope string_scope.
Context `{Externals}.

Lemma app_list now req st name c :
  In (name, c)
     [("photography", Photography); ("videos", Video);
      ("experience", Experience); ("projects", Project);
      ("skills", Skill); ("courses", Course); ("creatives", Creative)] ->
  req_method req = GET -> req_path req = ["api"; name] ->
  app now req st = (list_handler c req st, st).
Proof.
  intros Hin Hm Hp. destruct req as [m p q a b f]. simpl in Hm, Hp. subst m p.
  simpl in Hin.
  repeat (destruct Hin as [Hin|Hin];
          [inversion Hin; subst; reflexivity|]).
  destruct Hin.
Qed.



Lemma find_all docs : find [] docs = docs.
Proof.
  unfold find, matches. simpl. induction docs as [|d docs IH]; simpl; congruence.
Qed.




End ListFacts.


(* ================================================================= *)
(** * Further properties of the server *)

(** ** Login *)

Section LoginFacts.
Import Server.
Local Open Scope string_scope.
Context `{Externals}.

(** X1. [POST /api/admin/login] stands before no middleware: whatever the
    [Authorization] header, the answer is the one of the login handler
    and the store stays as it is. Without the two secrets in the
    environment the answer is 500 whatever the password; a token is
    answered exactly when the secrets are set and bcrypt accepts the
    password, and it is the token signed at the time of the request; a
    password that bcrypt refuses is answered 401. *)
Theorem X1_login :
  forall now req st,
    req_method req = POST -> req_path req = ["api"; "admin"; "login"] ->
    app now req st = (login_handler now req, st)
    /\ (auth_configured = false ->
        login_handler now req
        = Response 500 (Message "Server auth not configured"))
    /\ (forall token,
          login_handler now req = Response 200 (TokenBody token)
          <-> auth_configured = true
              /\ bcrypt_compare (req_body req !! "password") = Some true
              /\ token = jwt_sign now)
    /\ (auth_configured = true ->
        bcrypt_compare (req_body req !! "password") = Some false ->
        login_handler now req = Response 401 (Message "Invalid password"))
    /\ (status (login_handler now req) = 200
        \/ status (login_handler now req) = 401
        \/ status (login_handler now req) = 500).
Proof.
  intros now req st Hm Hp.
  destruct req as [m p q au bd f]. simpl in Hm, Hp. subst m p.
  split.
  { unfold app. rewrite lookup_login. reflexivity. }
  unfold login_handler. cbn [req_body].
  destruct auth_configured; cbn [negb].
  - destruct (bcrypt_compare (bd !! "password")) as [[|]|].
    + split; [discriminate|]. split.
      { intros token. split.
        - intros E. inversion E. auto.
        - intros (_ & _ & ->). reflexivity. }
      split; [discriminate|]. left. reflexivity.
    + split; [discriminate|]. split.
      { intros token. split; [discriminate|]. intros (_ & E & _). discriminate. }
      split; [reflexivity|]. right. left. reflexivity.
    + split; [discriminate|]. split.
      { intros token. split; [discriminate|]. intros (_ & E & _). discriminate. }
      split; [discriminate|]. right. right. reflexivity.
  - split; [reflexivity|]. split.
    { intros token. split; [discriminate|]. intros (E & _). discriminate. }
    split; [discriminate|]. right. right. reflexivity.
Qed.

End LoginFacts.

Lemma X1_login_witness :
  let req :=
    Server.Request Server.POST ["api"; "admin"; "login"]%string ∅ None
      {[ "password"%string := Server.VStr "secret" ]} None in
  @Server.app Server.sample 7 req Server.empty_store
  = (@Server.login_handler Server.sample 7 req, Server.empty_store).
Proof.
  intros req.
  refine (proj1 (@X1_login Server.sample 7 req Server.empty_store _ _));
    reflexivity.
Defined.

(** ** The header of the admin client and the middleware *)

Section BearerFacts.
Import Server AdminAuth.
Local Open Scope string_scope.
Context `{Externals}.

Lemma split_space_word w : spaceless w = true -> split_space w = [w].
Proof.
  induction w as [|a w IH]; intros Hw; [reflexivity|].
  simpl in *. destruct (Ascii.eqb a " "); [discriminate|].
  rewrite IH by exact Hw. reflexivity.
Qed.

Lemma split_space_app w rest :
  spaceless w = true ->
  split_space (w +:+ String " " rest) = w :: split_space rest.
Proof.
  induction w as [|a w IH]; intros Hw; [reflexivity|].
  simpl in *. destruct (Ascii.eqb a " "); [discriminate|].
  rewrite IH by exact Hw. reflexivity.
Qed.

Lemma bearer_token_words scheme token m p q bd f :
  spaceless scheme = true -> spaceless token = true ->
  bearer_token (Request m p q (Some (scheme +:+ " " +:+ token)) bd f)
  = Some token.
Proof.
  intros Hs Ht. unfold bearer_token. cbn [authorization].
  change (scheme +:+ " " +:+ token) with (scheme +:+ String " " token).
  rewrite split_space_app by exact Hs.
  rewrite split_space_word by exact Ht. reflexivity.
Qed.

Lemma authMiddleware_words now scheme token m p q bd f :
  spaceless scheme = true -> spaceless token = true ->
  token <> EmptyString ->
  authMiddleware now (Request m p q (Some (scheme +:+ " " +:+ token)) bd f)
  = if jwt_verify token now then None
    else Some (Response 401 (Message "Invalid token")).
Proof.
  intros Hs Ht Hne. unfold authMiddleware.
  rewrite bearer_token_words by assumption.
  destruct token; [congruence | reflexivity].
Qed.

(** X2. The middleware reads the second word of the [Authorization]
    header, whatever the first: for a header made of a scheme and a
    non-empty token, neither holding a space, the token is the one
    verified, and the request goes on exactly when it verifies. The
    header of the admin client is such a header for the stored token;
    with no stored token it carries the word [null], so the request is
    never turned away for a missing token. *)
Theorem X2_bearer_token :
  forall now scheme token m p q bd f,
    spaceless scheme = true -> spaceless token = true ->
    token <> EmptyString ->
    let req := Request m p q (Some (scheme +:+ " " +:+ token)) bd f in
    bearer_token req = Some token
    /\ (authMiddleware now req = None <-> jwt_verify token now = true)
    /\ (jwt_verify token now = false ->
        authMiddleware now req = Some (Response 401 (Message "Invalid token")))
    /\ getAuthHeaders (Some token) = "Bearer" +:+ " " +:+ token
    /\ bearer_token (Request m p q (Some (getAuthHeaders None)) bd f)
       = Some "null".
Proof.
  intros now scheme token m p q bd f Hs Ht Hne req.
  split; [apply bearer_token_words; assumption|].
  unfold req. rewrite authMiddleware_words by assumption.
  split.
  { destruct (jwt_verify token now); split; congruence. }
  split.
  { intros ->. reflexivity. }
  split; reflexivity.
Qed.

End BearerFacts.

Lemma X2_bearer_token_witness :
  @Server.authMiddleware Server.sample 0
    (Server.Request Server.POST ["api"; "skills"]%string ∅
       (Some (AdminAuth.getAuthHeaders (Some "good"%string))) ∅ None)
  = None.
Proof.
  refine (proj2 (proj1 (proj2 (@X2_bearer_token Server.sample 0 "Bearer" "good"
           Server.POST ["api"; "skills"]%string ∅ ∅ None _ _ _))) _).
  - reflexivity.
  - reflexivity.
  - discriminate.
  - reflexivity.
Defined.

(** ** Deleting, creating and updating *)

Section WriteFacts.
Import Server.
Local Open Scope string_scope.
Context `{Externals}.

Lemma lookup_id_None i docs :
  lookup_id i docs = None <-> forall d, In d docs -> _id d <> i.
Proof.
  unfold lookup_id. split.
  - intros E d Hin Hid. pose proof (find_none _ _ E d Hin) as Hn.
    apply has_id_eq in Hid. congruence.
  - intros Hall. destruct (List.find (has_id i) docs) as [d|] eqn:E; [|reflexivity].
    apply find_some in E as [Hin Hid]. apply has_id_eq in Hid.
    destruct (Hall d Hin Hid).
Qed.

Lemma lookup_id_without i j docs :
  j <> i ->
  lookup_id j (List.filter (fun d => negb (has_id i d)) docs) = lookup_id j docs.
Proof.
  intros Hne. unfold lookup_id. induction docs as [|d docs IH]; [reflexivity|].
  simpl. destruct (has_id i d) eqn:Ei; simpl.
  - destruct (has_id j d) eqn:Ej; [|exact IH].
    apply has_id_eq in Ei. apply has_id_eq in Ej. congruence.
  - rewrite IH. reflexivity.
Qed.

(** X3. An authenticated [DELETE /api/<collection>/:id], blog posts
    included. An identifier that does not cast is answered 500 and one
    that casts and is not stored 404, the store staying as it is. For a
    stored identifier the answer is 200 [Deleted]; the collection then
    holds the documents it held, in their order, without those of that
    identifier, and every other identifier and every other collection
    reads as before. *)
Theorem X3_delete :
  forall name c now req st id,
    In (name, c)
       [("blog", BlogPost); ("photography", Photography); ("videos", Video);
        ("experience", Experience); ("projects", Project);
        ("skills", Skill); ("courses", Course); ("creatives", Creative)] ->
    req_method req = DELETE -> req_path req = ["api"; name; id] ->
    id <> EmptyString -> authMiddleware now req = None ->
    (castObjectId (VStr id) = None ->
     app now req st = (Response 500 (ErrorMessage CastError), st))
    /\ (forall i, castObjectId (VStr id) = Some i ->
          (lookup_id i (st c) = None ->
           app now req st = (Response 404 (Message "Not found"), st))
          /\ (lookup_id i (st c) <> None ->
              exists st',
                app now req st = (Response 200 (Message "Deleted"), st')
                /\ st' c = List.filter (fun d => negb (has_id i d)) (st c)
                /\ (forall d, In d (st' c) <-> In d (st c) /\ _id d <> i)
                /\ lookup_id i (st' c) = None
                /\ (forall j, j <> i -> lookup_id j (st' c) = lookup_id j (st c))
                /\ (forall c', c' <> c -> st' c' = st c'))).
Proof.
  intros name c now req st id Hin Hm Hp Hid Ha.
  assert (A : app now req st = delete_handler c id st).
  { destruct req as [m p q au bd f]. simpl in Hm, Hp. subst m p.
    destruct (lookup_delete name c id q au bd f Hin Hid) as (r & L & R).
    rewrite (app_run _ _ _ _ _ L Ha), R. reflexivity. }
  rewrite A. unfold delete_handler, findByIdAndDelete.
  split.
  { intros ->. reflexivity. }
  intros i ->. split.
  { intros ->. reflexivity. }
  intros Hsome. destruct (lookup_id i (st c)) as [d|]; [|congruence].
  eexists. split; [reflexivity|].
  rewrite set_collection_same.
  split; [reflexivity|]. split.
  { intros x. rewrite filter_In. rewrite negb_true_iff.
    split; intros [Hx Hn]; (split; [exact Hx|]).
    - intros E. apply has_id_eq in E. congruence.
    - destruct (has_id i x) eqn:E; [|reflexivity].
      apply has_id_eq in E. congruence. }
  split.
  { apply lookup_id_None. intros x Hx. apply filter_In in Hx as [_ Hn].
    intros E. apply has_id_eq in E. rewrite E in Hn. discriminate. }
  split.
  { intros j Hj. apply lookup_id_without. exact Hj. }
  intros c' Hc'. apply set_collection_other. exact Hc'.
Qed.

(** The handler of [POST /api/<collection>]. *)
Lemma app_create name c now req st :
  In (name, c)
     [("photography", Photography); ("videos", Video);
      ("experience", Experience); ("projects", Project);
      ("skills", Skill); ("courses", Course); ("creatives", Creative)] ->
  req_method req = POST -> req_path req = ["api"; name] ->
  authMiddleware now req = None ->
  app now req st = create_handler c now req st.
Proof.
  intros Hin Hm Hp Ha.
  destruct req as [m p q au bd f]. simpl in Hm, Hp. subst m p.
  rewrite (app_run _ _ _ _ _ (lookup_create name c q au bd f Hin) Ha).
  reflexivity.
Qed.

(** A create that is answered 201 saved the document of the answer at the
    end of its collection, under an identifier the collection did not
    hold. *)
Lemma create_handler_saved c now req st saved st' :
  create_handler c now req st = (Response 201 (Doc saved), st') ->
  new_document c (req_body req) now (st c) = inr saved
  /\ validate c saved = true
  /\ lookup_id (_id saved) (st c) = None
  /\ st' = set_collection st c (st c ++ [saved])%list.
Proof.
  unfold create_handler, save.
  destruct (new_document c (req_body req) now (st c)) as [e|d];
    [intros E; inversion E|].
  destruct (validate c d) eqn:V; cbn [negb]; [|intros E; inversion E].
  destruct (existsb (has_id (_id d)) (st c)) eqn:X; [intros E; inversion E|].
  destruct (duplicate_key c (st c) d); intros E; inversion E; subst.
  split; [reflexivity|]. split; [exact V|]. split; [|reflexivity].
  unfold lookup_id. destruct (List.find _ _) as [x|] eqn:Fd; [|reflexivity].
  apply find_some in Fd as [Hin Hx].
  assert (existsb (has_id (_id saved)) (st c) = true) as X'.
  { apply existsb_exists. exists x. split; assumption. }
  congruence.
Qed.

(** [new Model(body)] for a body without dotted keys. *)
Lemma new_document_flat c body now docs d :
  flat body = true ->
  new_document c body now docs = inr d ->
  exists fields i t,
    construct c (schema c) body = inr fields
    /\ construct_id body docs = inr i
    /\ construct_createdAt c body = inr t
    /\ d = Document i (default now t) (default now t) fields.
Proof.
  unfold new_document. intros ->.
  destruct (construct c (schema c) body) as [e|fields]; [discriminate|].
  destruct (construct_id body docs) as [e|i]; [discriminate|].
  destruct (construct_createdAt c body) as [e|t]; [discriminate|].
  destruct (construct_updatedAt c body) as [e|u]; [discriminate|].
  intros E. inversion E; subst. exists fields, i, t. auto.
Qed.

Lemma construct_id_inr body docs i :
  construct_id body docs = inr i ->
  (body !! "_id" = None -> i = newObjectId docs)
  /\ (forall v, body !! "_id" = Some v -> castObjectId v = Some i).
Proof.
  unfold construct_id. destruct (body !! "_id") as [w|].
  - destruct (castObjectId w) as [j|] eqn:E; [|discriminate].
    intros X. inversion X; subst. split; [discriminate|].
    intros v Hv. inversion Hv; subst. exact E.
  - intros X. inversion X; subst. split; [reflexivity | discriminate].
Qed.

Lemma construct_createdAt_inr c body t :
  construct_createdAt c body = inr t ->
  (body !! "createdAt" = None -> t = None)
  /\ (forall v, body !! "createdAt" = Some v ->
        (forall t', cast c (timestampPath "createdAt") v = Some (VDate t') ->
           t = Some t')
        /\ (cast c (timestampPath "createdAt") v = Some VNull -> t = None)
        /\ cast c (timestampPath "createdAt") v <> None).
Proof.
  unfold construct_createdAt. destruct (body !! "createdAt") as [w|].
  - destruct (cast c (timestampPath "createdAt") w) as [x|] eqn:E;
      [|discriminate].
    intros X. split; [discriminate|].
    intros v Hv. inversion Hv; subst. rewrite E.
    split; [|split; [|discriminate]].
    + intros t' Et. inversion Et; subst. inversion X; reflexivity.
    + intros En. inversion En; subst. inversion X; reflexivity.
  - intros X. inversion X; subst. split; [reflexivity | discriminate].
Qed.

(** X4. An authenticated [POST /api/<collection>] of the seven
    collections other than blog posts, with a body that has no dotted
    key, is answered 400 with the store as it was, or 201 with the saved
    document. That document is added at the end of its collection and no
    other collection changes. Its identifier is the [_id] of the body,
    cast to an ObjectId, or the one Mongoose gives it when the body has
    none; no document of the collection had it. When the body gives no
    [createdAt], both timestamps are the time of the request; a date that
    the body gives as [createdAt] is kept. It passed the validators.
    Each path of the schema holds the cast of the value the body gives it
    or, when the body has no such key, its default if it has one; a key of
    the body that is not a path of the schema is not stored. *)
Theorem X4_create :
  forall name c now req st resp st',
    In (name, c)
       [("photography", Photography); ("videos", Video);
        ("experience", Experience); ("projects", Project);
        ("skills", Skill); ("courses", Course); ("creatives", Creative)] ->
    req_method req = POST -> req_path req = ["api"; name] ->
    authMiddleware now req = None ->
    flat (req_body req) = true ->
    app now req st = (resp, st') ->
    (status resp = 400 /\ st' = st)
    \/ exists saved,
         resp = Response 201 (Doc saved)
         /\ st' c = (st c ++ [saved])%list
         /\ (forall c', c' <> c -> st' c' = st c')
         /\ (req_body req !! "_id" = None -> _id saved = newObjectId (st c))
         /\ (forall v, req_body req !! "_id" = Some v ->
               castObjectId v = Some (_id saved))
         /\ lookup_id (_id saved) (st c) = None
         /\ (req_body req !! "createdAt" = None ->
             createdAt saved = now /\ updatedAt saved = now)
         /\ (forall v t, req_body req !! "createdAt" = Some v ->
               cast c (timestampPath "createdAt") v = Some (VDate t) ->
               createdAt saved = t)
         /\ validate c saved = true
         /\ (forall p, In p (schema c) ->
               paths saved !! p_name p
               = match req_body req !! p_name p with
                 | Some v => cast c p v
                 | None => p_default p
                 end)
         /\ (forall key, path_of c key = None -> paths saved !! key = None).
Proof.
  intros name c now req st resp st' Hin Hm Hp Ha F.
  rewrite (app_create name c now req st Hin Hm Hp Ha).
  destruct resp as [code b].
  destruct (decide (code = 201)) as [->|Hcode].
  2:{ intros E. left.
      unfold create_handler in E.
      destruct (new_document c (req_body req) now (st c)) as [e|d];
        [inversion E; subst; split; reflexivity|].
      destruct (save c d (st c)) as [e|[saved docs]];
        inversion E; subst; [split; reflexivity | congruence]. }
  intros E.
  assert (exists saved, b = Doc saved) as [saved ->].
  { unfold create_handler in E.
    destruct (new_document c (req_body req) now (st c)) as [e|d];
      [inversion E|].
    destruct (save c d (st c)) as [e|[saved docs]]; inversion E; subst.
    exists saved. reflexivity. }
  apply create_handler_saved in E as (N & V & Fresh & ->).
  right. exists saved. split; [reflexivity|].
  rewrite set_collection_same. split; [reflexivity|].
  split; [intros c' Hc'; apply set_collection_other; exact Hc'|].
  destruct (new_document_flat _ _ _ _ _ F N) as (fields & i & t & C & I & T & ->).
  cbn [_id createdAt updatedAt paths].
  destruct (construct_id_inr _ _ _ I) as [I1 I2].
  destruct (construct_createdAt_inr _ _ _ T) as [T1 T2].
  split; [exact I1|]. split; [exact I2|]. split; [exact Fresh|].
  split; [intros E; rewrite (T1 E); split; reflexivity|].
  split.
  { intros v t' E Et. destruct (T2 v E) as (A1 & _).
    rewrite (A1 t' Et). reflexivity. }
  split; [exact V|]. split.
  - intros p Hp'. apply (construct_lookup c (schema c)); auto using schema_NoDup.
  - intros key Hk. destruct (fields !! key) as [v|] eqn:Hv; [|reflexivity].
    destruct (construct_dom _ _ _ _ _ _ C Hv) as (p & Hp' & Hn).
    destruct (path_of_None c key p Hk Hp' Hn).
Qed.

End WriteFacts.

Lemma X3_delete_witness :
  let st :=
    Server.set_collection Server.empty_store Server.Skill
      [Server.sample_skill "65f000000000000000000001" "Languages";
       Server.sample_skill "65f000000000000000000002" "Tools"] in
  let req :=
    Server.Request Server.DELETE
      ["api"; "skills"; "65f000000000000000000001"]%string ∅
      (Some "Bearer good"%string) ∅ None in
  exists st',
    @Server.app Server.sample 5 req st
    = (Server.Response 200 (Server.Message "Deleted"), st')
    /\ st' Server.Skill
       = [Server.sample_skill "65f000000000000000000002" "Tools"].
Proof.
  intros st req.
  destruct (@X3_delete Server.sample "skills"%string Server.Skill 5 req st
              "65f000000000000000000001"%string) as [_ T].
  - simpl. tauto.
  - reflexivity.
  - reflexivity.
  - discriminate.
  - reflexivity.
  - destruct (T "65f000000000000000000001"%string eq_refl) as [_ T2].
    destruct T2 as (st' & E & F & _).
    + vm_compute. discriminate.
    + exists st'. split; [exact E | exact F].
Defined.

Lemma X4_create_witness :
  let post body :=
    Server.Request Server.POST ["api"; "courses"]%string ∅
      (Some "Bearer good"%string) body None in
  let course id created :=
    Server.Document id created created
      (<["name"%string := Server.VStr "Logic"]>
         (<["description"%string := Server.VStr EmptyString]>
            (<["featured"%string := Server.VBool true]>
               (<["order"%string := Server.VNum 0]> ∅)))) in
  let fresh := course "65f000000000000000000000"%string 5 in
  let given := course "65f0000000000000000000aa"%string 3 in
  (@Server.app Server.sample 5
     (post {[ "name"%string := Server.VStr "Logic";
              "teacher"%string := Server.VStr "Ada" ]})
     Server.empty_store
   = (Server.Response 201 (Server.Doc fresh),
      Server.set_collection Server.empty_store Server.Course [fresh])
   /\ Server.paths fresh !! "teacher"%string = None
   /\ Server.createdAt fresh = 5 /\ Server.updatedAt fresh = 5)
  /\ (@Server.app Server.sample 5
        (post {[ "name"%string := Server.VStr "Logic";
                 "_id"%string := Server.VStr "65F0000000000000000000AA";
                 "createdAt"%string := Server.VNum 3 ]})
        Server.empty_store
      = (Server.Response 201 (Server.Doc given),
         Server.set_collection Server.empty_store Server.Course [given])
      /\ Server.sample_castObjectId (Server.VStr "65F0000000000000000000AA")
         = Some (Server._id given)
      /\ Server.createdAt given = 3).
Proof.
  intros post course fresh given.
  split.
  - assert (E : @Server.app Server.sample 5
                  (post {[ "name"%string := Server.VStr "Logic";
                           "teacher"%string := Server.VStr "Ada" ]})
                  Server.empty_store
                = (Server.Response 201 (Server.Doc fresh),
                   Server.set_collection Server.empty_store Server.Course
                     [fresh])).
    { vm_compute. reflexivity. }
    split; [exact E|].
    destruct (@X4_create Server.sample "courses"%string Server.Course 5
                (post {[ "name"%string := Server.VStr "Logic";
                         "teacher"%string := Server.VStr "Ada" ]})
                Server.empty_store (Server.Response 201 (Server.Doc fresh))
                (Server.set_collection Server.empty_store Server.Course
                   [fresh]))
      as [[L _]|(saved' & R & _ & _ & _ & _ & _ & U & _ & _ & _ & P)].
    + simpl. tauto.
    + reflexivity.
    + reflexivity.
    + reflexivity.
    + reflexivity.
    + exact E.
    + discriminate L.
    + inversion R; subst saved'. split; [apply P; reflexivity|].
      apply U. reflexivity.
  - assert (E : @Server.app Server.sample 5
                  (post {[ "name"%string := Server.VStr "Logic";
                           "_id"%string := Server.VStr "65F0000000000000000000AA";
                           "createdAt"%string := Server.VNum 3 ]})
                  Server.empty_store
                = (Server.Response 201 (Server.Doc given),
                   Server.set_collection Server.empty_store Server.Course
                     [given])).
    { vm_compute. reflexivity. }
    split; [exact E|].
    destruct (@X4_create Server.sample "courses"%string Server.Course 5
                (post {[ "name"%string := Server.VStr "Logic";
                         "_id"%string := Server.VStr "65F0000000000000000000AA";
                         "createdAt"%string := Server.VNum 3 ]})
                Server.empty_store (Server.Response 201 (Server.Doc given))
                (Server.set_collection Server.empty_store Server.Course
                   [given]))
      as [[L _]|(saved' & R & _ & _ & _ & I & _ & _ & T & _)].
    + simpl. tauto.
    + reflexivity.
    + reflexivity.
    + reflexivity.
    + reflexivity.
    + exact E.
    + discriminate L.
    + inversion R; subst saved'. split.
      * apply (I (Server.VStr "65F0000000000000000000AA")). reflexivity.
      * apply (T (Server.VNum 3)); reflexivity.
Defined.

Section WriteFacts2.
Import Server.
Local Open Scope string_scope.
Context `{Externals}.


(** X6. An authenticated [PUT /api/<collection>/:id] of the seven
    collections other than blog posts, with a body of fields (no update
    operator, no dotted key, no [_id]). An answer 200 means that a
    document of that identifier was stored. The collection then holds, in
    the place of the old document, the document after the update: the same
    identifier and creation time, the time of the request as [updatedAt],
    and at each key the cast of the value the body gives it if it is a
    path of the schema, the stored value otherwise; every other document
    and every other collection is as it was. The answer is the Mongoose
    document of the stored one: a path that the stored document lacks
    holds the default of the schema, if it has one. Any answer other than
    200 leaves the store as it is, whatever the body. *)
Theorem X6_update :
  forall name c now req st id,
    In (name, c)
       [("photography", Photography); ("videos", Video);
        ("experience", Experience); ("projects", Project);
        ("skills", Skill); ("courses", Course); ("creatives", Creative)] ->
    req_method req = PUT -> req_path req = ["api"; name; id] ->
    id <> EmptyString -> lower id <> "reorder" ->
    authMiddleware now req = None ->
    (fields_only (req_body req) = true ->
     forall d' st',
       app now req st = (Response 200 (Doc d'), st') ->
       exists i d stored,
         castObjectId (VStr id) = Some i
         /\ lookup_id i (st c) = Some d
         /\ _id stored = _id d /\ createdAt stored = createdAt d
         /\ updatedAt stored = now
         /\ (forall key,
               paths stored !! key
               = match req_body req !! key ≫= cast_key c key with
                 | Some v => Some v
                 | None => paths d !! key
                 end)
         /\ lookup_id i (st' c) = Some stored
         /\ Forall2 (fun x y => y = x \/ (x = d /\ y = stored)) (st c) (st' c)
         /\ (forall c', c' <> c -> st' c' = st c')
         /\ d' = hydrate c stored
         /\ _id d' = _id d /\ createdAt d' = createdAt d /\ updatedAt d' = now
         /\ (forall key,
               paths d' !! key
               = match paths stored !! key with
                 | Some v => Some v
                 | None => defaults (schema c) !! key
                 end)
         /\ (forall p, In p (schema c) ->
               defaults (schema c) !! p_name p = p_default p)
         /\ (forall key, path_of c key = None ->
               defaults (schema c) !! key = None))
    /\ (status (fst (app now req st)) <> 200 -> snd (app now req st) = st).
Proof.
  intros name c now req st id Hin Hm Hp Hid Hre Ha.
  assert (A : app now req st = update_handler c now id req st).
  { destruct req as [m p q au bd f]. simpl in Hm, Hp. subst m p.
    rewrite (app_run _ _ _ _ _ (lookup_update name c id q au bd f Hin Hid Hre) Ha).
    reflexivity. }
  rewrite A. split.
  2:{ unfold update_handler.
      destruct (findByIdAndUpdate c (Some (VStr id)) (req_body req) now (st c))
        as [e|[[d|] docs]]; simpl; congruence. }
  intros F d' st'. unfold update_handler.
  rewrite findByIdAndUpdate_fields by exact F.
  destruct (castFields c (req_body req)) as [e|set] eqn:C;
    [intros E; inversion E|].
  destruct (castObjectId (VStr id)) as [i|]; [|intros E; inversion E].
  destruct (lookup_id i (st c)) as [d|] eqn:L; [|intros E; inversion E].
  destruct (duplicate_key c (st c) (apply_update set now d));
    [intros E; inversion E|].
  intros E. inversion E; subst. clear E.
  pose proof (lookup_id_Some _ _ _ L) as [_ Hi]. subst i.
  exists (_id d), d, (apply_update set now d).
  split; [reflexivity|]. split; [exact L|].
  split; [reflexivity|]. split; [reflexivity|]. split; [reflexivity|].
  rewrite set_collection_same.
  split.
  { intros key. cbn [apply_update paths].
    rewrite <- (castFields_lookup c (req_body req) set key C).
    rewrite lookup_union. destruct (set !! key), (paths d !! key); reflexivity. }
  split.
  { apply (lookup_id_replace d (apply_update set now d)). exact L. }
  split.
  { apply replace_doc_Forall2 with (d := d).
    - intros x. left. reflexivity.
    - exact L.
    - right. split; reflexivity. }
  split; [intros c' Hc'; apply set_collection_other; exact Hc'|].
  split; [reflexivity|].
  split; [reflexivity|]. split; [reflexivity|]. split; [reflexivity|].
  split; [intros key; apply hydrate_lookup|].
  split.
  - intros p Hp'. apply defaults_lookup; [apply schema_NoDup | exact Hp'].
  - intros key Hk. apply defaults_None.
    intros p Hp'. exact (path_of_None c key p Hk Hp').
Qed.

End WriteFacts2.


Lemma X6_update_witness :
  let oid := "65f000000000000000000001"%string in
  let put body :=
    Server.Request Server.PUT ["api"; "courses"; oid]%string ∅
      (Some "Bearer good"%string) body None in
  let whole := Server.sample_course oid "Old" in
  let bare := Server.Document oid 1 1 {[ "name"%string := Server.VStr "Old" ]} in
  let only d := Server.set_collection Server.empty_store Server.Course [d] in
  let body : gmap string Server.value :=
    {[ "name"%string := Server.VStr "New"; "teacher"%string := Server.VStr "Ada" ]} in
  let answer :=
    Server.Document oid 1 9 (Server.paths (Server.sample_course oid "New")) in
  let kept := Server.Document oid 1 9 {[ "name"%string := Server.VStr "New" ]} in
  (@Server.app Server.sample 9 (put body) (only whole)
   = (Server.Response 200 (Server.Doc answer),
      Server.set_collection (only whole) Server.Course [answer])
   /\ Forall2 (fun x y => y = x \/ (x = whole /\ y = answer)) [whole] [answer])
  /\ (@Server.app Server.sample 9 (put body) (only bare)
      = (Server.Response 200 (Server.Doc answer),
         Server.set_collection (only bare) Server.Course [kept])
      /\ Forall2 (fun x y => y = x \/ (x = bare /\ y = kept)) [bare] [kept]
      /\ answer = Server.hydrate Server.Course kept).
Proof.
  intros oid put whole bare only body answer kept.
  split.
  - assert (E : @Server.app Server.sample 9 (put body) (only whole)
                = (Server.Response 200 (Server.Doc answer),
                   Server.set_collection (only whole) Server.Course [answer])).
    { vm_compute. reflexivity. }
    split; [exact E|].
    destruct (@X6_update Server.sample "courses"%string Server.Course 9
                (put body) (only whole) oid) as [T _].
    + simpl. tauto.
    + reflexivity.
    + reflexivity.
    + discriminate.
    + vm_compute. discriminate.
    + reflexivity.
    + destruct (T eq_refl _ _ E)
        as (i & d & stored & Hi & L & _ & _ & _ & _ & L' & F & _).
      vm_compute in Hi. injection Hi as <-.
      vm_compute in L. injection L as <-.
      vm_compute in L'. injection L' as <-. exact F.
  - assert (E : @Server.app Server.sample 9 (put body) (only bare)
                = (Server.Response 200 (Server.Doc answer),
                   Server.set_collection (only bare) Server.Course [kept])).
    { vm_compute. reflexivity. }
    split; [exact E|].
    destruct (@X6_update Server.sample "courses"%string Server.Course 9
                (put body) (only bare) oid) as [T _].
    + simpl. tauto.
    + reflexivity.
    + reflexivity.
    + discriminate.
    + vm_compute. discriminate.
    + reflexivity.
    + destruct (T eq_refl _ _ E)
        as (i & d & stored & Hi & L & _ & _ & _ & _ & L' & F & _ & Hy & _).
      vm_compute in Hi. injection Hi as <-.
      vm_compute in L. injection L as <-.
      vm_compute in L'. injection L' as <-. split; [exact F | exact Hy].
Defined.

(** ** What the routes never do *)

Section FrameFacts.
Import Server.
Local Open Scope string_scope.
Context `{Externals}.

Ltac handler_cases :=
  repeat match goal with
         | |- context [match ?x with _ => _ end] => destruct x
         end;
  simpl; intros; try reflexivity; try congruence.

(** X7. A request that is answered with a status other than 200 and 201
    leaves the store as it is, unless it went to a reorder route (whose
    updates are not rolled back). *)
Theorem X7_failed_request_keeps_store :
  forall now req st,
    (forall r param c,
       lookup_route routes req = Some (r, param) -> r_handler r <> Reorder c) ->
    status (fst (app now req st)) <> 200 ->
    status (fst (app now req st)) <> 201 ->
    snd (app now req st) = st.
Proof.
  intros now req st Hno. unfold app.
  destruct (lookup_route routes req) as [[r param]|]; [|reflexivity].
  specialize (Hno r param).
  destruct (if r_auth r then authMiddleware now req else None); [reflexivity|].
  destruct (r_handler r) as [| | | | | | | | |c|c|c|c|c]; cbn [run];
    try reflexivity.
  - unfold blog_create, save. handler_cases.
  - unfold blog_update, findById, findByIdAndUpdate. handler_cases.
  - unfold delete_handler, findByIdAndDelete. handler_cases.
  - destruct (Hno c eq_refl eq_refl).
  - unfold create_handler, save. handler_cases.
  - unfold update_handler, findByIdAndUpdate. handler_cases.
  - unfold delete_handler, findByIdAndDelete. handler_cases.
Qed.

(** X8. A [GET] never changes the store, whatever its path, its query and
    its headers. *)
Theorem X8_get_keeps_store :
  forall now req st, req_method req = GET -> snd (app now req st) = st.
Proof.
  intros now req st Hm. unfold app.
  destruct (lookup_route routes req) as [[r param]|] eqn:L; [|reflexivity].
  destruct (if r_auth r then authMiddleware now req else None); [reflexivity|].
  pose proof (lookup_route_In _ _ _ _ L) as Hin.
  pose proof (lookup_route_method _ _ _ _ L) as Hr. rewrite Hm in Hr.
  assert (All : forallb (fun r =>
            match r_method r, r_handler r with
            | GET, (Health | BlogList | BlogAll | BlogBySlug | List _) => true
            | GET, _ => false
            | _, _ => true
            end) routes = true) by reflexivity.
  rewrite forallb_forall in All. specialize (All r Hin). rewrite Hr in All.
  destruct (r_handler r); try discriminate; reflexivity.
Qed.

End FrameFacts.

Lemma X7_failed_request_keeps_store_witness :
  let st :=
    Server.set_collection Server.empty_store Server.Skill
      [Server.sample_skill "65f000000000000000000001" "Languages"] in
  let req :=
    Server.Request Server.DELETE
      ["api"; "skills"; "65f000000000000000000009"]%string ∅
      (Some "Bearer good"%string) ∅ None in
  snd (@Server.app Server.sample 5 req st) = st.
Proof.
  intros st req.
  apply (@X7_failed_request_keeps_store Server.sample 5 req st).
  - intros r param c E. vm_compute in E. injection E as <- _. discriminate.
  - vm_compute. discriminate.
  - vm_compute. discriminate.
Defined.

Lemma X8_get_keeps_store_witness :
  let req :=
    Server.Request Server.GET ["api"; "blog"; "all"]%string ∅
      (Some "Bearer good"%string) ∅ None in
  snd (@Server.app Server.sample 5 req Server.empty_store) = Server.empty_store.
Proof.
  intros req.
  apply (@X8_get_keeps_store Server.sample 5 req Server.empty_store).
  reflexivity.
Defined.

(** ** The order of the routes *)

Section OrderFacts.
Import Server.
Local Open Scope string_scope.
Context `{Externals}.

(** X9. The reorder route of a collection is registered before its
    [:id] route: an authenticated [PUT /api/<collection>/reorder], in
    any letter case, is answered by the reorder handler and never taken
    as the update of a document named [reorder]. Blog posts have no
    reorder route: there the same path is the update of the identifier
    in its last segment. *)
Theorem X9_reorder_route :
  (forall name c now req st x,
     In (name, c)
        [("photography", Photography); ("videos", Video);
         ("experience", Experience); ("projects", Project);
         ("skills", Skill); ("courses", Course); ("creatives", Creative)] ->
     req_method req = PUT -> req_path req = ["api"; name; x] ->
     lower x = "reorder" -> authMiddleware now req = None ->
     app now req st = reorder_handler c now req st)
  /\ (forall now req st x,
        req_method req = PUT -> req_path req = ["api"; "blog"; x] ->
        x <> EmptyString -> authMiddleware now req = None ->
        app now req st = blog_update now x req st).
Proof.
  split.
  - intros name c now req st x Hin Hm Hp Hx Ha.
    destruct req as [m p q au bd f]. simpl in Hm, Hp. subst m p.
    rewrite (app_run _ _ _ _ _ (lookup_reorder name c x q au bd f Hin Hx) Ha).
    reflexivity.
  - intros now req st x Hm Hp Hx Ha.
    destruct req as [m p q au bd f]. simpl in Hm, Hp. subst m p.
    rewrite (app_run _ _ _ _ _ (lookup_blog_put x q au bd f Hx) Ha).
    reflexivity.
Qed.

(** X10. Only blog posts can be read one by one: for the seven other
    collections a [GET /api/<collection>/<segment>] with a segment that
    is not empty matches no route and is answered 404 by Express. The
    empty segment is the slash at the end of [/api/<collection>/], which
    Express, with strict routing off, routes to the list of the
    collection. *)
Theorem X10_no_get_by_id :
  forall name c now req st x,
    In (name, c)
       [("photography", Photography); ("videos", Video);
        ("experience", Experience); ("projects", Project);
        ("skills", Skill); ("courses", Course); ("creatives", Creative)] ->
    req_method req = GET -> req_path req = ["api"; name; x] ->
    (x <> EmptyString -> app now req st = (Response 404 CannotRoute, st))
    /\ (x = EmptyString -> app now req st = (list_handler c req st, st)).
Proof.
  intros name c now req st x Hin Hm Hp.
  destruct req as [m p q au bd f]. simpl in Hm, Hp. subst m p.
  simpl in Hin. split.
  - intros Hx. destruct x as [|a r]; [congruence|].
    repeat (destruct Hin as [Hin|Hin]; [inversion Hin; subst; reflexivity|]).
    destruct Hin.
  - intros ->.
    repeat (destruct Hin as [Hin|Hin]; [inversion Hin; subst; reflexivity|]).
    destruct Hin.
Qed.




End OrderFacts.

Lemma X9_reorder_route_witness :
  let req :=
    Server.Request Server.PUT ["api"; "skills"; "Reorder"]%string ∅
      (Some "Bearer good"%string) ∅ None in
  @Server.app Server.sample 5 req Server.empty_store
  = @Server.reorder_handler Server.sample Server.Skill 5 req Server.empty_store.
Proof.
  intros req.
  apply (proj1 (@X9_reorder_route Server.sample) "skills"%string Server.Skill
           5 req Server.empty_store "Reorder"%string).
  - simpl. tauto.
  - reflexivity.
  - reflexivity.
  - reflexivity.
  - reflexivity.
Defined.

Lemma X10_no_get_by_id_witness :
  let st :=
    Server.set_collection Server.empty_store Server.Skill
      [Server.sample_skill "65f000000000000000000001" "Languages"] in
  let get last :=
    Server.Request Server.GET ["api"; "skills"; last]%string ∅ None ∅ None in
  @Server.app Server.sample 5 (get "65f000000000000000000001"%string) st
    = (Server.Response 404 Server.CannotRoute, st)
  /\ @Server.app Server.sample 5 (get EmptyString) st
     = (Server.Response 200 (Server.Docs (st Server.Skill)), st).
Proof.
  intros st get. split.
  - apply (proj1 (@X10_no_get_by_id Server.sample "skills"%string Server.Skill
                    5 (get "65f000000000000000000001"%string) st
                    "65f000000000000000000001"%string
                    ltac:(simpl; tauto) eq_refl eq_refl)).
    discriminate.
  - rewrite (proj2 (@X10_no_get_by_id Server.sample "skills"%string
                      Server.Skill 5 (get EmptyString) st EmptyString
                      ltac:(simpl; tauto) eq_refl eq_refl) eq_refl).
    reflexivity.
Defined.


(** ** Uploads that pass the filter *)

Section UploadSuccess.
Import Server.
Local Open Scope string_scope.
Context `{Externals}.

(** X28. An authenticated upload of a file of the field [image], of an
    image type and of at most 10 MB, is handed to Cloudinary under the
    folder [portfolio/<folder>], where the folder is the [folder] of the
    query or [general] when the query has none or an empty one. The
    answer is 200 with what Cloudinary returned, or 500 when Cloudinary
    fails; a request without a file is answered 400. The store stays as
    it is. *)
Theorem X28_upload :
  forall now req st,
    req_method req = POST -> req_path req = ["api"; "upload"] ->
    authMiddleware now req = None ->
    snd (app now req st) = st
    /\ (req_file req = None ->
        fst (app now req st) = Response 400 (Message "No image file provided"))
    /\ (forall f,
          req_file req = Some f -> fieldname f = "image" ->
          fileFilter f = true -> (size f <= fileSize)%Z ->
          exists folder,
            (folder = "portfolio/" +:+ query_or req "folder" "general")
            /\ (req_query req !! "folder" = None
                \/ req_query req !! "folder" = Some EmptyString ->
                folder = "portfolio/general")
            /\ fst (app now req st)
               = match upload_stream folder f with
                 | Some r => Response 200 (Uploaded r)
                 | None => Response 500 (ErrorMessage UpstreamError)
                 end).
Proof.
  intros now req st Hm Hp Ha. rewrite (app_upload now req st Hm Hp Ha).
  split; [reflexivity|]. cbn [fst]. unfold upload_handler, upload_single.
  split.
  { intros ->. reflexivity. }
  intros f -> Hname Hf Hs. rewrite Hname, Hf. cbn [String.eqb negb].
  replace (negb ("image" =? "image")) with false by reflexivity.
  replace (fileSize <? size f)%Z with false
    by (symmetry; apply Z.ltb_ge; exact Hs).
  eexists. split; [reflexivity|]. split; [|reflexivity].
  unfold query_or. intros [-> | ->]; reflexivity.
Qed.

End UploadSuccess.

Lemma X28_upload_witness :
  let req :=
    Server.Request Server.POST ["api"; "upload"]%string ∅
      (Some "Bearer good"%string) ∅
      (Some (Server.UploadFile "image" "image/png" 10)) in
  snd (@Server.app Server.sample 0 req Server.empty_store) = Server.empty_store.
Proof.
  intros req.
  refine (proj1 (@X28_upload Server.sample 0 req Server.empty_store _ _ _));
    reflexivity.
Defined.


(* ================================================================= *)
(** * Further properties of the client *)

(** ** Markdown without admonitions *)

Section PlainMarkdownFacts.
Import JS Regex BlogPostPage JSText.

Lemma m_Str_miss {R : Type} s :
  forall b a cs (k : mstate -> option R),
    startsWith s a = false -> m (Str s) (MState b a cs) k = None.
Proof.
  induction s as [|c s IH]; intros b a cs k Hs; [discriminate|].
  cbn [Str]. rewrite m_Seq. unfold Lit. cbn [m after before caps].
  destruct a as [|x t]; [reflexivity|].
  cbn [startsWith] in Hs. unfold isChar. rewrite Z.eqb_sym.
  destruct (c =? x); [|reflexivity].
  apply IH. exact Hs.
Qed.

Lemma m_delimiter_none {R : Type} b a cs (k : mstate -> option R) :
  startsWith (u ":::") a = false -> startsWith (u "!!!") a = false ->
  m delimiter (MState b a cs) k = None.
Proof.
  intros H1 H2. unfold delimiter. cbn [m].
  rewrite (m_Str_miss (u ":::")) by exact H1.
  apply m_Str_miss. exact H2.
Qed.

Lemma exec_at_none bef aft :
  startsWith (u ":::") aft = false -> startsWith (u "!!!") aft = false ->
  exec_at admonition_regex bef aft = None.
Proof.
  intros H1 H2. unfold exec_at, admonition_regex. rewrite m_Seq.
  destruct (at_bol (MState bef aft no_captures)) eqn:Hb.
  - rewrite m_Bol by exact Hb. rewrite m_Seq. apply m_delimiter_none; assumption.
  - cbn [m]. rewrite Hb. reflexivity.
Qed.

Lemma occurs_suffix p w a :
  occurs p (w ++ a) = false -> startsWith p a = false.
Proof.
  induction w as [|c w IH]; simpl.
  - destruct a; simpl; intros E; apply orb_false_iff in E; tauto.
  - intros E. apply orb_false_iff in E. apply IH. tauto.
Qed.

Lemma render_plain random s : forall n, render random n (map Plain s) = s.
Proof.
  induction s as [|c t IH]; intros n; [reflexivity|].
  cbn [map render]. f_equal. apply IH.
Qed.

(** X12. Markdown in which neither [:::] nor [!!!] occurs is handed to
    marked as it is: the preprocessor rewrites nothing and draws no
    random identifier. *)
Theorem X12_plain_markdown :
  forall random markdown,
    occurs (u ":::") markdown = false ->
    occurs (u "!!!") markdown = false ->
    preprocessAdmonitions random markdown = markdown
    /\ segments admonition_regex markdown = map Plain markdown.
Proof.
  intros random markdown H1 H2.
  assert (Hnone : forall bef aft,
            rev bef ++ aft = markdown ->
            exec_at admonition_regex bef aft = None).
  { intros bef aft E. subst markdown.
    apply exec_at_none; eapply occurs_suffix; eassumption. }
  assert (S : forall aft bef,
            rev bef ++ aft = markdown ->
            scan admonition_regex O bef aft = map Plain aft).
  { induction aft as [|c t IH]; intros bef E.
    - cbn [scan]. rewrite (Hnone bef [] E). reflexivity.
    - cbn [scan]. rewrite (Hnone bef (c :: t) E). cbn [map]. f_equal.
      apply IH. cbn [rev]. rewrite <- app_assoc. exact E. }
  assert (Sg : segments admonition_regex markdown = map Plain markdown).
  { unfold segments. apply S. reflexivity. }
  split; [|exact Sg].
  unfold preprocessAdmonitions. rewrite Sg. apply render_plain.
Qed.

End PlainMarkdownFacts.

Lemma X12_plain_markdown_witness :
  BlogPostPage.preprocessAdmonitions (fun _ => JS.u "id") (JS.u "a::b !! c")
  = JS.u "a::b !! c".
Proof.
  apply (proj1 (X12_plain_markdown (fun _ => JS.u "id") (JS.u "a::b !! c")
                  eq_refl eq_refl)).
Defined.

(** ** The escaping of the fallback *)

Section EscapeFacts.
Import JS BlogPostPage JSText.

Lemma flat_map_flat_map {A B C} (f : A -> list B) (g : B -> list C) l :
  flat_map g (flat_map f l) = flat_map (fun x => flat_map g (f x)) l.
Proof.
  induction l as [|x l IH]; [reflexivity|].
  simpl. rewrite flat_map_app, IH. reflexivity.
Qed.

(** The three passes amount to one: no pass touches what an earlier one
    wrote. *)
Lemma escapeHtml_entities codeStr :
  escapeHtml codeStr = flat_map entity codeStr.
Proof.
  unfold escapeHtml, replaceChar. rewrite !flat_map_flat_map.
  apply flat_map_ext. intros c. unfold entity.
  destruct (c =? 38) eqn:E38; [reflexivity|].
  cbn [flat_map List.app]. destruct (c =? 60) eqn:E60; [reflexivity|].
  cbn [flat_map List.app]. destruct (c =? 62) eqn:E62; reflexivity.
Qed.

Lemma entity_length c : (1 <= length (entity c))%nat.
Proof.
  unfold entity. destruct (c =? 38), (c =? 60), (c =? 62); simpl; lia.
Qed.

Lemma flat_map_entity_length s : (length s <= length (flat_map entity s))%nat.
Proof.
  induction s as [|c s IH]; simpl; [lia|].
  rewrite length_app. pose proof (entity_length c). lia.
Qed.

Lemma entity_units c :
  entity c
  = if c =? 38 then [38; 97; 109; 112; 59]
    else if c =? 60 then [38; 108; 116; 59]
    else if c =? 62 then [38; 103; 116; 59]
    else [c].
Proof. reflexivity. Qed.

Lemma entity_inj x y a b :
  entity x ++ a = entity y ++ b -> x = y /\ a = b.
Proof.
  rewrite !entity_units. intros E.
  destruct (x =? 38) eqn:X38; [apply Z.eqb_eq in X38|apply Z.eqb_neq in X38];
  (destruct (x =? 60) eqn:X60; [apply Z.eqb_eq in X60|apply Z.eqb_neq in X60]);
  (destruct (x =? 62) eqn:X62; [apply Z.eqb_eq in X62|apply Z.eqb_neq in X62]);
  (destruct (y =? 38) eqn:Y38; [apply Z.eqb_eq in Y38|apply Z.eqb_neq in Y38]);
  (destruct (y =? 60) eqn:Y60; [apply Z.eqb_eq in Y60|apply Z.eqb_neq in Y60]);
  (destruct (y =? 62) eqn:Y62; [apply Z.eqb_eq in Y62|apply Z.eqb_neq in Y62]);
  try (exfalso; lia); simpl in E; inversion E; subst;
  try (exfalso; lia); split; reflexivity.
Qed.

Lemma flat_map_entity_inj :
  forall s t, flat_map entity s = flat_map entity t -> s = t.
Proof.
  induction s as [|x s IH]; intros [|y t] E.
  - reflexivity.
  - exfalso. simpl in E. apply (f_equal (@length Z)) in E.
    rewrite length_app in E. pose proof (entity_length y). simpl in E. lia.
  - exfalso. simpl in E. apply (f_equal (@length Z)) in E.
    rewrite length_app in E. pose proof (entity_length x). simpl in E. lia.
  - simpl in E. apply entity_inj in E as [-> E]. f_equal. apply IH. exact E.
Qed.

(** X13. The fallback of the [code] renderer escapes in one pass: every
    [&] of the source becomes [&amp;], every [<] becomes [&lt;], every
    [>] becomes [&gt;] and every other code unit stays, so that an
    entity written by one replacement is left alone by the next ones.
    Two different sources never give the same escaped text. *)
Theorem X13_escapeHtml_one_pass :
  (forall codeStr, escapeHtml codeStr = flat_map entity codeStr)
  /\ (forall s t, escapeHtml s = escapeHtml t -> s = t).
Proof.
  split; [exact escapeHtml_entities|].
  intros s t. rewrite !escapeHtml_entities. apply flat_map_entity_inj.
Qed.

(** X14. The escaped text is the source itself exactly when the source
    holds none of [&], [<] and [>]; it is never shorter than the source. *)
Theorem X14_escapeHtml_fixed :
  forall codeStr,
    (escapeHtml codeStr = codeStr
     <-> Forall (fun c => c <> 38 /\ c <> 60 /\ c <> 62) codeStr)
    /\ (length codeStr <= length (escapeHtml codeStr))%nat.
Proof.
  intros codeStr. rewrite escapeHtml_entities.
  split; [|apply flat_map_entity_length].
  induction codeStr as [|c s IH]; simpl.
  - split; [constructor | reflexivity].
  - split.
    + intros E. rewrite entity_units in E.
      destruct (c =? 38) eqn:E38.
      { exfalso. simpl in E. injection E as _ E.
        apply (f_equal (@length Z)) in E. simpl in E.
        pose proof (flat_map_entity_length s). lia. }
      destruct (c =? 60) eqn:E60.
      { exfalso. simpl in E. injection E as _ E.
        apply (f_equal (@length Z)) in E. simpl in E.
        pose proof (flat_map_entity_length s). lia. }
      destruct (c =? 62) eqn:E62.
      { exfalso. simpl in E. injection E as _ E.
        apply (f_equal (@length Z)) in E. simpl in E.
        pose proof (flat_map_entity_length s). lia. }
      simpl in E. injection E as E. constructor; [lia | apply IH; exact E].
    + intros F. inversion F as [|? ? (N38 & N60 & N62) F']; subst.
      rewrite entity_units.
      apply Z.eqb_neq in N38. apply Z.eqb_neq in N60. apply Z.eqb_neq in N62.
      rewrite N38, N60, N62. simpl. f_equal. apply IH. exact F'.
Qed.

End EscapeFacts.

(** ** Pipe-separated fields of the admin forms *)

Section TrimFacts.
Import JS JSText.

Lemma jseqb_eq s t : JS.eqb s t = true <-> s = t.
Proof.
  revert t. induction s as [|a s IH]; intros [|b t]; simpl;
    try (split; [discriminate | congruence]); [tauto|].
  rewrite andb_true_iff, Z.eqb_eq, IH. split.
  - intros [-> ->]. reflexivity.
  - intros E. inversion E. auto.
Qed.

Lemma trimStart_spaces p s :
  forallb isWhiteSpace p = true -> trimStart (p ++ s) = trimStart s.
Proof.
  induction p as [|c p IH]; simpl; [reflexivity|].
  intros E. apply andb_true_iff in E as [Hc Hp]. rewrite Hc. apply IH, Hp.
Qed.

Lemma trimStart_length s : (length (trimStart s) <= length s)%nat.
Proof.
  induction s as [|c s IH]; simpl; [lia|].
  destruct (isWhiteSpace c); simpl; lia.
Qed.

(** The result of [trimStart] does not start with white space. *)
Lemma trimStart_head s :
  match trimStart s with
  | [] => True
  | c :: _ => isWhiteSpace c = false
  end.
Proof.
  induction s as [|c s IH]; simpl; [exact I|].
  destruct (isWhiteSpace c) eqn:E; [exact IH | exact E].
Qed.

Lemma trimStart_fixed s :
  match s with
  | [] => True
  | c :: _ => isWhiteSpace c = false
  end -> trimStart s = s.
Proof. destruct s as [|c s]; simpl; [reflexivity|]. intros ->. reflexivity. Qed.

Lemma trimStart_same_length s :
  length (trimStart s) = length s -> trimStart s = s.
Proof.
  destruct s as [|c s]; simpl; [reflexivity|].
  destruct (isWhiteSpace c); [|reflexivity].
  pose proof (trimStart_length s). lia.
Qed.

Lemma trimStart_snoc s c :
  isWhiteSpace c = false -> trimStart (s ++ [c]) = trimStart s ++ [c].
Proof.
  intros Hc. induction s as [|x s IH]; simpl.
  - rewrite Hc. reflexivity.
  - destruct (isWhiteSpace x); [exact IH | reflexivity].
Qed.

Lemma trimEnd_length s : (length (trimEnd s) <= length s)%nat.
Proof.
  unfold trimEnd. rewrite length_rev.
  pose proof (trimStart_length (rev s)). rewrite length_rev in *. lia.
Qed.

Lemma trimEnd_spaces s q :
  forallb isWhiteSpace q = true -> trimEnd (s ++ q) = trimEnd s.
Proof.
  intros Hq. unfold trimEnd. rewrite rev_app_distr.
  rewrite trimStart_spaces; [reflexivity|].
  rewrite forallb_forall in *. intros x Hx. apply Hq.
  apply in_rev. exact Hx.
Qed.

Lemma trimEnd_cons c s :
  isWhiteSpace c = false -> trimEnd (c :: s) = c :: trimEnd s.
Proof.
  intros Hc. unfold trimEnd. cbn [rev].
  rewrite trimStart_snoc by exact Hc.
  rewrite rev_app_distr. reflexivity.
Qed.

Lemma trimEnd_idem s : trimEnd (trimEnd s) = trimEnd s.
Proof.
  unfold trimEnd. rewrite rev_involutive. f_equal.
  apply trimStart_fixed. apply trimStart_head.
Qed.

(** A string that [trim] leaves alone is left alone by both halves. *)
Lemma trim_fixed s :
  trim s = s -> trimStart s = s /\ trimEnd s = s.
Proof.
  unfold trim. intros E.
  assert (L : length (trimStart s) = length s).
  { pose proof (trimEnd_length (trimStart s)).
    pose proof (trimStart_length s).
    apply (f_equal (@length Z)) in E. lia. }
  apply trimStart_same_length in L. rewrite L in E. auto.
Qed.

Lemma trim_idem s : trim (trim s) = trim s.
Proof.
  unfold trim.
  assert (Hs : trimStart (trimEnd (trimStart s)) = trimEnd (trimStart s)).
  { pose proof (trimStart_head s) as Hh.
    destruct (trimStart s) as [|c t]; [reflexivity|].
    rewrite trimEnd_cons by exact Hh. simpl. rewrite Hh. reflexivity. }
  rewrite Hs. apply trimEnd_idem.
Qed.

(** White space around an entry that [trim] leaves alone is trimmed
    away. *)
Lemma trim_padded p a q :
  a <> [] -> trim a = a ->
  forallb isWhiteSpace p = true -> forallb isWhiteSpace q = true ->
  trim (p ++ a ++ q) = a.
Proof.
  intros Hne Ha Hp Hq. destruct (trim_fixed a Ha) as [Hs He].
  unfold trim. rewrite trimStart_spaces by exact Hp.
  assert (Hh : trimStart (a ++ q) = a ++ q).
  { apply trimStart_fixed. pose proof (trimStart_head a) as Hh.
    rewrite Hs in Hh. destruct a; [congruence | exact Hh]. }
  rewrite Hh, trimEnd_spaces by exact Hq. exact He.
Qed.

Lemma trimStart_Forall (P : Z -> Prop) s : Forall P s -> Forall P (trimStart s).
Proof.
  induction 1 as [|c s Hc Hs IH]; simpl; [constructor|].
  destruct (isWhiteSpace c); [exact IH | constructor; assumption].
Qed.

Lemma trim_Forall (P : Z -> Prop) s : Forall P s -> Forall P (trim s).
Proof.
  intros Hs. unfold trim, trimEnd.
  apply Forall_rev, trimStart_Forall, Forall_rev, trimStart_Forall, Hs.
Qed.

End TrimFacts.

Section FormFacts.
Import JS JSText AdminForms.

Lemma split_nonempty d s : split d s <> [].
Proof.
  destruct s as [|c s]; simpl; [discriminate|].
  destruct (c =? d); [discriminate|]. destruct (split d s); discriminate.
Qed.

Lemma split_word d w :
  Forall (fun c => c <> d) w -> split d w = [w].
Proof.
  induction 1 as [|c w Hc Hw IH]; simpl; [reflexivity|].
  apply Z.eqb_neq in Hc. rewrite Hc, IH. reflexivity.
Qed.

Lemma split_app d w rest :
  Forall (fun c => c <> d) w ->
  split d (w ++ d :: rest) = w :: split d rest.
Proof.
  induction 1 as [|c w Hc Hw IH]; simpl.
  - rewrite Z.eqb_refl. reflexivity.
  - apply Z.eqb_neq in Hc. rewrite Hc, IH. reflexivity.
Qed.

Lemma split_parts d s : Forall (Forall (fun c => c <> d)) (split d s).
Proof.
  induction s as [|c s IH]; simpl; [repeat constructor|].
  destruct (c =? d) eqn:E.
  - constructor; [constructor | exact IH].
  - apply Z.eqb_neq in E. destruct (split d s) as [|w ws].
    + repeat constructor. exact E.
    + inversion IH; subst. constructor; [constructor; assumption | assumption].
Qed.

Lemma clean_spec item :
  clean item = true
  <-> item <> [] /\ trim item = item /\ Forall (fun c => c <> DELIMITER) item.
Proof.
  unfold clean. rewrite !andb_true_iff, jseqb_eq, forallb_forall, List.Forall_forall.
  split.
  - intros [[Hn Ht] Hd]. split; [destruct item; [discriminate|congruence]|].
    split; [exact Ht|]. intros c Hc. specialize (Hd c Hc).
    apply negb_true_iff, Z.eqb_neq in Hd. exact Hd.
  - intros (Hn & Ht & Hd). split; [split; [destruct item; [congruence | reflexivity] | exact Ht]|].
    intros c Hc. apply negb_true_iff, Z.eqb_neq. exact (Hd c Hc).
Qed.

(** The entries [handleSubmit] stores are clean. *)
Lemma submitted_clean text :
  forallb clean (List.filter nonEmpty (map trim (split DELIMITER text))) = true.
Proof.
  apply forallb_forall. intros item Hin.
  apply filter_In in Hin as [Hin Hne]. apply in_map_iff in Hin as (w & <- & Hw).
  apply clean_spec. split; [destruct (trim w); [discriminate | congruence]|].
  split; [apply trim_idem|].
  apply trim_Forall.
  pose proof (split_parts DELIMITER text) as Hp.
  rewrite List.Forall_forall in Hp. apply Hp. exact Hw.
Qed.

Lemma join_cons sep a b rest :
  join sep (a :: b :: rest) = a ++ sep ++ join sep (b :: rest).
Proof. reflexivity. Qed.

(** The text [handleEdit] shows for clean entries splits back into them. *)
Lemma split_join_clean items :
  forallb clean items = true ->
  forall p, forallb isWhiteSpace p = true ->
    items <> [] ->
    map trim (split DELIMITER (p ++ join (u " | ") items)) = items.
Proof.
  induction items as [|a items IH]; intros Hc p Hp Hne; [congruence|].
  cbn [forallb] in Hc. apply andb_true_iff in Hc as [Ha Hrest].
  apply clean_spec in Ha as (Han & Hat & Had).
  destruct items as [|b items].
  - cbn [join]. rewrite split_word.
    + cbn [map]. f_equal.
      replace (p ++ a) with (p ++ a ++ []) by (rewrite app_nil_r; reflexivity).
      apply trim_padded; auto.
    + apply Forall_app. split; [|exact Had].
      rewrite forallb_forall in Hp. apply List.Forall_forall. intros c Hc E.
      specialize (Hp c Hc). subst c. discriminate.
  - rewrite join_cons. set (J := join (u " | ") (b :: items)) in *.
    replace (p ++ a ++ u " | " ++ J)
      with ((p ++ a ++ [32]) ++ DELIMITER :: ([32] ++ J))
      by (rewrite <- !app_assoc; reflexivity).
    rewrite split_app.
    + cbn [map]. f_equal.
      * apply trim_padded; auto.
      * apply (IH Hrest [32]); [reflexivity | discriminate].
    + apply Forall_app. split.
      * rewrite forallb_forall in Hp. apply List.Forall_forall. intros c Hc E.
        specialize (Hp c Hc). subst c. discriminate.
      * apply Forall_app. split; [exact Had|].
        constructor; [discriminate | constructor].
Qed.

Lemma filter_clean items :
  forallb clean items = true -> List.filter nonEmpty items = items.
Proof.
  induction items as [|a items IH]; simpl; [reflexivity|].
  intros E. apply andb_true_iff in E as [Ha Hrest].
  unfold clean in Ha. apply andb_true_iff in Ha as [Ha _].
  apply andb_true_iff in Ha as [Ha _]. rewrite Ha, IH by exact Hrest.
  reflexivity.
Qed.

Lemma submit_edit items :
  forallb clean items = true ->
  List.filter nonEmpty (map trim (split DELIMITER (join (u " | ") items)))
  = items.
Proof.
  intros Hc. destruct items as [|a items]; [reflexivity|].
  pose proof (split_join_clean (a :: items) Hc [] eq_refl) as E.
  cbn [List.app] in E. rewrite E by discriminate.
  apply filter_clean. exact Hc.
Qed.

(** X15. What [handleSubmit] stores for a pipe-separated field typed as
    text: entries that are not empty, carry no white space at either end
    and hold no pipe. A field that is not text is sent as it is. *)
Theorem X15_submitted_entries :
  (forall text,
     exists items,
       handleSubmit_field (Typed text) = Stored items
       /\ forallb clean items = true
       /\ Forall (fun item =>
            item <> [] /\ trim item = item
            /\ Forall (fun c => c <> DELIMITER) item) items)
  /\ (forall items, handleSubmit_field (Stored items) = Stored items)
  /\ handleSubmit_field Unset = Unset
  /\ handleSubmit_field (Typed []) = Stored [].
Proof.
  split; [|repeat split].
  intros text. eexists. split; [reflexivity|].
  pose proof (submitted_clean text) as Hc. split; [exact Hc|].
  rewrite forallb_forall in Hc. apply List.Forall_forall. intros item Hin.
  apply clean_spec, Hc. exact Hin.
Qed.

(** X16. Editing and saving again: for a stored array of clean entries
    the text [handleEdit] puts in the form is split by [handleSubmit]
    into the same array. *)
Theorem X16_edit_then_submit :
  forall items,
    forallb clean items = true ->
    handleSubmit_field (handleEdit_field (Stored items)) = Stored items.
Proof.
  intros items Hc. cbn [handleEdit_field handleSubmit_field].
  f_equal. apply submit_edit. exact Hc.
Qed.

(** X17. Whatever was typed, what [handleSubmit] made of it survives a
    later edit that changes nothing. *)
Theorem X17_submit_edit_submit :
  forall text,
    handleSubmit_field (handleEdit_field (handleSubmit_field (Typed text)))
    = handleSubmit_field (Typed text).
Proof.
  intros text. cbn [handleEdit_field handleSubmit_field].
  f_equal. apply submit_edit. apply submitted_clean.
Qed.

(** X18. The skills of a skill group go through the same text, by their
    names only: after an edit that changes nothing the names are those
    stored, and every skill is sent as featured, whatever its stored
    flag. *)
Theorem X18_skills_edit_then_submit :
  forall skills,
    forallb clean (map skill_name skills) = true ->
    handleSubmit_skills (handleEdit_skills (StoredSkills skills))
    = StoredSkills (map (fun s => SkillEntry (skill_name s) true) skills).
Proof.
  intros skills Hc. cbn [handleEdit_skills handleSubmit_skills]. f_equal.
  set (text := join (u " | ") (map skill_name skills)).
  assert (E : List.filter (fun skill => nonEmpty (skill_name skill))
                (map (fun skill => SkillEntry (trim skill) true)
                   (split DELIMITER text))
              = map (fun n => SkillEntry n true)
                  (List.filter nonEmpty (map trim (split DELIMITER text)))).
  { generalize (split DELIMITER text). intros l.
    induction l as [|w l IH]; simpl; [reflexivity|].
    destruct (nonEmpty (trim w)); simpl; rewrite IH; reflexivity. }
  rewrite E. unfold text. rewrite submit_edit by exact Hc.
  rewrite map_map. reflexivity.
Qed.

End FormFacts.

Lemma X16_edit_then_submit_witness :
  AdminForms.handleSubmit_field
    (AdminForms.handleEdit_field
       (AdminForms.Stored [JS.u "React"; JS.u "Node js"]))
  = AdminForms.Stored [JS.u "React"; JS.u "Node js"].
Proof.
  apply (X16_edit_then_submit [JS.u "React"; JS.u "Node js"]). reflexivity.
Defined.

Lemma X18_skills_edit_then_submit_witness :
  AdminForms.handleSubmit_skills
    (AdminForms.handleEdit_skills
       (AdminForms.StoredSkills
          [AdminForms.SkillEntry (JS.u "Rocq") false;
           AdminForms.SkillEntry (JS.u "OCaml") true]))
  = AdminForms.StoredSkills
      [AdminForms.SkillEntry (JS.u "Rocq") true;
       AdminForms.SkillEntry (JS.u "OCaml") true].
Proof.
  apply (X18_skills_edit_then_submit
           [AdminForms.SkillEntry (JS.u "Rocq") false;
            AdminForms.SkillEntry (JS.u "OCaml") true]).
  reflexivity.
Defined.

(** ** Reordering from the admin page *)

Section HandleReorderFacts.
Import Server AdminReorder.
Local Open Scope string_scope.
Local Open Scope Z_scope.

Lemma findIndex_range itemId items :
  -1 <= findIndex itemId items < Z.of_nat (length items)
  \/ (items = [] /\ findIndex itemId items = -1).
Proof.
  induction items as [|d items IH]; [right; auto|]. left.
  cbn [findIndex length]. destruct (has_id itemId d); [lia|].
  destruct (findIndex itemId items <? 0) eqn:E; [lia|].
  apply Z.ltb_ge in E. destruct IH as [IH|[-> IH]]; [lia|].
  simpl in E. lia.
Qed.

Lemma findIndex_absent itemId items :
  findIndex itemId items = -1
  <-> forall d, In d items -> has_id itemId d = false.
Proof.
  induction items as [|d items IH]; cbn [findIndex].
  - split; [intros _ d [] | reflexivity].
  - destruct (has_id itemId d) eqn:Hd.
    + split; [discriminate|]. intros Hall.
      rewrite (Hall d (or_introl eq_refl)) in Hd. discriminate.
    + destruct (findIndex itemId items <? 0) eqn:E.
      * split; [|reflexivity]. intros _ x [<-|Hx]; [exact Hd|].
        apply IH; [|exact Hx]. apply Z.ltb_lt in E.
        destruct (findIndex_range itemId items) as [R|[_ R]]; lia.
      * apply Z.ltb_ge in E. split; [lia|]. intros Hall.
        assert (findIndex itemId items = -1); [|lia].
        apply IH. intros x Hx. apply Hall. right. exact Hx.
Qed.

(** The index [findIndex] returns is the place of the first item of that
    identifier. *)
Lemma findIndex_found itemId items :
  0 <= findIndex itemId items ->
  exists pre x post,
    items = (pre ++ x :: post)%list
    /\ findIndex itemId items = Z.of_nat (length pre)
    /\ has_id itemId x = true
    /\ (forall d, In d pre -> has_id itemId d = false).
Proof.
  induction items as [|d items IH]; cbn [findIndex]; [lia|].
  destruct (has_id itemId d) eqn:Hd.
  - intros _. exists [], d, items. repeat split; auto. intros x [].
  - destruct (findIndex itemId items <? 0) eqn:E; [lia|].
    apply Z.ltb_ge in E. intros _.
    destruct (IH E) as (pre & x & post & -> & Hi & Hx & Hpre).
    exists (d :: pre), x, post. split; [reflexivity|].
    split; [rewrite Hi; cbn [length]; lia|]. split; [exact Hx|].
    intros y [<-|Hy]; [exact Hd | apply Hpre; exact Hy].
Qed.

Lemma at_index_app pre x post :
  at_index (pre ++ x :: post) (Z.of_nat (length pre)) = Some x.
Proof.
  unfold at_index. destruct (Z.of_nat (length pre) <? 0) eqn:E.
  - apply Z.ltb_lt in E. lia.
  - rewrite Nat2Z.id. apply list_lookup_middle. reflexivity.
Qed.

Lemma at_index_Some a i x :
  at_index a i = Some x ->
  exists pre post, a = (pre ++ x :: post)%list /\ i = Z.of_nat (length pre).
Proof.
  unfold at_index. destruct (i <? 0) eqn:E; [discriminate|].
  apply Z.ltb_ge in E. intros L.
  apply list_elem_of_split_length in L as (pre & post & -> & Hl).
  exists pre, post. split; [reflexivity | lia].
Qed.

Lemma swap_adjacent (pre : list document) a b post :
  <[S (length pre) := a]> (<[length pre := b]> (pre ++ a :: b :: post)%list)
  = (pre ++ b :: a :: post)%list.
Proof.
  rewrite insert_app_r_alt by lia. rewrite Nat.sub_diag. cbn [list_insert].
  rewrite insert_app_r_alt by lia.
  replace (S (length pre) - length pre)%nat with 1%nat by lia.
  reflexivity.
Qed.

Lemma swap_adjacent_back (pre : list document) a b post :
  <[length pre := b]> (<[S (length pre) := a]> (pre ++ a :: b :: post)%list)
  = (pre ++ b :: a :: post)%list.
Proof.
  rewrite insert_app_r_alt by lia.
  replace (S (length pre) - length pre)%nat with 1%nat by lia.
  cbn [list_insert].
  rewrite insert_app_r_alt by lia. rewrite Nat.sub_diag. reflexivity.
Qed.

Lemma filter_hidden (P : document -> bool) pre x y post :
  P y = false ->
  List.filter P (pre ++ x :: y :: post)%list
  = List.filter P (pre ++ y :: x :: post)%list.
Proof.
  intros Hy. rewrite !List.filter_app. cbn [List.filter]. rewrite Hy.
  reflexivity.
Qed.

Lemma handleReorder_sent :
  forall items filteredItems itemId direction moved updates,
    handleReorder items filteredItems itemId direction = Sent moved updates ->
    updates = updates_of moved
    /\ exists pre item neighbour post,
         has_id itemId item = true
         /\ (forall d, In d pre -> has_id itemId d = false)
         /\ match direction with
            | up =>
                has_id itemId neighbour = false
                /\ items = (pre ++ neighbour :: item :: post)%list
                /\ moved = (pre ++ item :: neighbour :: post)%list
            | down =>
                items = (pre ++ item :: neighbour :: post)%list
                /\ moved = (pre ++ neighbour :: item :: post)%list
            end.
Proof.
  intros items flt itemId dir moved updates. unfold handleReorder.
  destruct (findIndex itemId flt =? -1); [discriminate|].
  set (i := findIndex itemId items).
  set (s := match dir with up => i - 1 | down => i + 1 end).
  destruct ((s <? 0) || (Z.of_nat (length items) <=? s)) eqn:B; [discriminate|].
  apply orb_false_iff in B as [B1 B2].
  apply Z.ltb_ge in B1. apply Z.leb_gt in B2.
  destruct (at_index items i) as [x|] eqn:Hx; [|discriminate].
  destruct (at_index items s) as [y|] eqn:Hy; [|discriminate].
  intros E. inversion E; subst moved updates. clear E.
  split; [reflexivity|].
  assert (Hi : 0 <= i).
  { unfold at_index in Hx. destruct (i <? 0) eqn:E; [discriminate|].
    apply Z.ltb_ge in E. exact E. }
  destruct (findIndex_found itemId items Hi) as (pre & x' & post & Hit & Hlen & Hid & Hpre).
  fold i in Hlen.
  assert (x' = x).
  { rewrite Hit, Hlen, at_index_app in Hx. congruence. }
  subst x'.
  destruct dir; unfold s in *.
  - (* up: the neighbour is the last item of [pre] *)
    destruct (rev pre) as [|y' rpre] eqn:Hr.
    { apply (f_equal (@rev document)) in Hr. rewrite rev_involutive in Hr.
      subst pre. simpl in Hlen. lia. }
    assert (Hpre' : pre = (rev rpre ++ [y'])%list).
    { apply (f_equal (@rev document)) in Hr. rewrite rev_involutive in Hr.
      exact Hr. }
    set (pre0 := rev rpre) in *.
    assert (Hl0 : i - 1 = Z.of_nat (length pre0)).
    { rewrite Hlen, Hpre', length_app. simpl. lia. }
    assert (Hit' : items = (pre0 ++ y' :: x :: post)%list).
    { rewrite Hit, Hpre', <- app_assoc. reflexivity. }
    assert (y' = y).
    { rewrite Hit', Hl0, at_index_app in Hy. congruence. }
    subst y'.
    assert (Hm : <[Z.to_nat (i - 1) := x]> (<[Z.to_nat i := y]> items)
                 = (pre0 ++ x :: y :: post)%list).
    { rewrite Hl0, Nat2Z.id.
      replace (Z.to_nat i) with (S (length pre0)) by lia.
      rewrite Hit'. apply swap_adjacent_back. }
    rewrite Hm.
    exists pre0, x, y, post. split; [exact Hid|].
    split.
    { intros d Hd. apply Hpre. rewrite Hpre'. apply in_or_app. left. exact Hd. }
    split; [|split; [exact Hit' | reflexivity]].
    apply Hpre. rewrite Hpre'. apply in_or_app. right. left. reflexivity.
  - (* down: the neighbour is the first item of [post] *)
    destruct post as [|y' post].
    { rewrite Hit, length_app in B2. simpl in B2. lia. }
    assert (Hl1 : i + 1 = Z.of_nat (length (pre ++ [x])%list)).
    { rewrite Hlen, length_app. simpl. lia. }
    assert (y' = y).
    { replace (pre ++ x :: y' :: post)%list
        with ((pre ++ [x]) ++ y' :: post)%list in Hit
        by (rewrite <- app_assoc; reflexivity).
      rewrite Hit, Hl1, at_index_app in Hy. congruence. }
    subst y'.
    assert (Hm : <[Z.to_nat (i + 1) := x]> (<[Z.to_nat i := y]> items)
                 = (pre ++ y :: x :: post)%list).
    { rewrite Hlen, Nat2Z.id.
      replace (Z.to_nat (Z.of_nat (length pre) + 1)) with (S (length pre)) by lia.
      rewrite Hit. apply swap_adjacent. }
    rewrite Hm.
    exists pre, x, y, post. split; [exact Hid|]. split; [exact Hpre|].
    split; [exact Hit | reflexivity].
Qed.

Lemma handleReorder_Permutation items filteredItems itemId direction moved updates :
  handleReorder items filteredItems itemId direction = Sent moved updates ->
  moved ≡ₚ items.
Proof.
  intros E.
  destruct (handleReorder_sent _ _ _ _ _ _ E)
    as (_ & pre & x & y & post & _ & _ & Hd).
  destruct direction.
  - destruct Hd as (_ & -> & ->). apply Permutation_app_head, perm_swap.
  - destruct Hd as (-> & ->). apply Permutation_app_head, perm_swap.
Qed.

(** X19. A call of [handleReorder] that sends a request lets the first
    item of the given identifier change places with its neighbour in
    the whole list of the page, the one before it for [up] and the one
    after it for [down], and sends every item of the new list with its
    index as [order]. The neighbour is taken in the whole list: under a
    filter that hides it, the list on display keeps its order. *)
Theorem X19_handleReorder_swap :
  forall items filteredItems itemId direction moved updates,
    handleReorder items filteredItems itemId direction = Sent moved updates ->
    updates = updates_of moved
    /\ moved ≡ₚ items
    /\ exists pre item neighbour post,
         has_id itemId item = true
         /\ (forall d, In d pre -> has_id itemId d = false)
         /\ match direction with
            | up =>
                has_id itemId neighbour = false
                /\ items = (pre ++ neighbour :: item :: post)%list
                /\ moved = (pre ++ item :: neighbour :: post)%list
            | down =>
                items = (pre ++ item :: neighbour :: post)%list
                /\ moved = (pre ++ neighbour :: item :: post)%list
            end
         /\ (forall visible : document -> bool,
               visible neighbour = false ->
               List.filter visible moved = List.filter visible items).
Proof.
  intros items flt itemId dir moved updates E.
  destruct (handleReorder_sent _ _ _ _ _ _ E)
    as (Hu & pre & x & y & post & Hid & Hpre & Hd).
  split; [exact Hu|].
  split; [exact (handleReorder_Permutation _ _ _ _ _ _ E)|].
  exists pre, x, y, post. split; [exact Hid|]. split; [exact Hpre|].
  split; [exact Hd|].
  intros P HP. destruct dir.
  - destruct Hd as (_ & -> & ->). apply filter_hidden. exact HP.
  - destruct Hd as (-> & ->). symmetry. apply filter_hidden. exact HP.
Qed.

(** X20. When [handleReorder] sends nothing: for an item that the list
    on display does not hold, for the first item of the page moved up
    and for its last item moved down. With the list on display a filter
    of the list of the page, as the page computes it, the call never
    throws. *)
Theorem X20_handleReorder_no_request :
  (forall items filteredItems itemId direction,
     (forall d, In d filteredItems -> has_id itemId d = false) ->
     handleReorder items filteredItems itemId direction = NoRequest)
  /\ (forall item rest filteredItems,
        handleReorder (item :: rest) filteredItems (_id item) up = NoRequest)
  /\ (forall pre item filteredItems,
        (forall d, In d pre -> has_id (_id item) d = false) ->
        handleReorder (pre ++ [item])%list filteredItems (_id item) down
        = NoRequest)
  /\ (forall (visible : document -> bool) items itemId direction,
        handleReorder items (List.filter visible items) itemId direction
        <> Throws).
Proof.
  split; [|split; [|split]].
  - intros items flt itemId dir Habs. unfold handleReorder.
    apply findIndex_absent in Habs. rewrite Habs. reflexivity.
  - intros item rest flt. unfold handleReorder.
    destruct (findIndex (_id item) flt =? -1); [reflexivity|].
    cbn [findIndex]. unfold has_id at 1. rewrite String.eqb_refl. reflexivity.
  - intros pre item flt Hpre. unfold handleReorder.
    destruct (findIndex (_id item) flt =? -1); [reflexivity|].
    assert (Hi : findIndex (_id item) (pre ++ [item])%list = Z.of_nat (length pre)).
    { clear flt. induction pre as [|d pre IH]; cbn [findIndex List.app].
      - unfold has_id. rewrite String.eqb_refl. reflexivity.
      - rewrite (Hpre d (or_introl eq_refl)).
        rewrite IH by (intros x Hx; apply Hpre; right; exact Hx).
        destruct (Z.of_nat (length pre) <? 0) eqn:E;
          [apply Z.ltb_lt in E; lia|].
        cbn [length]. lia. }
    rewrite Hi, length_app. cbn [length].
    replace (Z.of_nat (length pre + 1) <=? Z.of_nat (length pre) + 1)
      with true by (symmetry; apply Z.leb_le; lia).
    rewrite orb_true_r. reflexivity.
  - intros P items itemId dir. unfold handleReorder.
    destruct (findIndex itemId (List.filter P items) =? -1) eqn:Hc;
      [discriminate|].
    set (i := findIndex itemId items).
    set (s := match dir with up => i - 1 | down => i + 1 end).
    destruct ((s <? 0) || (Z.of_nat (length items) <=? s)) eqn:B; [discriminate|].
    apply orb_false_iff in B as [B1 B2].
    apply Z.ltb_ge in B1. apply Z.leb_gt in B2.
    assert (Hi : 0 <= i).
    { destruct (Z.eq_dec i (-1)) as [E|E].
      - exfalso. apply Z.eqb_neq in Hc. apply Hc.
        apply findIndex_absent. intros d Hd. apply filter_In in Hd as [Hd _].
        revert d Hd. apply findIndex_absent. exact E.
      - destruct (findIndex_range itemId items) as [R|[_ R]]; fold i in R; lia. }
    assert (Hx : is_Some (at_index items i)).
    { unfold at_index. destruct (i <? 0) eqn:E; [apply Z.ltb_lt in E; lia|].
      apply lookup_lt_is_Some.
      destruct (findIndex_range itemId items) as [R|[_ R]]; fold i in R; lia. }
    assert (Hy : is_Some (at_index items s)).
    { unfold at_index. destruct (s <? 0) eqn:E; [apply Z.ltb_lt in E; lia|].
      apply lookup_lt_is_Some. lia. }
    destruct Hx as [x ->], Hy as [y ->]. discriminate.
Qed.

(** X21. The endpoint [handleReorder] writes to is the one the list of
    the page was read from, on the home tab and on the creatives tab,
    which are the tabs that show the arrows; in every state it is one of
    the seven endpoints that have a reorder route. *)
Theorem X21_reorder_endpoint :
  (forall homeSubTab creativesSubTab,
     reorderEndpoint home homeSubTab creativesSubTab
     = fetchHomeItems_endpoint homeSubTab)
  /\ (forall homeSubTab creativesSubTab,
        reorderEndpoint creatives homeSubTab creativesSubTab
        = fetchCreativesItems_endpoint creativesSubTab)
  /\ (forall activeTab homeSubTab creativesSubTab,
        exists c,
          In (reorderEndpoint activeTab homeSubTab creativesSubTab, c)
             [("photography", Photography); ("videos", Video);
              ("experience", Experience); ("projects", Project);
              ("skills", Skill); ("courses", Course); ("creatives", Creative)]).
Proof.
  split; [intros [] []; reflexivity|].
  split; [intros [] []; reflexivity|].
  intros [] [] []; eexists; simpl; tauto.
Qed.

End HandleReorderFacts.

Lemma X19_handleReorder_swap_witness :
  let a := Server.Document "a" 1 1 ∅ in
  let b := Server.Document "b" 2 2 ∅ in
  let c := Server.Document "c" 3 3 ∅ in
  AdminReorder.handleReorder [a; b; c] [a; b; c] "b" AdminReorder.up
  = AdminReorder.Sent [b; a; c] (AdminReorder.updates_of [b; a; c])
  /\ [b; a; c] ≡ₚ [a; b; c].
Proof.
  intros a b c.
  assert (E : AdminReorder.handleReorder [a; b; c] [a; b; c] "b" AdminReorder.up
              = AdminReorder.Sent [b; a; c] (AdminReorder.updates_of [b; a; c])).
  { reflexivity. }
  split; [exact E|].
  exact (proj1 (proj2 (X19_handleReorder_swap _ _ _ _ _ _ E))).
Defined.

Lemma X20_handleReorder_no_request_witness :
  AdminReorder.handleReorder [Server.Document "a" 1 1 ∅] [] "a"
    AdminReorder.down
  = AdminReorder.NoRequest.
Proof.
  apply (proj1 X20_handleReorder_no_request). intros d [].
Defined.

(** ** From the arrows of the admin page to the order of the list *)

Section ReorderEndToEnd.
Import Server AdminAuth AdminReorder.
Local Open Scope string_scope.
Local Open Scope Z_scope.
Context `{Externals}.

Lemma updates_from_0 l : updates_of l = updates_from 0%nat l.
Proof. reflexivity. Qed.

Lemma updates_from_In n l item :
  In item (updates_from n l) ->
  exists d k, In d l
    /\ item = VObj [("id", VStr (_id d)); ("order", VNum (Z.of_nat k))].
Proof.
  intros Hin. unfold updates_from in Hin.
  apply list_elem_of_In, elem_of_lookup_imap_1 in Hin as (i & d & -> & Hl).
  exists d, (n + i)%nat. split; [|reflexivity].
  apply list_elem_of_In. eapply list_elem_of_lookup_2. exact Hl.
Qed.

Lemma updates_from_split n l1 d l2 :
  updates_from n (l1 ++ d :: l2)%list
  = (updates_from n l1
     ++ VObj [("id", VStr (_id d));
              ("order", VNum (Z.of_nat (n + length l1)))]
     :: updates_from (n + S (length l1))%nat l2)%list.
Proof.
  unfold updates_from. rewrite imap_app, imap_cons. cbn [compose].
  rewrite Nat.add_0_r. f_equal. f_equal.
  apply imap_ext. intros i x _. cbn [compose].
  replace (n + (length l1 + S i))%nat with (n + S (length l1) + i)%nat by lia.
  reflexivity.
Qed.

Lemma updates_of_In l item :
  In item (updates_of l) ->
  exists d k, In d l
    /\ item = VObj [("id", VStr (_id d)); ("order", VNum (Z.of_nat k))].
Proof. rewrite updates_from_0. apply updates_from_In. Qed.

Lemma updates_of_no_null l : existsb is_null (updates_of l) = false.
Proof.
  destruct (existsb is_null (updates_of l)) eqn:E; [|reflexivity].
  apply existsb_exists in E as (item & Hin & Hn).
  apply updates_of_In in Hin as (d & k & _ & ->). discriminate.
Qed.

(** A batch whose items all cast is answered without an error. *)
Lemma reorder_all_accepted c now :
  c <> BlogPost ->
  forall items docs,
    (forall item, In item items ->
       exists i k j v,
         item = VObj [("id", VStr i); ("order", VNum k)]
         /\ castObjectId (VStr i) = Some j
         /\ cast c (Path "order" SNumber (Some (VNum 0))) (VNum k) = Some v) ->
    fst (reorder_all c now items docs) = None.
Proof.
  intros Hc. induction items as [|item items IH]; intros docs Hall;
    [reflexivity|].
  destruct (Hall item (or_introl eq_refl)) as (i & k & j & v & -> & Hi & Hk).
  cbn [reorder_all].
  rewrite findByIdAndUpdate_fields by apply order_update_fields.
  rewrite (castFields_order c _ (VNum k)) by reflexivity.
  rewrite Hk. cbn [property member]. cbn. rewrite Hi.
  destruct (lookup_id j docs) as [d|].
  - rewrite no_unique_index by exact Hc.
    apply IH. intros x Hx. apply Hall. right. exact Hx.
  - apply IH. intros x Hx. apply Hall. right. exact Hx.
Qed.

Lemma lookup_id_unique docs d :
  NoDup (map _id docs) -> In d docs -> lookup_id (_id d) docs = Some d.
Proof.
  unfold lookup_id. induction docs as [|d0 docs IH]; intros Hnd Hin;
    [destruct Hin|].
  cbn [map] in Hnd. apply NoDup_cons in Hnd as [Hfresh Hnd].
  cbn [List.find]. destruct (has_id (_id d) d0) eqn:E.
  - apply has_id_eq in E. destruct Hin as [->|Hin]; [reflexivity|].
    exfalso. apply Hfresh. rewrite E. apply list_elem_of_In, in_map. exact Hin.
  - destruct Hin as [->|Hin].
    + unfold has_id in E. rewrite String.eqb_refl in E. discriminate.
    + apply IH; assumption.
Qed.

Lemma Forall2_reordered_ids now ids docs docs' :
  Forall2 (reordered now ids) docs docs' -> map _id docs' = map _id docs.
Proof.
  induction 1 as [|d d' l l' (Hid & _) _ IH]; [reflexivity|].
  cbn [map]. rewrite Hid, IH. reflexivity.
Qed.

Lemma StronglySorted_lookup {A} (R : A -> A -> Prop) l :
  (forall i j x y, (i < j)%nat -> l !! i = Some x -> l !! j = Some y -> R x y) ->
  StronglySorted R l.
Proof.
  induction l as [|a l IH]; intros Hl; constructor.
  - apply IH. intros i j x y Hij Hx Hy. apply (Hl (S i) (S j)); auto. lia.
  - apply List.Forall_forall. intros y Hy.
    apply list_elem_of_In, list_elem_of_lookup_1 in Hy as [j Hj].
    apply (Hl 0%nat (S j)); auto. lia.
Qed.

Lemma precedes_by_order spec d1 d2 a b :
  paths d1 !! "order" = Some (VNum a) -> paths d2 !! "order" = Some (VNum b) ->
  (a < b -> precedes (("order", Asc) :: spec) d1 d2)
  /\ (precedes (("order", Asc) :: spec) d1 d2 -> a <= b).
Proof.
  intros H1 H2. unfold precedes. cbn [sorts_before].
  change (field d1 "order") with (paths d1 !! "order").
  change (field d2 "order") with (paths d2 !! "order").
  rewrite H1, H2. cbn [compare_values].
  destruct (a ?= b) eqn:E.
  - apply Z.compare_eq in E. split; [lia | intros _; lia].
  - assert (Hlt : a < b) by exact E. split; [reflexivity | intros _; lia].
  - apply Z.compare_gt_iff in E. split; [intros; lia | discriminate].
Qed.

Lemma sort_spec_order c :
  c <> BlogPost -> exists rest, sort_spec c = ("order", Asc) :: rest.
Proof. destruct c; intros Hc; eexists; reflexivity. Qed.

(** A collection in which the documents named by a list carry their
    place in that list as [order] is listed in the order of that list. *)
Lemma sorted_as_numbered spec docs moved :
  NoDup (map _id docs) ->
  map _id moved ≡ₚ map _id docs ->
  (forall k d, moved !! k = Some d ->
     exists d', lookup_id (_id d) docs = Some d'
                /\ paths d' !! "order" = Some (VNum (Z.of_nat k))) ->
  length (sort (("order", Asc) :: spec) docs) = length moved
  /\ forall k d, moved !! k = Some d ->
       exists d', sort (("order", Asc) :: spec) docs !! k = Some d'
                  /\ lookup_id (_id d) docs = Some d'
                  /\ paths d' !! "order" = Some (VNum (Z.of_nat k)).
Proof.
  intros Hnd Hperm Hnum.
  set (T := imap (fun (k : nat) d =>
                    default d (lookup_id (_id d) docs)) moved).
  assert (HT : forall k d', T !! k = Some d' ->
            exists d, moved !! k = Some d
                      /\ lookup_id (_id d) docs = Some d'
                      /\ paths d' !! "order" = Some (VNum (Z.of_nat k))).
  { intros k d' Hk. unfold T in Hk. rewrite list_lookup_imap in Hk.
    destruct (moved !! k) as [d|] eqn:Hd; [|discriminate].
    simpl in Hk. destruct (Hnum k d Hd) as (d1 & Hl & Ho).
    rewrite Hl in Hk. simpl in Hk. inversion Hk; subst d1.
    exists d. auto. }
  assert (HTid : map _id T = map _id moved).
  { apply list_eq. intros k.
    change (map _id T) with (_id <$> T).
    change (map _id moved) with (_id <$> moved).
    rewrite !list_lookup_fmap.
    destruct (T !! k) as [d'|] eqn:Hk.
    - destruct (HT k d' Hk) as (d & Hd & Hl & _). rewrite Hd. simpl.
      apply lookup_id_Some in Hl as [_ Hl]. congruence.
    - unfold T in Hk. rewrite list_lookup_imap in Hk.
      destruct (moved !! k); [discriminate | reflexivity]. }
  assert (HTnd : NoDup T).
  { apply (NoDup_fmap_1 _id). change (_id <$> T) with (map _id T).
    rewrite HTid, Hperm. exact Hnd. }
  assert (HTperm : T ≡ₚ docs).
  { apply submseteq_length_Permutation.
    - apply NoDup_submseteq; [exact HTnd|]. intros x Hx.
      apply list_elem_of_lookup_1 in Hx as [k Hk].
      destruct (HT k x Hk) as (d & _ & Hl & _).
      apply lookup_id_Some in Hl as [Hin _]. apply list_elem_of_In. exact Hin.
    - unfold T. rewrite length_imap.
      apply Permutation_length in Hperm. rewrite !length_map in Hperm. lia. }
  assert (HTsorted : StronglySorted (precedes (("order", Asc) :: spec)) T).
  { apply StronglySorted_lookup. intros i j x y Hij Hx Hy.
    destruct (HT i x Hx) as (_ & _ & _ & Ox).
    destruct (HT j y Hy) as (_ & _ & _ & Oy).
    apply (proj1 (precedes_by_order spec x y _ _ Ox Oy)). lia. }
  destruct (sort_sorted (("order", Asc) :: spec) docs) as [Ss Sp].
  assert (E : sort (("order", Asc) :: spec) docs = T).
  { apply (StronglySorted_unique_strong (precedes (("order", Asc) :: spec)));
      [|exact Ss | exact HTsorted | rewrite Sp, HTperm; reflexivity].
    intros x1 x2 H1 H2 R12 R21.
    rewrite Sp, <- HTperm in H1.
    apply list_elem_of_lookup_1 in H1 as [k1 K1].
    apply list_elem_of_lookup_1 in H2 as [k2 K2].
    destruct (HT k1 x1 K1) as (_ & _ & _ & O1).
    destruct (HT k2 x2 K2) as (_ & _ & _ & O2).
    pose proof (proj2 (precedes_by_order spec x1 x2 _ _ O1 O2) R12).
    pose proof (proj2 (precedes_by_order spec x2 x1 _ _ O2 O1) R21).
    assert (k1 = k2) by lia. subst k2. congruence. }
  rewrite E. split; [unfold T; apply length_imap|].
  intros k d Hd. destruct (Hnum k d Hd) as (d' & Hl & Ho).
  exists d'. split; [|split; assumption].
  unfold T. rewrite list_lookup_imap, Hd. simpl. rewrite Hl. reflexivity.
Qed.

(** X22. From the click to the list. The page holds the documents of a
    collection other than blog posts, with identifiers that differ and
    cast to themselves, and numbers cast to themselves as [order]. When
    [handleReorder] sends its request with a token that verifies, the
    server answers 200 [Updated], touches no other collection, and from
    then on the list of the collection comes in the order of the list
    the page shows after the answer: at each place the document of the
    same identifier, with the same creation time and the same paths
    apart from [order], which is the index of the place. *)
Theorem X22_reorder_end_to_end :
  forall name c now items filteredItems itemId direction moved updates st
         token,
    In (name, c)
       [("photography", Photography); ("videos", Video);
        ("experience", Experience); ("projects", Project);
        ("skills", Skill); ("courses", Course); ("creatives", Creative)] ->
    items ≡ₚ st c ->
    NoDup (map _id (st c)) ->
    (forall d, In d (st c) -> castObjectId (VStr (_id d)) = Some (_id d)) ->
    (forall n, cast c (Path "order" SNumber (Some (VNum 0))) (VNum n)
               = Some (VNum n)) ->
    spaceless token = true -> token <> EmptyString ->
    jwt_verify token now = true ->
    handleReorder items filteredItems itemId direction = Sent moved updates ->
    exists st',
      app now (reorderRequest name (Some token) updates) st
      = (Response 200 (Message "Updated"), st')
      /\ (forall c', c' <> c -> st' c' = st c')
      /\ forall now' req',
           req_method req' = GET -> req_path req' = ["api"; name] ->
           req_query req' !! "type" = None ->
           exists docs,
             app now' req' st' = (Response 200 (Docs docs), st')
             /\ map _id docs = map _id moved
             /\ Forall2 (fun d d' =>
                  _id d' = _id d /\ createdAt d' = createdAt d
                  /\ forall key, key <> "order" ->
                       paths d' !! key = paths d !! key) moved docs
             /\ forall k d', docs !! k = Some d' ->
                  paths d' !! "order" = Some (VNum (Z.of_nat k)).
Proof.
  intros name c now items flt itemId dir moved updates st token
    Hin Hitems Hnd Hids Hnum Hsp Hne Hjwt Hsent.
  assert (Hc : c <> BlogPost).
  { simpl in Hin. intros ->.
    repeat (destruct Hin as [Hin|Hin]; [discriminate Hin|]). destruct Hin. }
  pose proof (handleReorder_Permutation _ _ _ _ _ _ Hsent) as Hmoved.
  destruct (handleReorder_sent _ _ _ _ _ _ Hsent) as (-> & _).
  assert (Hmst : moved ≡ₚ st c) by (rewrite Hmoved; exact Hitems).
  assert (Hmin : forall d, In d moved -> In d (st c)).
  { intros d Hd. apply list_elem_of_In. rewrite <- Hmst.
    apply list_elem_of_In. exact Hd. }
  assert (Hmnd : NoDup (map _id moved)).
  { change (map _id moved) with (_id <$> moved). rewrite Hmst. exact Hnd. }
  (* the request reaches the reorder handler *)
  assert (A : app now (reorderRequest name (Some token) (updates_of moved)) st
              = reorder_handler c now
                  (reorderRequest name (Some token) (updates_of moved)) st).
  { unfold reorderRequest.
    rewrite (app_run now _ st _ _
               (lookup_reorder name c "reorder" _ _ _ _ Hin eq_refl)).
    - reflexivity.
    - change (getAuthHeaders (Some token)) with ("Bearer" +:+ " " +:+ token).
      rewrite authMiddleware_words by auto. rewrite Hjwt. reflexivity. }
  rewrite A. unfold reorder_handler, reorderRequest. cbn [req_body].
  rewrite lookup_singleton_eq, updates_of_no_null.
  destruct (reorder_all c now (updates_of moved) (st c)) as [e docs'] eqn:R.
  assert (He : e = None).
  { change e with (fst (e, docs')). rewrite <- R.
    apply reorder_all_accepted; [exact Hc|].
    intros item Hitem. apply updates_of_In in Hitem as (d & k & Hd & ->).
    exists (_id d), (Z.of_nat k), (_id d), (VNum (Z.of_nat k)).
    split; [reflexivity|]. split; [apply Hids, Hmin, Hd | apply Hnum]. }
  subst e. eexists. split; [reflexivity|].
  split; [intros c' Hc'; apply set_collection_other; exact Hc'|].
  assert (Hdocs' : docs' = snd (reorder_all c now (updates_of moved) (st c)))
    by (rewrite R; reflexivity).
  (* every document keeps what a reorder does not touch *)
  assert (F : Forall2 (reordered now (map _id moved)) (st c) docs').
  { rewrite Hdocs'. apply reorder_all_frame.
    intros item i Hitem Hn. apply updates_of_In in Hitem as (d & k & Hd & ->).
    unfold named in Hn. cbn in Hn. rewrite (Hids d (Hmin d Hd)) in Hn.
    inversion Hn; subst i. apply in_map. exact Hd. }
  pose proof (Forall2_reordered_ids _ _ _ _ F) as Fid.
  (* every document of the page carries its index *)
  assert (N : forall k d, moved !! k = Some d ->
            exists d', lookup_id (_id d) docs' = Some d'
                       /\ paths d' !! "order" = Some (VNum (Z.of_nat k))).
  { intros k d Hk.
    apply list_elem_of_split_length in Hk as (l1 & l2 & Hm & Hl).
    assert (Hd : In d moved).
    { rewrite Hm. apply in_or_app. right. left. reflexivity. }
    destruct (reorder_all_applied c now
                (updates_from 0%nat l1)
                (VObj [("id", VStr (_id d));
                       ("order", VNum (Z.of_nat (0 + length l1)))])
                (updates_from (0 + S (length l1))%nat l2)
                (st c) (VStr (_id d)) (_id d)
                (VNum (Z.of_nat (0 + length l1)))
                (VNum (Z.of_nat (0 + length l1))) d)
      as (d' & Hl' & Ho & _).
    - exact Hc.
    - reflexivity.
    - apply Hids, Hmin, Hd.
    - reflexivity.
    - apply Hnum.
    - intros item' Hitem' Hn.
      apply updates_from_In in Hitem' as (d2 & k2 & Hd2 & ->).
      assert (Hd2' : In d2 moved).
      { rewrite Hm. apply in_or_app. right. right. exact Hd2. }
      unfold named in Hn. cbn in Hn. rewrite (Hids d2 (Hmin d2 Hd2')) in Hn.
      inversion Hn as [Heq].
      rewrite Hm, map_app in Hmnd. cbn [map] in Hmnd.
      apply NoDup_app in Hmnd as (_ & _ & Hmnd).
      apply NoDup_cons in Hmnd as [Hfresh _]. apply Hfresh.
      rewrite <- Heq. apply list_elem_of_In, in_map. exact Hd2.
    - apply lookup_id_unique; [exact Hnd | apply Hmin, Hd].
    - exists d'. split.
      + rewrite Hdocs', updates_from_0, Hm, updates_from_split. exact Hl'.
      + rewrite Ho. repeat f_equal. lia. }
  intros now' req' Hm' Hp' Hq.
  rewrite (app_list now' req' _ name c Hin Hm' Hp').
  unfold list_handler. rewrite set_collection_same.
  assert (Fl : list_filter c req' = []).
  { unfold list_filter. rewrite Hq. destruct c; reflexivity. }
  rewrite Fl, find_all.
  destruct (sort_spec_order c Hc) as [rest ->].
  destruct (sorted_as_numbered rest docs' moved) as [Hlen Hsorted].
  { rewrite Fid. exact Hnd. }
  { rewrite Fid. change (map _id moved) with (_id <$> moved).
    rewrite Hmst. reflexivity. }
  { exact N. }
  eexists. split; [reflexivity|].
  set (docs := sort (("order", Asc) :: rest) docs') in *.
  assert (Hrel : forall k d d', moved !! k = Some d -> docs !! k = Some d' ->
            lookup_id (_id d) docs' = Some d'
            /\ paths d' !! "order" = Some (VNum (Z.of_nat k))).
  { intros k d d' Hk Hk'. destruct (Hsorted k d Hk) as (d1 & H1 & H2 & H3).
    rewrite H1 in Hk'. inversion Hk'; subst d1. auto. }
  split; [|split].
  - apply list_eq. intros k.
    change (map _id docs) with (_id <$> docs).
    change (map _id moved) with (_id <$> moved).
    rewrite !list_lookup_fmap.
    destruct (moved !! k) as [d|] eqn:Hk.
    + destruct (Hsorted k d Hk) as (d' & H1 & H2 & _). rewrite H1. simpl.
      apply lookup_id_Some in H2 as [_ H2]. congruence.
    + apply lookup_ge_None in Hk. rewrite <- Hlen in Hk.
      apply lookup_ge_None in Hk. rewrite Hk. reflexivity.
  - apply Forall2_same_length_lookup_2; [symmetry; exact Hlen|].
    intros k d d' Hk Hk'. destruct (Hrel k d d' Hk Hk') as [Hl _].
    assert (Hd : In d (st c)).
    { apply Hmin, list_elem_of_In. eapply list_elem_of_lookup_2. exact Hk. }
    destruct (lookup_id_Forall2 (reordered now (map _id moved)) (_id d)
                (st c) docs' d) as (d1 & Hl1 & Hr).
    + intros x y (Hxy & _). exact Hxy.
    + exact F.
    + apply lookup_id_unique; assumption.
    + rewrite Hl in Hl1. inversion Hl1; subst d1.
      destruct Hr as (R1 & R2 & R3 & _). auto.
  - intros k d' Hk'.
    destruct (moved !! k) as [d|] eqn:Hk.
    + exact (proj2 (Hrel k d d' Hk Hk')).
    + apply lookup_ge_None in Hk. rewrite <- Hlen in Hk.
      apply lookup_ge_None in Hk. congruence.
Qed.

End ReorderEndToEnd.

Lemma X22_reorder_end_to_end_witness :
  let a := Server.sample_skill "65f00000000000000000000a" "Languages" in
  let b := Server.sample_skill "65f00000000000000000000b" "Tools" in
  let st := Server.set_collection Server.empty_store Server.Skill [a; b] in
  exists st',
    @Server.app Server.sample 9
      (AdminReorder.reorderRequest "skills" (Some "good"%string)
         (AdminReorder.updates_of [b; a])) st
    = (Server.Response 200 (Server.Message "Updated"), st')
    /\ exists docs,
         @Server.app Server.sample 10
           (Server.Request Server.GET ["api"; "skills"]%string ∅ None ∅ None)
           st'
         = (Server.Response 200 (Server.Docs docs), st')
         /\ map Server._id docs
            = ["65f00000000000000000000b"; "65f00000000000000000000a"]%string.
Proof.
  intros a b st.
  destruct (@X22_reorder_end_to_end Server.sample "skills"%string Server.Skill
              9 [a; b] [a; b] "65f00000000000000000000b"%string
              AdminReorder.up [b; a]
              (AdminReorder.updates_of [b; a]) st "good"%string)
    as (st' & E & _ & L).
  - simpl. tauto.
  - reflexivity.
  - apply (bool_decide_unpack _). vm_compute. reflexivity.
  - intros d [<-|[<-|[]]]; reflexivity.
  - intros n. reflexivity.
  - reflexivity.
  - discriminate.
  - reflexivity.
  - reflexivity.
  - exists st'. split; [exact E|].
    destruct (L 10
                (Server.Request Server.GET ["api"; "skills"]%string ∅ None ∅
                   None))
      as (docs & E' & Hid & _).
    + reflexivity.
    + reflexivity.
    + reflexivity.
    + exists docs. split; [exact E' | exact Hid].
Defined.

(** ** The filters of the public pages *)

Section PublicPagesFacts.
Import JS JSText PublicPages.
Variable lowerCase : jsstring -> jsstring.

Lemma jseqb_refl s : JS.eqb s s = true.
Proof. apply jseqb_eq. reflexivity. Qed.

Lemma jseqb_neq s t : JS.eqb s t = false <-> s <> t.
Proof.
  destruct (JS.eqb s t) eqn:E.
  - apply jseqb_eq in E. split; [discriminate | congruence].
  - split; [|reflexivity]. intros _ Heq. apply jseqb_eq in Heq. congruence.
Qed.

Lemma includes_In l s : includes l s = true <-> In s l.
Proof.
  unfold includes. rewrite existsb_exists. split.
  - intros (x & Hx & E). apply jseqb_eq in E. subst. exact Hx.
  - intros Hin. exists s. split; [exact Hin | apply jseqb_refl].
Qed.

Lemma unique_In a x : In x (unique a) <-> In x a.
Proof.
  induction a as [|y a IH]; [reflexivity|].
  cbn [unique]. cbn [In]. rewrite filter_In, IH, negb_true_iff, jseqb_neq.
  destruct (decide (y = x)) as [E|E]; tauto.
Qed.

Lemma filter_NoDup {A} (f : A -> bool) l : NoDup l -> NoDup (List.filter f l).
Proof.
  induction l as [|x l IH]; intros Hnd; [constructor|].
  apply NoDup_cons in Hnd as [Hx Hnd]. cbn [List.filter].
  destruct (f x); [|apply IH; exact Hnd].
  apply NoDup_cons. split; [|apply IH; exact Hnd].
  intros Hin. apply Hx. apply list_elem_of_In in Hin.
  apply filter_In in Hin as [Hin _]. apply list_elem_of_In. exact Hin.
Qed.

Lemma unique_NoDup a : NoDup (unique a).
Proof.
  induction a as [|x a IH]; [constructor|].
  cbn [unique]. apply NoDup_cons. split; [|apply filter_NoDup; exact IH].
  intros Hin. apply list_elem_of_In, filter_In in Hin as [_ Hx].
  rewrite jseqb_refl in Hx. discriminate.
Qed.

Lemma nonEmpty_spec s : nonEmpty s = true <-> s <> [].
Proof. destruct s; simpl; split; congruence. Qed.

(** X23. The category buttons of a gallery: each category that is not
    empty and that some item of the gallery has, once. *)
Theorem X23_gallery_categories :
  forall photos,
    NoDup (photoCategories photos)
    /\ forall c,
         In c (photoCategories photos)
         <-> c <> [] /\ exists p, In p photos /\ category p = c.
Proof.
  intros photos. unfold photoCategories. split; [apply unique_NoDup|].
  intros c. rewrite unique_In, filter_In, in_map_iff, nonEmpty_spec.
  split.
  - intros [(p & E & Hp) Hc]. split; [exact Hc|]. exists p. auto.
  - intros [Hc (p & Hp & E)]. split; [|exact Hc]. exists p. auto.
Qed.

Lemma photoTags_In cat photos tag :
  In tag (photoTags cat photos)
  <-> tag <> []
      /\ exists p, In p photos /\ In tag (tags p)
                   /\ (cat = u "all" \/ category p = cat).
Proof.
  unfold photoTags. rewrite filter_In, unique_In, in_flat_map, nonEmpty_spec.
  destruct (JS.eqb cat (u "all")) eqn:E; cbn [negb].
  - apply jseqb_eq in E. split.
    + intros [(p & Hp & Ht) Hn]. split; [exact Hn|]. exists p. auto.
    + intros [Hn (p & Hp & Ht & _)]. split; [|exact Hn]. exists p. auto.
  - apply jseqb_neq in E. split.
    + intros [(p & Hp & Ht) Hn]. split; [exact Hn|].
      apply filter_In in Hp as [Hp Hc]. apply jseqb_eq in Hc.
      exists p. auto.
    + intros [Hn (p & Hp & Ht & [Hc|Hc])]; [congruence|].
      split; [|exact Hn]. exists p. split; [|exact Ht].
      apply filter_In. split; [exact Hp | apply jseqb_eq; exact Hc].
Qed.

Lemma filteredPhotos_In searchTerm cat tag photos p :
  In p (filteredPhotos lowerCase searchTerm cat tag photos)
  <-> In p photos
      /\ matchesSearch lowerCase searchTerm p = true
      /\ (cat = u "all" \/ category p = cat)
      /\ (tag = u "all" \/ In tag (tags p)).
Proof.
  unfold filteredPhotos.
  rewrite !filter_In, !orb_true_iff, !jseqb_eq, includes_In. tauto.
Qed.

(** X24. The tag buttons of a gallery, offered for the selected
    category: each tag once, none empty, and each carried by some item
    of that category. With an empty search box the gallery shown for an
    offered tag is never empty. *)
Theorem X24_gallery_tags :
  forall photoCategoryFilter photos,
    NoDup (photoTags photoCategoryFilter photos)
    /\ forall tag,
         In tag (photoTags photoCategoryFilter photos) ->
         tag <> []
         /\ exists p,
              In p (filteredPhotos lowerCase [] photoCategoryFilter tag photos)
              /\ In tag (tags p).
Proof.
  intros cat photos. split.
  { unfold photoTags. apply filter_NoDup, unique_NoDup. }
  intros tag Hin. apply photoTags_In in Hin as [Hn (p & Hp & Ht & Hc)].
  split; [exact Hn|]. exists p. split; [|exact Ht].
  apply filteredPhotos_In. split; [exact Hp|]. split; [reflexivity|].
  split; [exact Hc | right; exact Ht].
Qed.

Lemma filter_sublist {A} (f : A -> bool) l : sublist (List.filter f l) l.
Proof.
  induction l as [|x l IH]; [constructor|].
  cbn [List.filter]. destruct (f x); constructor; exact IH.
Qed.

Lemma filter_all {A} (f : A -> bool) l :
  (forall x, In x l -> f x = true) -> List.filter f l = l.
Proof.
  induction l as [|x l IH]; intros Hall; [reflexivity|].
  cbn [List.filter]. rewrite (Hall x (or_introl eq_refl)).
  f_equal. apply IH. intros y Hy. apply Hall. right. exact Hy.
Qed.

(** X25. What a gallery shows: items of the fetched data that are
    featured, in the order of the data, each matching the search, the
    selected category and the selected tag; with an empty search box and
    both filters on [all], every featured item. *)
Theorem X25_gallery_shown :
  forall searchTerm photoCategoryFilter photoTagFilter data,
    let shown :=
      filteredPhotos lowerCase searchTerm photoCategoryFilter photoTagFilter
        (fetchAllData data) in
    sublist shown data
    /\ (forall p,
          In p shown
          <-> In p data /\ featured p = true
              /\ matchesSearch lowerCase searchTerm p = true
              /\ (photoCategoryFilter = u "all"
                  \/ category p = photoCategoryFilter)
              /\ (photoTagFilter = u "all" \/ In photoTagFilter (tags p)))
    /\ filteredPhotos lowerCase [] (u "all") (u "all") (fetchAllData data)
       = List.filter featured data.
Proof.
  intros searchTerm cat tag data shown. split; [|split].
  - unfold shown, filteredPhotos, fetchAllData.
    repeat (etransitivity; [apply filter_sublist|]). reflexivity.
  - intros p. unfold shown. rewrite filteredPhotos_In.
    unfold fetchAllData. rewrite filter_In. tauto.
  - unfold filteredPhotos, fetchAllData.
    do 3 (rewrite filter_all by (intros; reflexivity)). reflexivity.
Qed.

(** X26. The tag buttons of the blog list: each tag of the fetched posts
    once. With an empty search box, and an empty text being a part of
    every text in lower case, the list shown for a tag that is offered
    and not empty is never empty, and with no tag selected every post is
    shown. *)
Theorem X26_blog_list_tags :
  forall posts,
    lowerCase [] = [] ->
    NoDup (allTags posts)
    /\ (forall tag, In tag (allTags posts)
          <-> exists p, In p posts /\ In tag (post_tags p))
    /\ (forall tag,
          In tag (allTags posts) -> tag <> [] ->
          exists p, In p (filteredPosts lowerCase [] tag posts)
                    /\ In tag (post_tags p))
    /\ filteredPosts lowerCase [] [] posts = posts.
Proof.
  intros posts Hl.
  assert (Hall : forall tag, In tag (allTags posts)
                   <-> exists p, In p posts /\ In tag (post_tags p)).
  { intros tag. unfold allTags. rewrite unique_In, in_flat_map. reflexivity. }
  assert (Ho : forall s, occurs (lowerCase []) s = true).
  { intros s. rewrite Hl. destruct s; reflexivity. }
  split; [apply unique_NoDup|]. split; [exact Hall|]. split.
  - intros tag Hin Hne. apply Hall in Hin as (p & Hp & Ht).
    exists p. split; [|exact Ht]. unfold filteredPosts.
    apply filter_In. split; [exact Hp|]. rewrite Ho. cbn [orb andb].
    apply orb_true_iff. right. apply includes_In. exact Ht.
  - unfold filteredPosts. apply filter_all. intros p _.
    rewrite Ho. reflexivity.
Qed.

(** X27. The icon of a technology is a file of the icons directory with
    the extension [svg] whose name holds no dot and no white space, so
    that the path has one extension and no gap. *)
Theorem X27_tech_icon :
  forall tech,
    exists name,
      getTechIcon lowerCase tech = u "/assets/icons/" ++ name ++ u ".svg"
      /\ Forall (fun c => c <> 46 /\ isWhiteSpace c = false) name
      /\ (tech = u "C#" -> name = u "csharp").
Proof.
  intros tech. unfold getTechIcon.
  destruct (JS.eqb tech (u "C#")) eqn:E.
  - exists (u "csharp"). split; [reflexivity|]. split; [|reflexivity].
    vm_compute. repeat constructor; discriminate.
  - exists (iconName lowerCase tech). split; [reflexivity|].
    split; [|intros ->; rewrite jseqb_refl in E; discriminate].
    unfold iconName. apply List.Forall_forall. intros c Hc.
    apply filter_In in Hc as [_ Hc]. apply negb_true_iff in Hc.
    unfold isDotOrSpace in Hc. apply orb_false_iff in Hc as [H1 H2].
    apply Z.eqb_neq in H1. auto.
Qed.

End PublicPagesFacts.

Lemma X24_gallery_tags_witness :
  let p := PublicPages.Item (JS.u "Dawn") [] (JS.u "landscape") [JS.u "sea"] true in
  exists q,
    In q (PublicPages.filteredPhotos JS.toLowerCase [] (JS.u "landscape")
            (JS.u "sea") [p])
    /\ In (JS.u "sea") (PublicPages.tags q).
Proof.
  intros p.
  apply (proj2 (X24_gallery_tags JS.toLowerCase (JS.u "landscape") [p])
           (JS.u "sea")).
  vm_compute. auto.
Defined.

Lemma X26_blog_list_tags_witness :
  let p := PublicPages.Post (JS.u "Hello") (JS.u "First post") [JS.u "rocq"] in
  exists q,
    In q (PublicPages.filteredPosts JS.toLowerCase [] (JS.u "rocq") [p])
    /\ In (JS.u "rocq") (PublicPages.post_tags q).
Proof.
  intros p.
  apply (proj1 (proj2 (proj2 (X26_blog_list_tags JS.toLowerCase [p] eq_refl)))
           (JS.u "rocq")).
  - vm_compute. auto.
  - discriminate.
Defined.

(** ** The sections of the home page *)

Section HomeFacts.
Import JS JSText PublicPages.

(** X29. The three sections of the home page: each shows the featured
    experiences of its type, in the order of the data, and no experience
    stands in two of them. *)
Theorem X29_home_sections :
  forall allExperiences,
    (forall kind exp,
       In exp (homeSection kind allExperiences)
       <-> In exp allExperiences /\ exp_type exp = kind
           /\ exp_featured exp = true)
    /\ (forall kind, sublist (homeSection kind allExperiences) allExperiences)
    /\ (forall exp,
          ~ (In exp (experiences allExperiences)
             /\ In exp (education allExperiences))
          /\ ~ (In exp (experiences allExperiences)
                /\ In exp (volunteer allExperiences))
          /\ ~ (In exp (education allExperiences)
                /\ In exp (volunteer allExperiences))).
Proof.
  intros data.
  assert (S : forall kind exp,
            In exp (homeSection kind data)
            <-> In exp data /\ exp_type exp = kind /\ exp_featured exp = true).
  { intros kind exp. unfold homeSection.
    rewrite filter_In, andb_true_iff, jseqb_eq. tauto. }
  split; [exact S|]. split; [intros kind; apply filter_sublist|].
  intros exp. unfold experiences, education, volunteer.
  repeat split; intros [H1 H2]; apply S in H1 as (_ & T1 & _);
    apply S in H2 as (_ & T2 & _); rewrite T1 in T2; discriminate T2.
Qed.

End HomeFacts.
